(** * Ingestion handler: a shallow embedding of [services/ingestion/handler.py]

    The handler receives a document-change event, fetches the document,
    normalises it, splits it into overlapping chunks, embeds every chunk
    that has no stored vector yet, stores the vectors and finally writes a
    manifest.  The external collaborators (S3, Bedrock, the clock, the
    random generator and [time.sleep]) are oracles and a logged world;
    everything else is translated function by function.  Output on stdout
    ([print]) is left out, and numbers (delays, random numbers, JSON numbers)
    are exact rationals: the rounding of Python floats is not modelled. *)

From Stdlib Require Import ZArith QArith Qminmax Qpower Lia Lqa List Ascii String.
From Stdlib Require Import DecimalNat DecimalString.
From stdpp Require Import base option list strings gmap.

Local Open Scope string_scope.
Local Open Scope Z_scope.
Local Open Scope list_scope.

#[local] Set Warnings "-register-all".

(* ===================================================================== *)
(** * Part I: definitions                                                 *)
(* ===================================================================== *)

(** ** Python strings

    A [str] is a sequence of characters; characters are the 256 values of
    [ascii], read as the code points U+0000 to U+00FF. *)

Definition str := string.

Definition len (s : str) : Z := Z.of_nat (String.length s).

(** [s[start:stop]] for integer bounds: a negative bound counts from the
    end, and both bounds are clipped to the sequence. *)
Definition slice_bound (n i : Z) : Z :=
  if i <? 0 then Z.max (i + n) 0 else Z.min i n.

Definition py_slice (s : str) (start stop : Z) : str :=
  let lo := slice_bound (len s) start in
  let hi := slice_bound (len s) stop in
  String.substring (Z.to_nat lo) (Z.to_nat (hi - lo)) s.

(** [f"{n}"] for a non-negative [int]. *)
Definition str_of_nat (n : nat) : str := NilZero.string_of_uint (Nat.to_uint n).

(** [s.encode("utf-8")] on code points below 256. *)
Fixpoint utf8_encode (s : str) : list Z :=
  match s with
  | EmptyString => []
  | String c s' =>
      let n := Z.of_nat (nat_of_ascii c) in
      if n <? 128 then n :: utf8_encode s'
      else Z.lor 192 (Z.shiftr n 6) :: Z.lor 128 (Z.land n 63) :: utf8_encode s'
  end.

(** ** [hashlib.sha256(...).hexdigest()] (FIPS 180-4) on 32-bit words in [Z] *)

Module Sha256.

Definition w32 (x : Z) : Z := x mod 2 ^ 32.
Definition rotr (n x : Z) : Z := Z.lor (Z.shiftr x n) (w32 (Z.shiftl x (32 - n))).
Definition xor3 (x y z : Z) : Z := Z.lxor (Z.lxor x y) z.

Definition Ch (x y z : Z) : Z :=
  Z.lxor (Z.land x y) (Z.land (Z.lxor x 0xffffffff) z).
Definition Maj (x y z : Z) : Z := xor3 (Z.land x y) (Z.land x z) (Z.land y z).
Definition Sigma0 (x : Z) : Z := xor3 (rotr 2 x) (rotr 13 x) (rotr 22 x).
Definition Sigma1 (x : Z) : Z := xor3 (rotr 6 x) (rotr 11 x) (rotr 25 x).
Definition sigma0 (x : Z) : Z := xor3 (rotr 7 x) (rotr 18 x) (Z.shiftr x 3).
Definition sigma1 (x : Z) : Z := xor3 (rotr 17 x) (rotr 19 x) (Z.shiftr x 10).

(** The constants are defined as the standard defines them: the first 32
    bits of the fractional parts of the cube roots (round constants) and of
    the square roots (initial hash value) of the first primes. *)
Definition is_prime (n : nat) : bool :=
  List.forallb (fun d => negb (n mod d =? 0)%nat) (List.seq 2 (n - 2)).

Definition primes_below (n : nat) : list Z :=
  List.map Z.of_nat (List.filter is_prime (List.seq 2 (n - 2))).

(** Integer cube root of [n], built bit by bit from bit [bits - 1] down. *)
Fixpoint cube_root (bits : nat) (n r : Z) : Z :=
  match bits with
  | O => r
  | S b =>
      let r' := r + 2 ^ Z.of_nat b in
      cube_root b n (if r' ^ 3 <=? n then r' else r)
  end.

Definition K : list Z :=
  Eval vm_compute in
    List.map (fun p => w32 (cube_root 40 (p * 2 ^ 96) 0)) (primes_below 312).

Definition H0 : list Z :=
  Eval vm_compute in
    List.map (fun p => w32 (Z.sqrt (p * 2 ^ 64))) (primes_below 20).

(** Big-endian bytes of [x], [n] of them. *)
Fixpoint be_bytes (n : nat) (x : Z) : list Z :=
  match n with
  | O => []
  | S n' => be_bytes n' (Z.shiftr x 8) ++ [Z.land x 255]
  end.

Definition pad (msg : list Z) : list Z :=
  let l := Z.of_nat (List.length msg) in
  msg ++ [128] ++ List.repeat 0 (Z.to_nat ((55 - l) mod 64)) ++ be_bytes 8 (8 * l).

Fixpoint be_words (n : nat) (bytes : list Z) : list Z :=
  match n, bytes with
  | S n', b0 :: b1 :: b2 :: b3 :: rest =>
      (Z.shiftl b0 24 + Z.shiftl b1 16 + Z.shiftl b2 8 + b3) :: be_words n' rest
  | _, _ => []
  end.

(** The 64 rounds; [win] is the sliding window W[t], ..., W[t+15] of the
    message schedule. *)
Fixpoint rounds (ks win st : list Z) : list Z :=
  match ks, win, st with
  | k :: ks', w :: win', [a; b; c; d; e; f; g; h] =>
      let t1 := w32 (h + Sigma1 e + Ch e f g + k + w) in
      let t2 := w32 (Sigma0 a + Maj a b c) in
      let w16 := w32 (sigma1 (List.nth 13 win' 0) + List.nth 8 win' 0
                      + sigma0 (List.nth 0 win' 0) + w) in
      rounds ks' (win' ++ [w16]) [w32 (t1 + t2); a; b; c; w32 (d + t1); e; f; g]
  | _, _, _ => st
  end.

Definition compress (st block : list Z) : list Z :=
  List.map (fun p => w32 (fst p + snd p))
           (List.combine st (rounds K (be_words 16 block) st)).

Fixpoint blocks (n : nat) (bytes st : list Z) : list Z :=
  match n with
  | O => st
  | S n' => blocks n' (List.skipn 64 bytes) (compress st (List.firstn 64 bytes))
  end.

Definition digest (msg : list Z) : list Z :=
  let p := pad msg in
  List.concat (List.map (be_bytes 4) (blocks (List.length p / 64)%nat p H0)).

Definition hex_digit (n : Z) : ascii :=
  ascii_of_nat (Z.to_nat (if n <? 10 then 48 + n else 87 + n)).

Fixpoint hex (bytes : list Z) : str :=
  match bytes with
  | [] => EmptyString
  | b :: rest => String (hex_digit (Z.shiftr b 4)) (String (hex_digit (Z.land b 15)) (hex rest))
  end.

Definition hexdigest (msg : list Z) : str := hex (digest msg).

End Sha256.

(** ** Identity derivation *)

(** Truthiness of an optional string: [None] and the empty string are
    false. *)
Definition str_truthy (o : option str) : bool :=
  match o with
  | Some (String _ _) => true
  | _ => false
  end.

(** [a or b] on optional strings. *)
Definition py_or (a b : option str) : option str :=
  if str_truthy a then a else b.

(** The [token] of [build_doc_id]: [version_id], or else [etag], or else
    the empty string, where [or] goes by truthiness. *)
Definition doc_token (version_id etag : option str) : str :=
  match py_or (py_or version_id etag) (Some EmptyString) with
  | Some t => t
  | None => EmptyString
  end.

Definition build_doc_id (bucket key : str) (version_id etag : option str) : str :=
  let token := doc_token version_id etag in
  let base := bucket +:+ ":" +:+ key +:+ ":" +:+ token in
  Sha256.hexdigest (utf8_encode base).

(** The token as the specification words it, with [present] read as [not
    None]: the version id if present, else the etag if present, else the
    empty string.  It is compared with [doc_token] below. *)
Definition spec_token (version_id etag : option str) : str :=
  match version_id with
  | Some v => v
  | None => match etag with
            | Some e => e
            | None => EmptyString
            end
  end.

(** [f"{doc_id}:{idx}"] in the chunk loop of [process_s3_event]. *)
Definition chunk_id_of (doc_id : str) (idx : nat) : str :=
  doc_id +:+ ":" +:+ str_of_nat idx.

(** ** Text normaliser: [markdown_to_text] *)

Definition is_tick (c : ascii) : bool := Ascii.eqb c "`".
Definition is_newline (c : ascii) : bool := Ascii.eqb c "010".

(** [str.isspace] on the code points below 256. *)
Definition is_space (c : ascii) : bool :=
  let n := nat_of_ascii c in
  ((9 <=? n) && (n <=? 13) || (28 <=? n) && (n <=? 32)
   || (n =? 133) || (n =? 160))%nat.

(** [Some rest] when the string is three backticks followed by [rest]. *)
Definition fence_tail (s : str) : option str :=
  match s with
  | String a (String b (String c rest)) =>
      if is_tick a && is_tick b && is_tick c then Some rest else None
  | _ => None
  end.

(** The text before and the text after the leftmost triple backtick. *)
Fixpoint split_fence (s : str) : option (str * str) :=
  match s with
  | EmptyString => None
  | String c s' =>
      match fence_tail s with
      | Some rest => Some (EmptyString, rest)
      | None =>
          match split_fence s' with
          | Some (pre, post) => Some (String c pre, post)
          | None => None
          end
      end
  end.

(** The first [re.sub] (fenced code blocks, dot matches newlines): the
    leftmost fence opens a match, the next fence after it closes the match
    (the middle is lazy), the match is dropped and the scan goes on behind
    it.  An opening fence with no closing one leaves the rest as it is. *)
Fixpoint drop_code_blocks (fuel : nat) (s : str) : str :=
  match fuel with
  | O => s
  | S fuel' =>
      match split_fence s with
      | None => s
      | Some (pre, body) =>
          match split_fence body with
          | None => s
          | Some (_, rest) => pre +:+ drop_code_blocks fuel' rest
          end
      end
  end.

(** The text before and the text after the leftmost backtick. *)
Fixpoint split_tick (s : str) : option (str * str) :=
  match s with
  | EmptyString => None
  | String c s' =>
      if is_tick c then Some (EmptyString, s')
      else match split_tick s' with
           | Some (pre, post) => Some (String c pre, post)
           | None => None
           end
  end.

(** The second [re.sub] (inline code spans): a backtick and the next
    backtick are removed, what is between them is kept. *)
Fixpoint unwrap_inline_code (fuel : nat) (s : str) : str :=
  match fuel with
  | O => s
  | S fuel' =>
      match split_tick s with
      | None => s
      | Some (pre, body) =>
          match split_tick body with
          | None => s
          | Some (code, rest) => pre +:+ code +:+ unwrap_inline_code fuel' rest
          end
      end
  end.

Fixpoint newlines (n : nat) : str :=
  match n with
  | O => EmptyString
  | S n' => String "010" (newlines n')
  end.

(** What a maximal run of [run] newlines becomes: three or more collapse
    to two. *)
Definition emit_run (run : nat) : str :=
  if (3 <=? run)%nat then newlines 2 else newlines run.

(** The third [re.sub] (runs of three or more newlines); [run] newlines
    have just been read. *)
Fixpoint collapse_newlines (run : nat) (s : str) : str :=
  match s with
  | EmptyString => emit_run run
  | String c s' =>
      if is_newline c then collapse_newlines (S run) s'
      else emit_run run +:+ String c (collapse_newlines 0 s')
  end.

Fixpoint lstrip (s : str) : str :=
  match s with
  | EmptyString => EmptyString
  | String c s' => if is_space c then lstrip s' else s
  end.

Fixpoint rstrip (s : str) : str :=
  match s with
  | EmptyString => EmptyString
  | String c s' =>
      match rstrip s' with
      | EmptyString => if is_space c then EmptyString else String c EmptyString
      | r => String c r
      end
  end.

Definition strip (s : str) : str := rstrip (lstrip s).

Definition markdown_to_text (markdown : str) : str :=
  let without_code_blocks := drop_code_blocks (String.length markdown) markdown in
  let without_inline_code :=
    unwrap_inline_code (String.length without_code_blocks) without_code_blocks in
  let collapsed := collapse_newlines 0 without_inline_code in
  strip collapsed.

(** What the claims say about a text: it contains a pattern, it has so many
    backticks, it starts or ends with white space. *)
Fixpoint contains (pattern s : str) : bool :=
  String.prefix pattern s
  || match s with
     | EmptyString => false
     | String _ s' => contains pattern s'
     end.

Definition fence : str := "```".

Fixpoint count_ticks (s : str) : nat :=
  match s with
  | EmptyString => 0
  | String c s' => ((if is_tick c then 1 else 0) + count_ticks s')%nat
  end.

Definition first_is_space (s : str) : bool :=
  match s with
  | EmptyString => false
  | String c _ => is_space c
  end.

Fixpoint last_is_space (s : str) : bool :=
  match s with
  | EmptyString => false
  | String c EmptyString => is_space c
  | String _ s' => last_is_space s'
  end.

(** ** Chunker: [chunk_text]

    The [while] loop is run with fuel: one unit per test of the loop
    condition, [None] when the fuel runs out. *)

Fixpoint chunk_loop (fuel : nat) (text : str) (chunk_size overlap : Z)
                    (start : Z) (chunks : list str) : option (list str) :=
  match fuel with
  | O => None
  | S fuel' =>
      let text_length := len text in
      if start <? text_length then
        let end_ := Z.min (start + chunk_size) text_length in
        let chunks := chunks ++ [py_slice text start end_] in
        if end_ =? text_length then Some chunks
        else chunk_loop fuel' text chunk_size overlap (end_ - overlap) chunks
      else Some chunks
  end.

Definition chunk_text (fuel : nat) (text : str) (chunk_size overlap : Z)
  : option (list str) :=
  match text with
  | EmptyString => Some []
  | _ => chunk_loop fuel text chunk_size overlap 0 []
  end.

(** The regions the claims speak of: chunk [i] is the window that starts at
    [i * (chunk_size - overlap)], and the part of a chunk that is not shared
    with its predecessor is what follows its first [overlap] characters. *)
Definition window (text : str) (chunk_size overlap : Z) (i : nat) : str :=
  let start := Z.of_nat i * (chunk_size - overlap) in
  py_slice text start (Z.min (start + chunk_size) (len text)).

Definition non_overlapping (overlap : Z) (chunks : list str) : list str :=
  match chunks with
  | [] => []
  | c :: rest => c :: List.map (fun c' => py_slice c' overlap (len c')) rest
  end.

Definition joined (parts : list str) : str := String.concat EmptyString parts.

(** The characters of a string, for reasoning with the list library. *)
Definition chars (s : str) : list ascii := list_ascii_of_string s.

(** ** Values, exceptions and the world *)

(** A parsed JSON document ([json.loads]); numbers are rationals, objects
    are association lists read from the left. *)
Inductive json : Type :=
| JNull
| JBool (b : bool)
| JNum (q : Q)
| JStr (s : str)
| JArr (items : list json)
| JObj (fields : list (str * json)).

(** Truthiness, as [or] and [not] see it. *)
Definition truthy (j : json) : bool :=
  match j with
  | JNull => false
  | JBool b => b
  | JNum q => negb (Qeq_bool q 0)
  | JStr s => match s with EmptyString => false | _ => true end
  | JArr items => match items with [] => false | _ => true end
  | JObj fields => match fields with [] => false | _ => true end
  end.

Fixpoint assoc (k : str) (fields : list (str * json)) : option json :=
  match fields with
  | [] => None
  | (k', v) :: rest => if String.eqb k k' then Some v else assoc k rest
  end.

(** The exceptions the handler tells apart.  [ClientError] carries
    [response["Error"]["Code"]] when the response has one; every exception
    carries its [str(exc)]; a [RuntimeError] raised [from exc] carries its
    cause. *)
Inductive exception : Type :=
| ClientError (code : option str) (msg : str)
| BotoCoreError (msg : str)
| KeyError (msg : str)
| ValueError (msg : str)
| AttributeError (msg : str)
| RuntimeError (msg : str) (cause : option exception)
| OtherException (msg : str).

Definition exc_str (e : exception) : str :=
  match e with
  | ClientError _ msg | BotoCoreError msg | KeyError msg | ValueError msg
  | AttributeError msg | RuntimeError msg _ | OtherException msg => msg
  end.

Inductive result (A : Type) : Type :=
| Ok (a : A)
| Raise (e : exception).
Arguments Ok {A} a.
Arguments Raise {A} e.

(** Module-level configuration read from [os.environ]. *)
Record Config : Type := {
  RAW_BUCKET : str;
  PROCESSED_BUCKET : str;
  S3_VECTORS_INDEX : str;
  S3_VECTORS_NAMESPACE : str;
  BEDROCK_EMBEDDING_MODEL : str;
}.

Definition default_config (raw processed : str) : Config :=
  {| RAW_BUCKET := raw;
     PROCESSED_BUCKET := processed;
     S3_VECTORS_INDEX := "rag-insurellm-dev-kb";
     S3_VECTORS_NAMESPACE := "default";
     BEDROCK_EMBEDDING_MODEL := "amazon.titan-embed-text-v2:0" |}.

(** The records the handler builds (Python dict literals with fixed keys). *)
Record ChunkEntry : Type := {
  chunk_id : str;
  doc_type : str;
  chunk_text_preview : str;
  source_s3_uri : str;
  length : Z;
  created_at : str;
}.

Record Source : Type := {
  src_bucket : str;
  src_key : str;
  src_version_id : option str;
}.

Record Manifest : Type := {
  m_doc_id : str;
  m_source : Source;
  m_created_at : str;
  m_chunks : list ChunkEntry;
}.

Record Metadata : Type := {
  md_doc_id : str;
  md_source_s3_uri : str;
  md_chunk_id : str;
  md_doc_type : str;
  md_created_at : str;
  md_chunk_text_preview : str;
}.

Record VectorPayload : Type := {
  vp_id : str;
  vp_index : str;
  vp_namespace : str;
  vp_embedding : json;
  vp_metadata : Metadata;
}.

(** A body handed to [put_object]; [json.dumps] and [encode] are kept
    abstract, the body is the value that is serialised. *)
Inductive s3_object : Type :=
| VectorObject (payload : VectorPayload)
| ManifestObject (manifest : Manifest).

(** Calls that leave the process, in the order they are made. *)
Inductive event : Type :=
| GetObject (bucket key : str) (version_id : option str)
| HeadObject (bucket key : str)
| PutObject (bucket key : str) (body : s3_object)
| InvokeModel (model_id : str) (body : json)
| Sleep (seconds : Q).

(** The world: the calls made so far, the objects of the processed bucket,
    and how many random numbers have been drawn. *)
Record World : Type := {
  trace : list event;
  processed : gmap string s3_object;
  draws : nat;
}.

(** The collaborators.  Each answer may depend on everything that happened
    before.  [get_object] stands for the call, the read and the decoding;
    [invoke_model] for the call, the read and [json.loads]: an exception of
    any of these steps is an exception of the oracle.  [random] lists the
    successive values of [random.random()]. *)
Record Env : Type := {
  get_object : World -> str -> str -> option str -> exception + str;
  head_object : World -> str -> str -> option exception;
  put_object : World -> str -> str -> s3_object -> option exception;
  invoke_model : World -> str -> json -> exception + json;
  random : nat -> Q;
  utcnow : World -> str;
}.

(** ** The effect monad: state passing over the world, with exceptions *)

Definition M (A : Type) : Type := World -> result A * World.

Definition ret {A} (a : A) : M A := fun w => (Ok a, w).
Definition raise {A} (e : exception) : M A := fun w => (Raise e, w).

Definition bind {A B} (m : M A) (k : A -> M B) : M B :=
  fun w => match m w with
           | (Ok a, w') => k a w'
           | (Raise e, w') => (Raise e, w')
           end.

(** [try: m except ... as exc: handler exc]; a handler re-raises what it
    does not catch. *)
Definition catch {A} (m : M A) (handler : exception -> M A) : M A :=
  fun w => match m w with
           | (Ok a, w') => (Ok a, w')
           | (Raise e, w') => handler e w'
           end.

Notation "'let*' x := m 'in' k" := (bind m (fun x => k))
  (at level 10, x name, m at level 100, k at level 200).
Notation "m ;; k" := (bind m (fun _ => k))
  (at level 100, k at level 200, right associativity).

Definition log (e : event) : M unit :=
  fun w => (Ok tt, {| trace := trace w ++ [e]; processed := processed w; draws := draws w |}).

Definition lift {A} (r : result A) : M A := fun w => (r, w).

Definition time_sleep (seconds : Q) : M unit := log (Sleep seconds).

(** [random.uniform(a, b)] is [a + (b - a) * random.random()]. *)
Definition random_uniform (env : Env) (a b : Q) : M Q :=
  fun w => (Ok (a + (b - a) * random env (draws w))%Q,
            {| trace := trace w; processed := processed w; draws := S (draws w) |}).

Definition s3_get_object (env : Env) (bucket key : str) (version_id : option str) : M str :=
  fun w =>
    let w' := {| trace := trace w ++ [GetObject bucket key version_id];
                 processed := processed w; draws := draws w |} in
    match get_object env w bucket key version_id with
    | inl exc => (Raise exc, w')
    | inr text => (Ok text, w')
    end.

Definition s3_head_object (env : Env) (bucket key : str) : M unit :=
  fun w =>
    let w' := {| trace := trace w ++ [HeadObject bucket key];
                 processed := processed w; draws := draws w |} in
    match head_object env w bucket key with
    | Some exc => (Raise exc, w')
    | None => (Ok tt, w')
    end.

(** A put that succeeds replaces the object under the key; a put that
    fails leaves the bucket as it was. *)
Definition s3_put_object (env : Env) (bucket key : str) (body : s3_object) : M unit :=
  fun w =>
    match put_object env w bucket key body with
    | Some exc =>
        (Raise exc, {| trace := trace w ++ [PutObject bucket key body];
                       processed := processed w; draws := draws w |})
    | None =>
        (Ok tt, {| trace := trace w ++ [PutObject bucket key body];
                   processed := <[key := body]> (processed w); draws := draws w |})
    end.

Definition bedrock_invoke_model (env : Env) (model_id : str) (body : json) : M json :=
  fun w =>
    let w' := {| trace := trace w ++ [InvokeModel model_id body];
                 processed := processed w; draws := draws w |} in
    match invoke_model env w model_id body with
    | inl exc => (Raise exc, w')
    | inr parsed => (Ok parsed, w')
    end.

(** Observations on a trace. *)
Definition is_invoke (e : event) : bool :=
  match e with InvokeModel _ _ => true | _ => false end.

Definition is_put (key : str) (e : event) : bool :=
  match e with PutObject _ k _ => String.eqb k key | _ => false end.

Definition is_any_put (e : event) : bool :=
  match e with PutObject _ _ _ => true | _ => false end.

Definition invoke_count (tr : list event) : nat :=
  List.length (List.filter is_invoke tr).

Definition put_count (key : str) (tr : list event) : nat :=
  List.length (List.filter (is_put key) tr).

Definition sleeps (tr : list event) : list Q :=
  omap (fun e => match e with Sleep d => Some d | _ => None end) tr.

(** ** Embedding client: [embed_text] *)

Definition max_retries : nat := 8.
Definition base_delay : Q := 1 # 2.

(** [min(a, b)] on numbers: [b] when [b < a], else [a]. *)
Definition py_min (a b : Q) : Q := if Qle_bool a b then a else b.

(** [body.get(k)]: only a dict has [get]. *)
Definition dict_get (body : json) (k : str) : result json :=
  match body with
  | JObj fields => Ok (match assoc k fields with Some v => v | None => JNull end)
  | _ => Raise (AttributeError "object has no attribute 'get'")
  end.

Definition is_throttling (error_code : option str) : bool :=
  match error_code with
  | Some c => String.eqb c "ThrottlingException"
  | None => false
  end.

Definition embed_failure (cfg : Config) (exc : exception) : exception :=
  RuntimeError ("Failed to embed text with model " +:+ BEDROCK_EMBEDDING_MODEL cfg
                +:+ ": " +:+ exc_str exc) (Some exc).

(** [body.get("embedding") or body.get("vector")] *)
Definition extract_embedding (body : json) : result json :=
  match dict_get body "embedding" with
  | Raise exc => Raise exc
  | Ok first => if truthy first then Ok first else dict_get body "vector"
  end.

(** The body of the [try] of one attempt. *)
Definition embed_attempt (env : Env) (cfg : Config) (payload : json) : M json :=
  let* body := bedrock_invoke_model env (BEDROCK_EMBEDDING_MODEL cfg) payload in
  let* embedding := lift (extract_embedding body) in
  if negb (truthy embedding) then
    raise (RuntimeError "Embedding response missing vector" None)
  else
    let* pace := random_uniform env (1 # 20) (3 # 20) in
    time_sleep pace ;;
    ret embedding.

(** The [for attempt in range(max_retries)] loop; a loop that runs out
    falls off the end of the function, which returns [None]. *)
Fixpoint embed_loop (env : Env) (cfg : Config) (payload : json)
                    (attempts : list nat) : M json :=
  match attempts with
  | [] => ret JNull
  | attempt :: rest =>
      catch (embed_attempt env cfg payload)
        (fun exc =>
           match exc with
           | ClientError error_code _ =>
               if is_throttling error_code && (attempt <? max_retries - 1)%nat then
                 let* jitter := random_uniform env (3 # 4) (5 # 4) in
                 let delay :=
                   (py_min 8 (base_delay * inject_Z (2 ^ Z.of_nat attempt)) * jitter)%Q in
                 time_sleep delay ;;
                 embed_loop env cfg payload rest
               else raise (embed_failure cfg exc)
           | BotoCoreError _ | KeyError _ | ValueError _ =>
               raise (embed_failure cfg exc)
           | _ => raise exc
           end)
  end.

Definition embed_text (env : Env) (cfg : Config) (text : str) : M json :=
  let payload := JObj [("inputText", JStr text)] in
  embed_loop env cfg payload (List.seq 0 max_retries).

(** ** Vector store gateway *)

Definition vector_object_key (cfg : Config) (chunk_id : str) : str :=
  "vectors/" +:+ S3_VECTORS_INDEX cfg +:+ "/" +:+ S3_VECTORS_NAMESPACE cfg
  +:+ "/" +:+ chunk_id +:+ ".json".

(** [error_code in {...}]; a missing code is in no set of strings. *)
Definition code_in (error_code : option str) (codes : list str) : bool :=
  match error_code with
  | Some c => List.existsb (String.eqb c) codes
  | None => false
  end.

Definition not_found_codes : list str := ["404"; "NoSuchKey"; "NotFound"].
Definition access_denied_codes : list str := ["403"; "AccessDenied"; "Forbidden"].

Definition vector_exists (env : Env) (cfg : Config) (key : str) : M bool :=
  catch (s3_head_object env (PROCESSED_BUCKET cfg) key ;; ret true)
    (fun exc =>
       match exc with
       | ClientError error_code _ =>
           if code_in error_code not_found_codes then ret false
           else if code_in error_code access_denied_codes then ret false
           else raise exc
       | _ => raise exc
       end).

Definition store_vector (env : Env) (cfg : Config) (chunk_id : str)
                        (embedding : json) (metadata : Metadata) : M unit :=
  let key := vector_object_key cfg chunk_id in
  let payload :=
    {| vp_id := chunk_id;
       vp_index := S3_VECTORS_INDEX cfg;
       vp_namespace := S3_VECTORS_NAMESPACE cfg;
       vp_embedding := embedding;
       vp_metadata := metadata |} in
  catch (s3_put_object env (PROCESSED_BUCKET cfg) key (VectorObject payload))
    (fun exc =>
       match exc with
       | ClientError _ _ | BotoCoreError _ =>
           raise (RuntimeError ("Failed to store vector " +:+ chunk_id +:+ ": "
                                +:+ exc_str exc) (Some exc))
       | _ => raise exc
       end).

Definition manifest_key (doc_id : str) : str :=
  "processed/" +:+ doc_id +:+ "/chunks.json".

Definition put_manifest (env : Env) (cfg : Config) (doc_id : str)
                        (manifest : Manifest) : M unit :=
  let key := manifest_key doc_id in
  catch (s3_put_object env (PROCESSED_BUCKET cfg) key (ManifestObject manifest))
    (fun exc =>
       match exc with
       | ClientError _ _ | BotoCoreError _ =>
           raise (RuntimeError ("Failed to write manifest for " +:+ doc_id +:+ ": "
                                +:+ exc_str exc) (Some exc))
       | _ => raise exc
       end).

(** ** Fetch, classification and the orchestrator *)

Definition fetch_markdown (env : Env) (bucket key : str) (version_id : option str)
  : M str :=
  let params_version := if str_truthy version_id then version_id else None in
  catch (s3_get_object env bucket key params_version)
    (fun exc =>
       match exc with
       | ClientError _ _ | BotoCoreError _ =>
           raise (RuntimeError ("Failed to fetch " +:+ bucket +:+ "/" +:+ key +:+ ": "
                                +:+ exc_str exc) (Some exc))
       | _ => raise exc
       end).

(** [key.split("/", 1)[0]] *)
Fixpoint before_slash (s : str) : str :=
  match s with
  | EmptyString => EmptyString
  | String c s' => if Ascii.eqb c "/" then EmptyString else String c (before_slash s')
  end.

Definition infer_doc_type (key : str) : str :=
  let prefix := before_slash key in
  if List.existsb (String.eqb prefix) ["company"; "contracts"; "employees"; "products"]
  then prefix else "unknown".

(** The fields of an S3 record that [process_s3_event] reads (the key
    already unquoted). *)
Record S3Record : Type := {
  rec_bucket : str;
  rec_key : str;
  rec_version_id : option str;
  rec_etag : option str;
}.

(** What the chunk loop reads but does not change. *)
Record DocContext : Type := {
  ctx_doc_id : str;
  ctx_doc_type : str;
  ctx_source_uri : str;
  ctx_created_at : str;
}.

(** One turn of the [for idx, chunk in enumerate(chunks)] loop; [chunks_so_far]
    is [manifest["chunks"]]. *)
Definition process_chunk (env : Env) (cfg : Config) (ctx : DocContext)
    (idx : nat) (chunk : str) (chunks_so_far : list ChunkEntry) : M (list ChunkEntry) :=
  let chunk_id := chunk_id_of (ctx_doc_id ctx) idx in
  let vector_key := vector_object_key cfg chunk_id in
  let* found := vector_exists env cfg vector_key in
  if (found : bool) then
    ret (chunks_so_far ++
         [ {| chunk_id := chunk_id;
              doc_type := ctx_doc_type ctx;
              chunk_text_preview := py_slice chunk 0 200;
              source_s3_uri := ctx_source_uri ctx;
              length := len chunk;
              created_at := ctx_created_at ctx |} ])
  else
    let metadata :=
      {| md_doc_id := ctx_doc_id ctx;
         md_source_s3_uri := ctx_source_uri ctx;
         md_chunk_id := chunk_id;
         md_doc_type := ctx_doc_type ctx;
         md_created_at := ctx_created_at ctx;
         md_chunk_text_preview := py_slice chunk 0 200 |} in
    let* embedding := embed_text env cfg chunk in
    store_vector env cfg chunk_id embedding metadata ;;
    ret (chunks_so_far ++
         [ {| chunk_id := chunk_id;
              doc_type := ctx_doc_type ctx;
              chunk_text_preview := py_slice chunk 0 200;
              source_s3_uri := ctx_source_uri ctx;
              length := len chunk;
              created_at := ctx_created_at ctx |} ]).

Fixpoint process_chunks (env : Env) (cfg : Config) (ctx : DocContext)
    (idx : nat) (chunks : list str) (chunks_so_far : list ChunkEntry)
  : M (list ChunkEntry) :=
  match chunks with
  | [] => ret chunks_so_far
  | chunk :: rest =>
      let* chunks_so_far := process_chunk env cfg ctx idx chunk chunks_so_far in
      process_chunks env cfg ctx (S idx) rest chunks_so_far
  end.

(** [process_s3_event]; [None] only when the chunker runs out of fuel. *)
Definition process_s3_event (fuel : nat) (env : Env) (cfg : Config)
    (s3_record : S3Record) : World -> option (result unit * World) :=
  fun w =>
    let bucket := rec_bucket s3_record in
    let key := rec_key s3_record in
    let version_id := rec_version_id s3_record in
    let etag := rec_etag s3_record in
    let doc_id := build_doc_id bucket key version_id etag in
    match fetch_markdown env bucket key version_id w with
    | (Raise exc, w1) => Some (Raise exc, w1)
    | (Ok document_text, w1) =>
        let plain_text := markdown_to_text document_text in
        match chunk_text fuel plain_text 1200 200 with
        | None => None
        | Some chunks =>
            let ctx :=
              {| ctx_doc_id := doc_id;
                 ctx_doc_type := infer_doc_type key;
                 ctx_source_uri := "s3://" +:+ bucket +:+ "/" +:+ key;
                 ctx_created_at := utcnow env w1 |} in
            Some ((let* entries := process_chunks env cfg ctx 0 chunks [] in
                   put_manifest env cfg doc_id
                     {| m_doc_id := doc_id;
                        m_source := {| src_bucket := bucket; src_key := key;
                                       src_version_id := version_id |};
                        m_created_at := ctx_created_at ctx;
                        m_chunks := entries |}) w1)
        end
    end.

(** ** Vocabulary of the statements *)

(** The answer of the embedding service to a call is a throttling error. *)
Definition is_throttled (answer : exception + json) : Prop :=
  exists msg, answer = inl (ClientError (Some "ThrottlingException") msg).

(** The answer of the configured model to the call number [k], counting
    the calls of the whole trace from 0, satisfies [P]. *)
Definition call_number (env : Env) (cfg : Config) (k : nat)
                       (P : exception + json -> Prop) : Prop :=
  forall (w : World) (body : json),
    invoke_count (trace w) = k ->
    P (invoke_model env w (BEDROCK_EMBEDDING_MODEL cfg) body).

(** The backoff delay of the claims for a zero-based attempt number and a
    jitter factor: the smaller of 8 and 0.5 times 2 to the attempt, times
    the jitter. *)
Definition backoff_delay (attempt : nat) (jitter : Q) : Q :=
  (Qmin 8 ((1 # 2) * 2 ^ Z.of_nat attempt) * jitter)%Q.

(** What the loop of [process_s3_event] appends for the chunk [idx]. *)
Definition entry_for (ctx : DocContext) (idx : nat) (chunk : str) : ChunkEntry :=
  {| chunk_id := ctx_doc_id ctx +:+ ":" +:+ str_of_nat idx;
     doc_type := ctx_doc_type ctx;
     chunk_text_preview := py_slice chunk 0 200;
     source_s3_uri := ctx_source_uri ctx;
     length := len chunk;
     created_at := ctx_created_at ctx |}.

Definition entries_for (ctx : DocContext) (idx : nat) (chunks : list str)
  : list ChunkEntry :=
  imap (fun i chunk => entry_for ctx (idx + i) chunk) chunks.

(** The vector keys of the chunks [idx], ..., [idx + n - 1] of a document. *)
Definition vector_keys (cfg : Config) (doc_id : str) (idx n : nat) : list str :=
  List.map (fun i => vector_object_key cfg (chunk_id_of doc_id i)) (List.seq idx n).

(** Observations on a trace: the keys probed, the keys written, and the
    manifests handed to [put_object] with their keys. *)
Definition head_keys (tr : list event) : list str :=
  omap (fun e => match e with HeadObject _ k => Some k | _ => None end) tr.

Definition put_keys (tr : list event) : list str :=
  omap (fun e => match e with PutObject _ k _ => Some k | _ => None end) tr.

Definition manifest_puts (tr : list event) : list (str * Manifest) :=
  omap (fun e => match e with
                 | PutObject _ k (ManifestObject m) => Some (k, m)
                 | _ => None
                 end) tr.

(** The context that [process_s3_event] builds for a record once the
    document is fetched in the world [w1]. *)
Definition context_of (env : Env) (s3_record : S3Record) (w1 : World) : DocContext :=
  {| ctx_doc_id := build_doc_id (rec_bucket s3_record) (rec_key s3_record)
                                (rec_version_id s3_record) (rec_etag s3_record);
     ctx_doc_type := infer_doc_type (rec_key s3_record);
     ctx_source_uri := "s3://" +:+ rec_bucket s3_record +:+ "/" +:+ rec_key s3_record;
     ctx_created_at := utcnow env w1 |}.

Definition is_embed_event (e : event) : bool :=
  match e with InvokeModel _ _ | Sleep _ => true | _ => false end.

(** [w'] comes after [w] in a run of the chunk loop: the trace grew, no
    manifest was handed to [put_object], and the bucket changed under vector
    keys only. *)
Definition chunk_footprint (cfg : Config) (w w' : World) : Prop :=
  exists (evs : list event) (d : nat),
    trace w' = trace w ++ evs
    /\ draws w' = (draws w + d)%nat
    /\ manifest_puts evs = []
    /\ (forall k, (forall c, k <> vector_object_key cfg c) ->
                  processed w' !! k = processed w !! k)
    /\ (forall k, is_Some (processed w !! k) -> is_Some (processed w' !! k)).

(** The jitter, the delay and the pacing delay that the loop computes from
    the random number with index [k]. *)
Definition drawn_jitter (env : Env) (k : nat) : Q :=
  ((3 # 4) + ((5 # 4) - (3 # 4)) * random env k)%Q.

Definition drawn_delay (env : Env) (attempt k : nat) : Q :=
  (py_min 8 (base_delay * inject_Z (2 ^ Z.of_nat attempt)) * drawn_jitter env k)%Q.

Definition drawn_pace (env : Env) (k : nat) : Q :=
  ((1 # 20) + ((3 # 20) - (1 # 20)) * random env k)%Q.

(** ** Worlds and collaborators used in the examples *)

(** The world after more calls and more random draws. *)
Definition advance (w : World) (events : list event) (drawn : nat) : World :=
  {| trace := trace w ++ events; processed := processed w; draws := draws w + drawn |}.

(** The events of [w'] that are not yet in [w], when [w'] extends [w]. *)
Definition new_events (w w' : World) : list event :=
  drop (List.length (trace w)) (trace w').

Definition empty_world : World := {| trace := []; processed := ∅; draws := 0 |}.

(** A world whose bucket holds an object under the key [k]. *)
Definition stocked_world : World :=
  {| trace := [];
     processed :=
       {[ "k" := ManifestObject
                   {| m_doc_id := "d";
                      m_source := {| src_bucket := "b"; src_key := "k";
                                     src_version_id := None |};
                      m_created_at := "t"; m_chunks := [] |} ]};
     draws := 0 |}.

Definition demo_config : Config := default_config "raw-docs" "processed-docs".

Definition throttling : exception :=
  ClientError (Some "ThrottlingException") "Too many requests, please wait".

Definition demo_vector : json := JArr [JNum (1 # 10); JNum (-3 # 10)].

(** Scripts for the embedding service: the answer to the call number [k]. *)
Definition throttle_first (n : nat) (answer : json) (k : nat) : exception + json :=
  if (k <? n)%nat then inl throttling else inr answer.

Definition always_throttle (k : nat) : exception + json := inl throttling.

(** A store that answers [head_object] from the content of the bucket and
    accepts every put, one document behind every key, and an embedding
    service that follows a script. *)
Definition demo_env (script : nat -> exception + json) (document : str) : Env :=
  {| get_object := fun _ _ _ _ => inr document;
     head_object := fun w _ key =>
       match processed w !! key with
       | Some _ => None
       | None => Some (ClientError (Some "404") "Not Found")
       end;
     put_object := fun _ _ _ _ => None;
     invoke_model := fun w _ _ => script (invoke_count (trace w));
     random := fun _ => 1 # 2;
     utcnow := fun _ => "2024-05-01T12:00:00+00:00" |}.

Definition demo_answer : json := JObj [("embedding", demo_vector)].

Definition demo_record : S3Record :=
  {| rec_bucket := "raw-docs"; rec_key := "products/plan.md";
     rec_version_id := Some "v1"; rec_etag := None |}.

(** A pass over a short document whose first embedding call is throttled,
    and the world it leaves behind. *)
Definition demo_document : str := "Plan A covers `dental` care.".

Definition demo_pass : option (result unit * World) :=
  process_s3_event 100 (demo_env (throttle_first 1 demo_answer) demo_document)
                   demo_config demo_record empty_world.

Definition demo_pass_world : World :=
  match demo_pass with
  | Some (_, w) => w
  | None => empty_world
  end.

Definition demo_env_pass : Env := demo_env (throttle_first 1 demo_answer) demo_document.

Definition demo_ctx : DocContext :=
  context_of demo_env_pass demo_record empty_world.

(** The turn of the chunk loop for chunk 0 of the demo document, once in a
    world whose bucket has the vector and once in a world whose bucket is
    empty. *)
Definition demo_turn_cached : result (list ChunkEntry) * World :=
  process_chunk demo_env_pass demo_config demo_ctx 0 "Plan A covers dental care." []
                demo_pass_world.

Definition demo_turn_fresh : result (list ChunkEntry) * World :=
  process_chunk demo_env_pass demo_config demo_ctx 0 "Plan A covers dental care." []
                empty_world.

(** The second pass over the demo record, started where the first ended. *)
Definition demo_second_pass : option (result unit * World) :=
  process_s3_event 100 demo_env_pass demo_config demo_record demo_pass_world.

Definition demo_second_world : World :=
  match demo_second_pass with
  | Some (_, w) => w
  | None => empty_world
  end.

(** The same store with [head_object] denied, failing with [code]. *)
Definition head_failing_env (code : option str) : Env :=
  {| get_object := get_object (demo_env (throttle_first 0 demo_answer) "text");
     head_object := fun _ _ _ => Some (ClientError code "head failed");
     put_object := put_object (demo_env (throttle_first 0 demo_answer) "text");
     invoke_model := invoke_model (demo_env (throttle_first 0 demo_answer) "text");
     random := random (demo_env (throttle_first 0 demo_answer) "text");
     utcnow := utcnow (demo_env (throttle_first 0 demo_answer) "text") |}.

(** ** Entry points: [process_sqs_record] and [lambda_handler]

    The envelope is read before anything leaves the process: the subscripts,
    the [get] calls and [unquote_plus] of the first lines of
    [process_s3_event] give the fields of an S3 record or raise, and
    [json.loads] with the [get] calls of [process_sqs_record] gives the list
    of S3 records of a body or raises.  A record is what these readings
    give; [None] stands for a chunker out of fuel, as before. *)

Definition process_s3_record (fuel : nat) (env : Env) (cfg : Config)
    (s3_record : exception + S3Record) : World -> option (result unit * World) :=
  fun w =>
    match s3_record with
    | inl exc => Some (Raise exc, w)
    | inr fields => process_s3_event fuel env cfg fields w
    end.

(** [for s3_record in s3_records: process_s3_event(s3_record)] *)
Fixpoint process_s3_records (fuel : nat) (env : Env) (cfg : Config)
    (s3_records : list (exception + S3Record)) : World -> option (result unit * World) :=
  fun w =>
    match s3_records with
    | [] => Some (Ok tt, w)
    | s3_record :: rest =>
        match process_s3_record fuel env cfg s3_record w with
        | None => None
        | Some (Raise exc, w') => Some (Raise exc, w')
        | Some (Ok _, w') => process_s3_records fuel env cfg rest w'
        end
    end.

Record SqsRecord : Type := {
  sqs_message_id : option str;
  sqs_body : exception + list (exception + S3Record);
}.

Definition process_sqs_record (fuel : nat) (env : Env) (cfg : Config)
    (record : SqsRecord) : World -> option (result unit * World) :=
  fun w =>
    match sqs_body record with
    | inl exc => Some (Raise exc, w)
    | inr s3_records => process_s3_records fuel env cfg s3_records w
    end.

(** The loop of [lambda_handler]; the [except] clause prints and raises the
    same exception again. *)
Fixpoint handle_records (fuel : nat) (env : Env) (cfg : Config)
    (records : list SqsRecord) : World -> option (result unit * World) :=
  fun w =>
    match records with
    | [] => Some (Ok tt, w)
    | record :: rest =>
        match process_sqs_record fuel env cfg record w with
        | None => None
        | Some (Raise exc, w') => Some (Raise exc, w')
        | Some (Ok _, w') => handle_records fuel env cfg rest w'
        end
    end.

(** The dict that [lambda_handler] returns. *)
Record HandlerResult : Type := {
  hr_status : str;
  hr_records : Z;
}.

Definition lambda_handler (fuel : nat) (env : Env) (cfg : Config)
    (records : list SqsRecord) : World -> option (result HandlerResult * World) :=
  fun w =>
    match handle_records fuel env cfg records w with
    | None => None
    | Some (Raise exc, w') => Some (Raise exc, w')
    | Some (Ok _, w') =>
        Some (Ok {| hr_status := "ok"; hr_records := Z.of_nat (List.length records) |}, w')
    end.

(** ** More vocabulary *)

(** A lower-case hexadecimal digit. *)
Definition is_lower_hex (c : ascii) : bool :=
  let n := nat_of_ascii c in
  ((48 <=? n) && (n <=? 57) || (97 <=? n) && (n <=? 102))%nat.

(** The recognised document types. *)
Definition doc_types : list str := ["company"; "contracts"; "employees"; "products"].

(** The calls of [k] throttled attempts that are retried, from the attempt
    number [attempt] on, the first jitter being the random number [draw]. *)
Fixpoint retry_events (env : Env) (model : str) (payload : json)
                      (attempt draw k : nat) : list event :=
  match k with
  | O => []
  | S k' =>
      InvokeModel model payload :: Sleep (drawn_delay env attempt draw)
      :: retry_events env model payload (S attempt) (S draw) k'
  end.

(** The seconds slept in a trace. *)
Definition total_sleep (tr : list event) : Q :=
  List.fold_right Qplus 0%Q (sleeps tr).

(** All the S3 records of an event, in the order of the event; a body that
    cannot be read has none. *)
Definition s3_records_of (records : list SqsRecord) : list (exception + S3Record) :=
  List.concat (List.map (fun record => match sqs_body record with
                                       | inl _ => []
                                       | inr s3_records => s3_records
                                       end) records).

Definition doc_id_of (s3_record : S3Record) : str :=
  build_doc_id (rec_bucket s3_record) (rec_key s3_record)
               (rec_version_id s3_record) (rec_etag s3_record).

(** An event of two messages for the examples: the demo record, then a
    record that cannot be read and one more demo record. *)
Definition demo_event : list SqsRecord :=
  [ {| sqs_message_id := Some "m1"; sqs_body := inr [inr demo_record] |};
    {| sqs_message_id := Some "m2";
       sqs_body := inr [inl (KeyError "'s3'"); inr demo_record] |} ].

(** The longest that the retried attempts of a list can sleep: the capped
    delay of each attempt with the largest jitter. *)
Definition worst_wait (attempts : list nat) : Q :=
  List.fold_right
    (fun attempt acc =>
       (py_min 8 (base_delay * inject_Z (2 ^ Z.of_nat attempt)) * (5 # 4) + acc)%Q)
    0%Q attempts.

(** An error of an AWS call: a [ClientError] or a [BotoCoreError]. *)
Definition is_service_error (exc : exception) : bool :=
  match exc with
  | ClientError _ _ | BotoCoreError _ => true
  | _ => false
  end.

(** The collaborators fail with errors of the AWS calls only (a response
    that cannot be read or parsed is excluded). *)
Definition service_errors_only (env : Env) : Prop :=
  (forall w bucket key version exc,
      get_object env w bucket key version = inl exc -> is_service_error exc = true)
  /\ (forall w bucket key exc,
        head_object env w bucket key = Some exc -> is_service_error exc = true)
  /\ (forall w bucket key body exc,
        put_object env w bucket key body = Some exc -> is_service_error exc = true)
  /\ (forall w model payload exc,
        invoke_model env w model payload = inl exc -> is_service_error exc = true).

(** [exc] is the [RuntimeError] raised from an error of an AWS call, with
    the message [what], a colon and the text of that error. *)
Definition wrapped (what : str) (exc : exception) : Prop :=
  exists cause,
    is_service_error cause = true
    /\ exc = RuntimeError (what +:+ ": " +:+ exc_str cause) (Some cause).

(** The exceptions that can leave the chunk loop of a document. *)
Definition chunk_loop_failure (cfg : Config) (doc_id : str) (exc : exception) : Prop :=
  wrapped ("Failed to embed text with model " +:+ BEDROCK_EMBEDDING_MODEL cfg) exc
  \/ (exists idx, wrapped ("Failed to store vector " +:+ chunk_id_of doc_id idx) exc)
  \/ exc = RuntimeError "Embedding response missing vector" None
  \/ (exists msg, exc = AttributeError msg)
  \/ (is_service_error exc = true
      /\ match exc with
         | ClientError code _ =>
             code_in code not_found_codes = false
             /\ code_in code access_denied_codes = false
         | _ => True
         end).

(* ===================================================================== *)
(** * Part II: theorems                                                   *)
(* ===================================================================== *)

Example sha256_constants :
  List.length Sha256.K = 64%nat /\ List.length Sha256.H0 = 8%nat
  /\ List.nth 0 Sha256.K 0 = 0x428a2f98 /\ List.nth 63 Sha256.K 0 = 0xc67178f2
  /\ List.nth 0 Sha256.H0 0 = 0x6a09e667 /\ List.nth 7 Sha256.H0 0 = 0x5be0cd19.
Proof. repeat split; reflexivity. Qed.

Example sha256_empty :
  Sha256.hexdigest (utf8_encode EmptyString)
  = "e3b0c44298fc1c149afbf4c8996fb92427ae41e4649b934ca495991b7852b855".
Proof. vm_compute. reflexivity. Qed.

Example sha256_abc :
  Sha256.hexdigest (utf8_encode "abc")
  = "ba7816bf8f01cfea414140de5dae2223b00361a396177a9cb410ff61f20015ad".
Proof. vm_compute. reflexivity. Qed.

Example sha256_two_blocks :
  Sha256.hexdigest (utf8_encode
    "aaaaaaaaaaaaaaaaaaaaaaaaaaaaaaaaaaaaaaaaaaaaaaaaaaaaaaaaaaaaaaaaaaaaaa")
  = "6bd5e5034855a11241f0dee8fc72850ffd9955b28347a86428b5fa19119f6ad0".
Proof. vm_compute. reflexivity. Qed.

Example build_doc_id_v1 :
  build_doc_id "b" "k" (Some "v1") None
  = "da3c580e29b28ac042d329f0d3ba067dc2dcdeac47b5076451b51c28e7f565b9".
Proof. vm_compute. reflexivity. Qed.

Example sha256_two_byte_char :
  Sha256.hexdigest (utf8_encode (String (ascii_of_nat 233) EmptyString))
  = "4a99557e4033c3539de2eb65472017cad5f9557f7a0625a09f1c3f6e2ba69c4c".
Proof. vm_compute. reflexivity. Qed.

Example str_of_nat_samples :
  str_of_nat 0 = "0" /\ str_of_nat 3 = "3" /\ str_of_nat 12 = "12" /\ str_of_nat 105 = "105".
Proof. repeat split; reflexivity. Qed.

(** ** Identity derivation *)

Lemma doc_token_falsy_version (version_id etag : option str) :
  str_truthy version_id = false ->
  doc_token version_id etag = doc_token None etag.
Proof.
  intros Hv. unfold doc_token, py_or. rewrite Hv. reflexivity.
Qed.

(** C10: an empty-string [version_id] is treated like an absent one:
    [build_doc_id] at the empty string equals [build_doc_id] at [None] for
    every bucket, key and etag; whenever [version_id] is empty or
    [None] the token is the etag (when there is a non-empty one); and an
    empty-string etag gives the empty token, like an absent etag. *)
Theorem build_doc_id_empty_version_as_absent :
  forall (bucket key : str) (etag : option str),
    build_doc_id bucket key (Some EmptyString) etag = build_doc_id bucket key None etag
    /\ (forall c e, doc_token (Some EmptyString) (Some (String c e)) = String c e
                    /\ doc_token None (Some (String c e)) = String c e)
    /\ doc_token (Some EmptyString) (Some EmptyString) = EmptyString
    /\ doc_token None (Some EmptyString) = EmptyString
    /\ doc_token (Some EmptyString) None = EmptyString
    /\ doc_token None None = EmptyString
    /\ build_doc_id bucket key None (Some EmptyString) = build_doc_id bucket key None None
    /\ build_doc_id bucket key (Some EmptyString) (Some EmptyString)
       = build_doc_id bucket key None None.
Proof.
  intros bucket key etag. unfold build_doc_id.
  repeat split; reflexivity.
Qed.

(** ** Strings as lists of characters *)

Lemma chars_inj (a b : str) : chars a = chars b -> a = b.
Proof.
  unfold chars. intros H. rewrite <- (string_of_list_ascii_of_string a),
    <- (string_of_list_ascii_of_string b). now rewrite H.
Qed.

Lemma chars_app (a b : str) : chars (a +:+ b) = chars a ++ chars b.
Proof. unfold chars. induction a as [|c a IH]; simpl; [reflexivity | now rewrite IH]. Qed.

Lemma chars_length (s : str) : List.length (chars s) = String.length s.
Proof. unfold chars. induction s as [|c s IH]; simpl; [reflexivity | now rewrite IH]. Qed.

Lemma chars_substring (s : str) :
  forall n m, chars (String.substring n m s) = take m (drop n (chars s)).
Proof.
  unfold chars. induction s as [|c s IH]; intros [|n] [|m]; simpl; try reflexivity.
  - now rewrite IH.
  - rewrite IH. reflexivity.
  - rewrite IH. reflexivity.
Qed.

Lemma chars_joined (parts : list str) :
  chars (joined parts) = List.concat (List.map chars parts).
Proof.
  unfold joined. induction parts as [|p [|q parts] IH]; simpl in *.
  - reflexivity.
  - now rewrite app_nil_r.
  - rewrite !chars_app. simpl. rewrite IH. reflexivity.
Qed.

Lemma len_chars (s : str) : len s = Z.of_nat (List.length (chars s)).
Proof. unfold len. now rewrite chars_length. Qed.

Lemma len_nonneg (s : str) : 0 <= len s.
Proof. unfold len. lia. Qed.

(** A slice with non-negative bounds is a drop of a take. *)
Lemma chars_py_slice (s : str) (a b : Z) :
  0 <= a -> 0 <= b ->
  chars (py_slice s a b) = drop (Z.to_nat a) (take (Z.to_nat b) (chars s)).
Proof.
  intros Ha Hb. unfold py_slice, slice_bound.
  destruct (Z.ltb_spec a 0) as [?|_]; [lia|].
  destruct (Z.ltb_spec b 0) as [?|_]; [lia|].
  rewrite chars_substring, len_chars.
  set (l := chars s).
  rewrite take_drop_commute.
  apply list_eq. intros i.
  rewrite !lookup_drop.
  destruct (decide (i < Z.to_nat (Z.min b (Z.of_nat (List.length l))
                                  - Z.min a (Z.of_nat (List.length l))))%nat) as [Hi|Hi].
  - rewrite !lookup_take_lt by lia.
    replace (Z.to_nat (Z.min a (Z.of_nat (List.length l))) + i)%nat
      with (Z.to_nat a + i)%nat by lia.
    reflexivity.
  - rewrite lookup_take_ge by lia.
    symmetry. destruct (decide (Z.to_nat a + i < Z.to_nat b)%nat) as [Hlt|Hge].
    + rewrite lookup_take_lt by lia. apply lookup_ge_None. lia.
    + apply lookup_take_ge. lia.
Qed.

Lemma len_py_slice (s : str) (a b : Z) :
  0 <= a <= b -> b <= len s -> len (py_slice s a b) = b - a.
Proof.
  intros Hab Hb. rewrite len_chars, chars_py_slice by lia.
  rewrite length_drop, length_take. rewrite len_chars in Hb. lia.
Qed.

(** Slicing a slice. *)
Lemma py_slice_py_slice (s : str) (a b c d : Z) :
  0 <= a <= b -> b <= len s -> 0 <= c <= d -> d <= b - a ->
  py_slice (py_slice s a b) c d = py_slice s (a + c) (a + d).
Proof.
  intros Hab Hb Hcd Hd. apply chars_inj.
  rewrite !chars_py_slice by lia.
  rewrite len_chars in Hb.
  apply list_eq. intros i.
  rewrite !lookup_drop.
  destruct (decide (Z.to_nat c + i < Z.to_nat d)%nat) as [Hi|Hi].
  - rewrite !lookup_take_lt by lia. rewrite lookup_drop.
    rewrite lookup_take_lt by lia. f_equal. lia.
  - rewrite !lookup_take_ge by lia. reflexivity.
Qed.

(** Two slices that meet make one slice. *)
Lemma py_slice_app (s : str) (a b c : Z) :
  0 <= a <= b -> b <= c ->
  py_slice s a b +:+ py_slice s b c = py_slice s a c.
Proof.
  intros Hab Hbc. apply chars_inj.
  rewrite chars_app, !chars_py_slice by lia.
  set (l := chars s).
  assert (Hsplit : take (Z.to_nat c) l
                   = take (Z.to_nat b) l ++ drop (Z.to_nat b) (take (Z.to_nat c) l)).
  { rewrite <- (take_drop (Z.to_nat b) (take (Z.to_nat c) l)) at 1.
    rewrite take_take. f_equal. f_equal. lia. }
  destruct (decide (Z.to_nat a <= List.length (take (Z.to_nat b) l))%nat) as [Hle|Hgt].
  - rewrite Hsplit at 2. now rewrite drop_app_le.
  - rewrite length_take in Hgt.
    rewrite (drop_ge (take (Z.to_nat b) l)) by (rewrite length_take; lia).
    rewrite (drop_ge (take (Z.to_nat c) l) (Z.to_nat b)) by (rewrite length_take; lia).
    rewrite (drop_ge (take (Z.to_nat c) l) (Z.to_nat a)) by (rewrite length_take; lia).
    reflexivity.
Qed.

Lemma py_slice_all (s : str) : py_slice s 0 (len s) = s.
Proof.
  apply chars_inj. rewrite chars_py_slice by (pose proof (len_nonneg s); lia).
  rewrite len_chars, Nat2Z.id. simpl. rewrite drop_0. apply firstn_all.
Qed.

(** ** The chunker *)

Section Chunker.

Variables (text : str) (chunk_size overlap : Z).

Lemma chunk_loop_more_fuel (fuel : nat) :
  forall fuel' start acc chunks,
    chunk_loop fuel text chunk_size overlap start acc = Some chunks ->
    (fuel <= fuel')%nat ->
    chunk_loop fuel' text chunk_size overlap start acc = Some chunks.
Proof.
  induction fuel as [|fuel IH]; intros fuel' start acc chunks Hrun Hle.
  - discriminate.
  - destruct fuel' as [|fuel']; [lia|]. simpl in *.
    destruct (start <? len text); [|exact Hrun].
    destruct (Z.min (start + chunk_size) (len text) =? len text); [exact Hrun|].
    apply IH with (fuel' := fuel') in Hrun; [exact Hrun | lia].
Qed.

(** Termination: with [overlap < chunk_size] every turn moves [start]
    forward, so the loop condition is tested at most [len text + 1] times. *)
Lemma chunk_loop_terminates (fuel : nat) :
  forall start acc,
    overlap < chunk_size ->
    0 <= start ->
    Z.max 0 (len text - start) < Z.of_nat fuel ->
    exists chunks,
      chunk_loop fuel text chunk_size overlap start acc = Some chunks
      /\ Z.of_nat (List.length chunks)
         <= Z.of_nat (List.length acc) + Z.max 0 (len text - start).
Proof.
  induction fuel as [|fuel IH]; intros start acc Hlt Hstart Hfuel.
  - lia.
  - simpl. destruct (Z.ltb_spec start (len text)) as [Hin|Hout].
    + destruct (Z.eqb_spec (Z.min (start + chunk_size) (len text)) (len text)) as [Hend|Hend].
      * eexists. split; [reflexivity|]. rewrite length_app. simpl. lia.
      * destruct (IH (Z.min (start + chunk_size) (len text) - overlap)
                     (acc ++ [py_slice text start (Z.min (start + chunk_size) (len text))]))
          as (chunks & Hrun & Hlen); try lia.
        exists chunks. split; [exact Hrun|].
        rewrite length_app in Hlen. simpl in Hlen. lia.
    + eexists. split; [reflexivity|]. lia.
Qed.

Hypothesis overlap_ok : 0 <= overlap < chunk_size.

(** With [0 <= overlap < chunk_size] the loop started at the [k]-th window
    appends the windows [k], ..., [n - 1], where [n - 1] is the first window
    that reaches the end of the text. *)
Lemma chunk_loop_windows (fuel : nat) :
  forall (k : nat) acc,
    Z.of_nat k * (chunk_size - overlap) < len text ->
    len text - Z.of_nat k * (chunk_size - overlap) <= Z.of_nat fuel ->
    exists n : nat,
      (k < n)%nat
      /\ chunk_loop fuel text chunk_size overlap (Z.of_nat k * (chunk_size - overlap)) acc
         = Some (acc ++ List.map (window text chunk_size overlap) (List.seq k (n - k)))
      /\ len text <= Z.of_nat (n - 1) * (chunk_size - overlap) + chunk_size
      /\ (forall j : nat, (k <= j)%nat -> (S j < n)%nat ->
            Z.of_nat j * (chunk_size - overlap) + chunk_size < len text).
Proof.
  induction fuel as [|fuel IH]; intros k acc Hin Hfuel.
  - lia.
  - simpl. destruct (Z.ltb_spec (Z.of_nat k * (chunk_size - overlap)) (len text)) as [_|?]; [|lia].
    fold (window text chunk_size overlap k).
    destruct (Z.eqb_spec (Z.min (Z.of_nat k * (chunk_size - overlap) + chunk_size) (len text))
                         (len text)) as [Hend|Hend].
    + exists (S k). split; [lia|]. split.
      { replace (S k - k)%nat with 1%nat by lia. reflexivity. }
      split.
      { replace (S k - 1)%nat with k by lia. lia. }
      intros j Hj1 Hj2. lia.
    + assert (Hfull : Z.of_nat k * (chunk_size - overlap) + chunk_size < len text) by lia.
      replace (Z.min (Z.of_nat k * (chunk_size - overlap) + chunk_size) (len text) - overlap)
        with (Z.of_nat (S k) * (chunk_size - overlap)) by lia.
      destruct (IH (S k) (acc ++ [window text chunk_size overlap k]))
        as (n & Hn & Hrun & Hlast & Hmid); try lia.
      exists n. split; [lia|]. split.
      { rewrite Hrun. rewrite <- app_assoc. simpl.
        replace (n - k)%nat with (S (n - S k)) by lia. reflexivity. }
      split; [exact Hlast|].
      intros j Hj1 Hj2. destruct (decide (j = k)) as [->|Hne]; [exact Hfull|].
      apply Hmid; lia.
Qed.

Lemma chunk_text_nonempty (fuel : nat) :
  0 < len text ->
  chunk_text fuel text chunk_size overlap
  = chunk_loop fuel text chunk_size overlap 0 [].
Proof.
  unfold chunk_text, len. destruct text; simpl; [lia | reflexivity].
Qed.

(** The chunks of a non-empty text. *)
Lemma chunk_text_windows :
  0 < len text ->
  exists n : nat,
    (0 < n)%nat
    /\ (forall fuel, (String.length text < fuel)%nat ->
          chunk_text fuel text chunk_size overlap
          = Some (List.map (window text chunk_size overlap) (List.seq 0 n)))
    /\ len text <= Z.of_nat (n - 1) * (chunk_size - overlap) + chunk_size
    /\ (forall j : nat, (S j < n)%nat ->
          Z.of_nat j * (chunk_size - overlap) + chunk_size < len text).
Proof.
  intros Hpos.
  destruct (chunk_loop_windows (String.length text) 0 []) as (n & Hn & Hrun & Hlast & Hmid).
  { simpl. lia. }
  { unfold len. lia. }
  exists n. split; [lia|]. split.
  - intros fuel Hfuel. rewrite chunk_text_nonempty by exact Hpos.
    apply chunk_loop_more_fuel with (fuel := String.length text); [|lia].
    change (Z.of_nat 0 * (chunk_size - overlap)) with 0 in Hrun.
    rewrite Hrun, Nat.sub_0_r. reflexivity.
  - split; [exact Hlast|]. intros j Hj. apply Hmid; lia.
Qed.

End Chunker.

Lemma lookup_map_seq {A} (f : nat -> A) (k n i : nat) (x : A) :
  List.map f (List.seq k n) !! i = Some x <-> (i < n)%nat /\ x = f (k + i)%nat.
Proof.
  revert k i. induction n as [|n IH]; intros k i; simpl.
  - rewrite lookup_nil. split; [discriminate | lia].
  - destruct i as [|i]; simpl.
    + rewrite Nat.add_0_r. split.
      * intros [= <-]. split; [lia | reflexivity].
      * intros [_ ->]. reflexivity.
    + rewrite IH. replace (S k + i)%nat with (k + S i)%nat by lia.
      split; intros [? ?]; split; auto; lia.
Qed.

(** What follows from the shape of the chunk list: [n] windows, all but the
    last end before the end of the text, the last reaches it. *)
Section Windows.

Variables (text : str) (chunk_size overlap : Z) (n : nat).

Hypothesis overlap_ok : 0 <= overlap < chunk_size.
Hypothesis n_pos : (0 < n)%nat.
Hypothesis text_pos : 0 < len text.
Hypothesis last_reaches :
  len text <= Z.of_nat (n - 1) * (chunk_size - overlap) + chunk_size.
Hypothesis others_short :
  forall j : nat, (S j < n)%nat ->
    Z.of_nat j * (chunk_size - overlap) + chunk_size < len text.

Let stride := chunk_size - overlap.
Let start (i : nat) := Z.of_nat i * stride.
Let stop (i : nat) := Z.min (start i + chunk_size) (len text).
Let w := window text chunk_size overlap.

Lemma window_start_in (i : nat) : (i < n)%nat -> 0 <= start i < len text.
Proof.
  intros Hi. subst start stride. simpl. destruct i as [|i]; [lia|].
  pose proof (others_short i ltac:(lia)). nia.
Qed.

Lemma window_len (i : nat) : (i < n)%nat -> len (w i) = stop i - start i.
Proof.
  intros Hi. pose proof (window_start_in i Hi).
  subst w stop start stride. unfold window. simpl in *.
  apply len_py_slice; lia.
Qed.

Lemma window_full (i : nat) : (S i < n)%nat -> len (w i) = chunk_size.
Proof.
  intros Hi. rewrite window_len by lia.
  pose proof (others_short i Hi). subst stop start stride. simpl in *. lia.
Qed.

Lemma window_last_stop : stop (n - 1) = len text.
Proof.
  subst stop start stride. simpl. lia.
Qed.

(** The part of window [i] that window [i - 1] does not cover. *)
Let region (i : nat) : str :=
  py_slice text (match i with O => 0 | S j => stop j end) (stop i).

Lemma window_tail_region (i : nat) :
  (0 < i)%nat -> (i < n)%nat ->
  py_slice (w i) overlap (len (w i)) = region i.
Proof.
  intros Hi0 Hi. rewrite window_len by exact Hi.
  pose proof (window_start_in i Hi) as Hs.
  destruct i as [|j]; [lia|].
  pose proof (others_short j ltac:(lia)) as Hj.
  subst w region stop start stride. unfold window. simpl in *.
  rewrite py_slice_py_slice by lia.
  f_equal; lia.
Qed.

Lemma regions_join (m : nat) :
  (m < n)%nat ->
  List.concat (List.map chars (List.map region (List.seq 0 (S m))))
  = chars (py_slice text 0 (stop m)).
Proof.
  induction m as [|m IH]; intros Hm.
  - simpl. now rewrite app_nil_r.
  - rewrite seq_S, !map_app, concat_app, IH by lia.
    simpl. rewrite app_nil_r, <- chars_app. f_equal.
    pose proof (window_start_in m ltac:(lia)) as Hs.
    pose proof (window_start_in (S m) Hm) as Hs'.
    pose proof (others_short m ltac:(lia)) as Hj.
    subst stop start stride. simpl in *.
    apply py_slice_app; lia.
Qed.

Lemma non_overlapping_regions :
  non_overlapping overlap (List.map w (List.seq 0 n)) = List.map region (List.seq 0 n).
Proof.
  assert (Hseq : List.seq 0 n = 0%nat :: List.seq 1 (n - 1)).
  { replace n with (S (n - 1)) at 1 by lia. reflexivity. }
  rewrite Hseq. simpl. f_equal.
  rewrite map_map. apply map_ext_in. intros i Hi. apply in_seq in Hi.
  apply window_tail_region; lia.
Qed.

Lemma windows_reconstruct :
  joined (non_overlapping overlap (List.map w (List.seq 0 n))) = text.
Proof.
  apply chars_inj. rewrite chars_joined, non_overlapping_regions.
  replace n with (S (n - 1)) at 1 by lia.
  rewrite regions_join by lia.
  rewrite window_last_stop. now rewrite py_slice_all.
Qed.

Lemma windows_cover (p : Z) :
  0 <= p < len text ->
  exists i : nat, (i < n)%nat /\ start i <= p < start i + len (w i).
Proof.
  intros Hp.
  assert (Hstride : 0 < stride) by (subst stride; lia).
  pose proof (Z.div_mod p stride ltac:(lia)) as Hdm.
  pose proof (Z.mod_pos_bound p stride Hstride) as Hmod.
  assert (Hq : 0 <= p / stride) by (apply Z.div_pos; lia).
  destruct (Z.le_gt_cases (p / stride) (Z.of_nat (n - 1))) as [Hle|Hgt].
  - exists (Z.to_nat (p / stride)). split; [lia|].
    rewrite window_len by lia.
    subst stop start. simpl. rewrite Z2Nat.id by lia.
    subst stride. nia.
  - exists (n - 1)%nat. split; [lia|].
    rewrite window_len by lia.
    subst stop start. simpl. subst stride. nia.
Qed.

Lemma windows_adjacent (i : nat) :
  (S i < n)%nat ->
  len (w i) = chunk_size
  /\ overlap < len (w (S i))
  /\ start (S i) = start i + chunk_size - overlap
  /\ py_slice (w i) (len (w i) - overlap) (len (w i)) = py_slice (w (S i)) 0 overlap.
Proof.
  intros Hi.
  pose proof (window_full i Hi) as Hfull.
  pose proof (window_len (S i) Hi) as Hlen'.
  pose proof (window_start_in i ltac:(lia)) as Hs.
  pose proof (window_start_in (S i) Hi) as Hs'.
  pose proof (others_short i Hi) as Hshort.
  rewrite Hfull. rewrite Hlen'. clear Hfull Hlen'.
  subst w stop start stride. unfold window. cbv beta in *.
  rewrite Nat2Z.inj_succ in *.
  split; [reflexivity|]. split; [lia|]. split; [lia|].
  rewrite !py_slice_py_slice; try lia.
  f_equal; lia.
Qed.

End Windows.

Example chunk_text_small :
  chunk_text 11 "abcdefghij" 4 1 = Some ["abcd"; "defg"; "ghij"].
Proof. reflexivity. Qed.

Example chunk_text_short_text :
  chunk_text 4 "abc" 1200 200 = Some ["abc"].
Proof. reflexivity. Qed.

(** The loop does not end when the overlap is not below the chunk size:
    the start never moves. *)
Example chunk_text_stuck :
  forall fuel, chunk_text fuel "abcdefghij" 5 5 = None.
Proof.
  intros fuel. unfold chunk_text.
  generalize (@nil str). induction fuel as [|fuel IH]; intros acc; [reflexivity|].
  simpl. change (Z.min 5 (len "abcdefghij") - 5) with 0.
  change (0 <? len "abcdefghij") with true. cbv iota.
  change (Z.min 5 (len "abcdefghij") =? len "abcdefghij") with false. cbv iota.
  apply IH.
Qed.

(** C3: for every text and every [chunk_size] and [overlap] with
    [0 <= overlap < chunk_size], the chunks cover every position of the
    text: chunk [i] is the slice of the text that starts at
    [i * (chunk_size - overlap)], every position lies in some chunk, and the
    chunks with the first [overlap] characters of all but the first one
    removed concatenate to the text; and two adjacent chunks share exactly
    [overlap] characters: the first of the two has [chunk_size] characters,
    its last [overlap] characters are the first [overlap] characters of the
    second, and the second goes on beyond them. *)
Theorem chunk_text_covers_text :
  forall (text : str) (chunk_size overlap : Z),
    0 <= overlap < chunk_size ->
    exists chunks : list str,
      (forall fuel, (String.length text < fuel)%nat ->
         chunk_text fuel text chunk_size overlap = Some chunks)
      /\ (forall (i : nat) (c : str), chunks !! i = Some c ->
            let start := Z.of_nat i * (chunk_size - overlap) in
            c = py_slice text start (start + len c)
            /\ 0 < len c /\ start + len c <= len text)
      /\ (forall p : Z, 0 <= p < len text ->
            exists (i : nat) (c : str),
              chunks !! i = Some c
              /\ Z.of_nat i * (chunk_size - overlap) <= p
                 < Z.of_nat i * (chunk_size - overlap) + len c)
      /\ joined (non_overlapping overlap chunks) = text
      /\ (forall (i : nat) (c c' : str),
            chunks !! i = Some c -> chunks !! S i = Some c' ->
            len c = chunk_size
            /\ overlap < len c'
            /\ py_slice c (len c - overlap) (len c) = py_slice c' 0 overlap).
Proof.
  intros text chunk_size overlap Hov.
  destruct (Z.eq_dec (len text) 0) as [Hempty|Hne].
  - exists []. assert (text = EmptyString) as ->.
    { destruct text; [reflexivity | unfold len in Hempty; simpl in Hempty; lia]. }
    split; [reflexivity|]. split; [intros i c Hc; rewrite lookup_nil in Hc; discriminate|].
    split; [intros p Hp; unfold len in Hp; simpl in Hp; lia|].
    split; [reflexivity|]. intros i c c' Hc. rewrite lookup_nil in Hc. discriminate.
  - assert (Hpos : 0 < len text) by (pose proof (len_nonneg text); lia).
    destruct (chunk_text_windows text chunk_size overlap Hov Hpos)
      as (n & Hn & Hrun & Hlast & Hmid).
    exists (List.map (window text chunk_size overlap) (List.seq 0 n)).
    split; [exact Hrun|]. split.
    { intros i c Hc start. apply lookup_map_seq in Hc as [Hi ->]. simpl.
      pose proof (window_start_in text chunk_size overlap n Hov Hn Hpos Hlast Hmid i Hi) as Hs.
      pose proof (window_len text chunk_size overlap n Hov Hn Hpos Hlast Hmid i Hi) as Hl.
      cbv beta zeta in Hs, Hl. rewrite Hl. subst start.
      split; [|lia]. unfold window. f_equal. lia. }
    split.
    { intros p Hp.
      destruct (windows_cover text chunk_size overlap n Hov Hn Hpos Hlast Hmid p Hp)
        as (i & Hi & Hin).
      exists i, (window text chunk_size overlap i). split; [|exact Hin].
      apply lookup_map_seq. split; [exact Hi | reflexivity]. }
    split.
    { apply (windows_reconstruct text chunk_size overlap n Hov Hn Hpos Hlast Hmid). }
    intros i c c' Hc Hc'.
    apply lookup_map_seq in Hc as [Hi ->]. apply lookup_map_seq in Hc' as [Hi' ->].
    simpl.
    destruct (windows_adjacent text chunk_size overlap n Hov Hn Hpos Hlast Hmid i Hi')
      as (H1 & H2 & _ & H4).
    auto.
Qed.

Lemma chunk_text_covers_text_witness :
  0 <= 1 < 4
  /\ exists chunks : list str,
       chunk_text 11 "abcdefghij" 4 1 = Some chunks
       /\ joined (non_overlapping 1 chunks) = "abcdefghij".
Proof.
  split; [lia|].
  destruct (chunk_text_covers_text "abcdefghij" 4 1 ltac:(lia))
    as (chunks & Hrun & _ & _ & Hjoin & _).
  exists chunks. split; [apply Hrun; simpl; lia | exact Hjoin].
Defined.

Lemma chunk_text_total (text : str) (chunk_size overlap : Z) :
  overlap < chunk_size ->
  exists chunks : list str,
    (forall fuel, (String.length text < fuel)%nat ->
       chunk_text fuel text chunk_size overlap = Some chunks)
    /\ (List.length chunks <= String.length text)%nat.
Proof.
  intros Hov.
  destruct (Z.eq_dec (len text) 0) as [Hempty|Hne].
  - exists []. assert (text = EmptyString) as ->.
    { destruct text; [reflexivity | unfold len in Hempty; simpl in Hempty; lia]. }
    split; [reflexivity | simpl; lia].
  - assert (Hpos : 0 < len text) by (pose proof (len_nonneg text); lia).
    destruct (chunk_loop_terminates text chunk_size overlap (S (String.length text)) 0 [])
      as (chunks & Hrun & Hlen); try lia.
    { unfold len. lia. }
    exists chunks. split.
    + intros fuel Hfuel. rewrite chunk_text_nonempty by exact Hpos.
      apply chunk_loop_more_fuel with (fuel := S (String.length text)); [exact Hrun | lia].
    + unfold len in Hlen. simpl in Hlen. lia.
Qed.

(** C8: for every text and all parameters with [overlap < chunk_size] and
    [0 < chunk_size], [chunk_text] ends: the loop condition is tested at most
    [len(text) + 1] times, and the result is a list of at most [len(text)]
    chunks; the empty text gives the empty list without entering the loop. *)
Theorem chunk_text_terminates :
  forall (text : str) (chunk_size overlap : Z),
    overlap < chunk_size -> 0 < chunk_size ->
    (exists chunks : list str,
       (forall fuel, (String.length text < fuel)%nat ->
          chunk_text fuel text chunk_size overlap = Some chunks)
       /\ (List.length chunks <= String.length text)%nat)
    /\ (forall fuel, chunk_text fuel EmptyString chunk_size overlap = Some []).
Proof.
  intros text chunk_size overlap Hov _. split; [|reflexivity].
  apply chunk_text_total. exact Hov.
Qed.

Lemma chunk_text_terminates_witness :
  -3 < 4 /\ 0 < 4
  /\ exists chunks : list str, chunk_text 11 "abcdefghij" 4 (-3) = Some chunks.
Proof.
  split; [lia|]. split; [lia|].
  destruct (chunk_text_terminates "abcdefghij" 4 (-3) ltac:(lia) ltac:(lia))
    as [(chunks & Hrun & _) _].
  exists chunks. apply Hrun. simpl. lia.
Defined.

Example chunk_text_negative_overlap :
  chunk_text 11 "abcdefghij" 4 (-3) = Some ["abcd"; "hij"].
Proof. reflexivity. Qed.

(** ** The vector store gateway *)

Lemma code_in_In (c : str) (codes : list str) :
  code_in (Some c) codes = true <-> In c codes.
Proof.
  unfold code_in. rewrite existsb_exists. split.
  - intros (x & Hx & Heq). apply String.eqb_eq in Heq. now subst.
  - intros Hin. exists c. split; [exact Hin | apply String.eqb_refl].
Qed.

Lemma code_in_not_In (code : option str) (codes : list str) :
  (forall c, code = Some c -> ~ In c codes) -> code_in code codes = false.
Proof.
  intros Hnot. destruct code as [c|]; [|reflexivity].
  destruct (code_in (Some c) codes) eqn:E; [|reflexivity].
  apply code_in_In in E. now apply Hnot in E.
Qed.

Lemma vector_exists_found (env : Env) (cfg : Config) (key : str) (w : World) :
  head_object env w (PROCESSED_BUCKET cfg) key = None ->
  vector_exists env cfg key w
  = (Ok true, advance w [HeadObject (PROCESSED_BUCKET cfg) key] 0).
Proof.
  intros Hhead.
  unfold vector_exists, catch, bind, s3_head_object, advance, ret.
  now rewrite Hhead, Nat.add_0_r.
Qed.

(** C5: [vector_exists] makes one head request on the key; it returns true
    when the request succeeds, false when the request fails with one of the
    codes 404, NoSuchKey, NotFound (not found) or 403, AccessDenied,
    Forbidden (access denied), and raises the error of the request again for
    every other error code (and for an error with no code). *)
Theorem vector_exists_outcomes :
  forall (env : Env) (cfg : Config) (key : str) (w : World),
    let w' := advance w [HeadObject (PROCESSED_BUCKET cfg) key] 0 in
    (head_object env w (PROCESSED_BUCKET cfg) key = None ->
       vector_exists env cfg key w = (Ok true, w'))
    /\ (forall code msg,
          head_object env w (PROCESSED_BUCKET cfg) key = Some (ClientError (Some code) msg) ->
          In code ["404"; "NoSuchKey"; "NotFound"]
          \/ In code ["403"; "AccessDenied"; "Forbidden"] ->
          vector_exists env cfg key w = (Ok false, w'))
    /\ (forall code msg,
          head_object env w (PROCESSED_BUCKET cfg) key = Some (ClientError code msg) ->
          (forall c, code = Some c ->
             ~ In c ["404"; "NoSuchKey"; "NotFound"; "403"; "AccessDenied"; "Forbidden"]) ->
          vector_exists env cfg key w = (Raise (ClientError code msg), w')).
Proof.
  intros env cfg key w w'. subst w'.
  unfold vector_exists, catch, bind, s3_head_object, advance, ret, raise.
  rewrite Nat.add_0_r.
  repeat split.
  - intros ->. reflexivity.
  - intros code msg -> Hcode.
    destruct (code_in (Some code) not_found_codes) eqn:Enf; [reflexivity|].
    destruct Hcode as [Hnf|Had].
    + apply code_in_In in Hnf. unfold not_found_codes in Enf. congruence.
    + apply code_in_In in Had. unfold access_denied_codes. now rewrite Had.
  - intros code msg -> Hother.
    rewrite !code_in_not_In; [reflexivity| |].
    + intros c Hc Hin. apply (Hother c Hc). simpl in *. tauto.
    + intros c Hc Hin. apply (Hother c Hc). simpl in *. tauto.
Qed.

Lemma vector_exists_outcomes_witness :
  vector_exists (demo_env (throttle_first 0 demo_answer) "text") demo_config "k" empty_world
  = (Ok false, advance empty_world [HeadObject (PROCESSED_BUCKET demo_config) "k"] 0)
  /\ vector_exists (head_failing_env (Some "AccessDenied")) demo_config "k" empty_world
     = (Ok false, advance empty_world [HeadObject (PROCESSED_BUCKET demo_config) "k"] 0)
  /\ vector_exists (head_failing_env (Some "500")) demo_config "k" empty_world
     = (Raise (ClientError (Some "500") "head failed"),
        advance empty_world [HeadObject (PROCESSED_BUCKET demo_config) "k"] 0)
  /\ vector_exists (demo_env (throttle_first 0 demo_answer) "text") demo_config "k" stocked_world
     = (Ok true, advance stocked_world [HeadObject (PROCESSED_BUCKET demo_config) "k"] 0).
Proof.
  split; [|split; [|split]].
  - apply (proj1 (proj2 (vector_exists_outcomes (demo_env (throttle_first 0 demo_answer) "text")
                           demo_config "k" empty_world)) "404" "Not Found").
    + reflexivity.
    + left. simpl. auto.
  - apply (proj1 (proj2 (vector_exists_outcomes (head_failing_env (Some "AccessDenied"))
                           demo_config "k" empty_world)) "AccessDenied" "head failed").
    + reflexivity.
    + right. simpl. auto.
  - apply (proj2 (proj2 (vector_exists_outcomes (head_failing_env (Some "500"))
                           demo_config "k" empty_world)) (Some "500") "head failed").
    + reflexivity.
    + intros c [= <-]. simpl. intros H.
      repeat (destruct H as [H|H]; [discriminate H|]). exact H.
  - apply (proj1 (vector_exists_outcomes (demo_env (throttle_first 0 demo_answer) "text") demo_config "k"
                    stocked_world)).
    reflexivity.
Defined.

(** ** The embedding client *)

Lemma advance_advance (w : World) (e1 e2 : list event) (d1 d2 : nat) :
  advance (advance w e1 d1) e2 d2 = advance w (e1 ++ e2) (d1 + d2).
Proof.
  unfold advance. simpl. f_equal; [apply eq_sym, app_assoc | lia].
Qed.

Lemma invoke_count_app (tr1 tr2 : list event) :
  invoke_count (tr1 ++ tr2) = (invoke_count tr1 + invoke_count tr2)%nat.
Proof. unfold invoke_count. now rewrite List.filter_app, length_app. Qed.

Lemma sleeps_app (tr1 tr2 : list event) :
  sleeps (tr1 ++ tr2) = sleeps tr1 ++ sleeps tr2.
Proof. unfold sleeps. apply omap_app. Qed.

Section EmbedLoop.

Variables (env : Env) (cfg : Config) (payload : json).

Let model := BEDROCK_EMBEDDING_MODEL cfg.

(** A throttled attempt that is not the last one sleeps and goes on. *)
Lemma embed_loop_throttled (attempt : nat) (rest : list nat) (w : World) (msg : str) :
  invoke_model env w model payload = inl (ClientError (Some "ThrottlingException") msg) ->
  (attempt < max_retries - 1)%nat ->
  embed_loop env cfg payload (attempt :: rest) w
  = embed_loop env cfg payload rest
      (advance w [InvokeModel model payload; Sleep (drawn_delay env attempt (draws w))] 1).
Proof.
  intros Hcall Hlt. subst model.
  cbn [embed_loop]. unfold catch at 1, embed_attempt, bind at 1, bedrock_invoke_model.
  rewrite Hcall.
  apply Nat.ltb_lt in Hlt. cbn [is_throttling]. rewrite String.eqb_refl, Hlt.
  cbn [andb]. unfold bind, random_uniform, time_sleep, log. cbn [trace processed draws].
  f_equal. unfold advance. f_equal.
  - rewrite <- app_assoc. reflexivity.
  - lia.
Qed.

(** Any other [ClientError], and a throttled last attempt, is a failure. *)
Lemma embed_loop_client_error (attempt : nat) (rest : list nat) (w : World)
      (code : option str) (msg : str) :
  invoke_model env w model payload = inl (ClientError code msg) ->
  is_throttling code && (attempt <? max_retries - 1)%nat = false ->
  embed_loop env cfg payload (attempt :: rest) w
  = (Raise (embed_failure cfg (ClientError code msg)),
     advance w [InvokeModel model payload] 0).
Proof.
  intros Hcall Hno. subst model.
  cbn [embed_loop]. unfold catch at 1, embed_attempt, bind at 1, bedrock_invoke_model.
  rewrite Hcall, Hno. unfold raise, advance. now rewrite Nat.add_0_r.
Qed.

(** A response with a vector ends the loop after the pacing sleep. *)
Lemma embed_loop_success (attempt : nat) (rest : list nat) (w : World) (body v : json) :
  invoke_model env w model payload = inr body ->
  extract_embedding body = Ok v ->
  truthy v = true ->
  embed_loop env cfg payload (attempt :: rest) w
  = (Ok v, advance w [InvokeModel model payload; Sleep (drawn_pace env (draws w))] 1).
Proof.
  intros Hcall Hvec Htrue. subst model.
  cbn [embed_loop]. unfold catch at 1, embed_attempt, bind, bedrock_invoke_model, lift.
  rewrite Hcall, Hvec, Htrue. cbn [negb].
  unfold random_uniform, time_sleep, log, ret. cbn [trace processed draws].
  f_equal. unfold advance. f_equal.
  - rewrite <- app_assoc. reflexivity.
  - lia.
Qed.

(** A response without a vector ends the loop with an error at once. *)
Lemma embed_loop_missing_vector (attempt : nat) (rest : list nat) (w : World)
      (body v : json) :
  invoke_model env w model payload = inr body ->
  extract_embedding body = Ok v ->
  truthy v = false ->
  embed_loop env cfg payload (attempt :: rest) w
  = (Raise (RuntimeError "Embedding response missing vector" None),
     advance w [InvokeModel model payload] 0).
Proof.
  intros Hcall Hvec Hfalse. subst model.
  cbn [embed_loop]. unfold catch at 1, embed_attempt, bind, bedrock_invoke_model, lift.
  rewrite Hcall, Hvec, Hfalse. cbn [negb].
  unfold raise, advance. now rewrite Nat.add_0_r.
Qed.

End EmbedLoop.

Lemma extract_embedding_falsy (fields : list (str * json)) :
  (forall v, assoc "embedding" fields = Some v -> truthy v = false) ->
  (forall v, assoc "vector" fields = Some v -> truthy v = false) ->
  exists v, extract_embedding (JObj fields) = Ok v /\ truthy v = false.
Proof.
  intros Hemb Hvec. unfold extract_embedding, dict_get.
  destruct (assoc "embedding" fields) as [e|] eqn:Ee.
  - rewrite (Hemb e eq_refl).
    destruct (assoc "vector" fields) as [v|] eqn:Ev; eexists; split; eauto.
  - cbn [truthy].
    destruct (assoc "vector" fields) as [v|] eqn:Ev; eexists; split; eauto.
Qed.

(** C6: when the embedding service answers (no transport error) with an
    object that has no vector under [embedding] and none under [vector], or
    only empty ones, [embed_text] raises the missing-vector error at once:
    the only new call is that one request, no sleep and no retry follow, and
    this holds at whatever attempt of the loop the answer arrives. *)
Theorem embed_text_missing_vector_not_retried :
  forall (env : Env) (cfg : Config) (text : str) (w : World) (fields : list (str * json)),
    let payload := JObj [("inputText", JStr text)] in
    let model := BEDROCK_EMBEDDING_MODEL cfg in
    invoke_model env w model payload = inr (JObj fields) ->
    (forall v, assoc "embedding" fields = Some v -> truthy v = false) ->
    (forall v, assoc "vector" fields = Some v -> truthy v = false) ->
    embed_text env cfg text w
    = (Raise (RuntimeError "Embedding response missing vector" None),
       advance w [InvokeModel model payload] 0)
    /\ (forall (attempt : nat) (rest : list nat),
          embed_loop env cfg payload (attempt :: rest) w
          = (Raise (RuntimeError "Embedding response missing vector" None),
             advance w [InvokeModel model payload] 0)).
Proof.
  intros env cfg text w fields payload model Hcall Hemb Hvec.
  destruct (extract_embedding_falsy fields Hemb Hvec) as (v & Hv & Hfalse).
  assert (Hany : forall attempt rest,
             embed_loop env cfg payload (attempt :: rest) w
             = (Raise (RuntimeError "Embedding response missing vector" None),
                advance w [InvokeModel model payload] 0)).
  { intros attempt rest.
    apply (embed_loop_missing_vector env cfg payload attempt rest w (JObj fields) v);
      assumption. }
  split; [|exact Hany].
  unfold embed_text. fold payload. apply Hany.
Qed.

Lemma embed_text_missing_vector_not_retried_witness :
  embed_text (demo_env (throttle_first 0 (JObj [("embedding", JArr [])])) "text")
             demo_config "chunk" empty_world
  = (Raise (RuntimeError "Embedding response missing vector" None),
     advance empty_world
       [InvokeModel (BEDROCK_EMBEDDING_MODEL demo_config) (JObj [("inputText", JStr "chunk")])] 0).
Proof.
  apply (embed_text_missing_vector_not_retried
           (demo_env (throttle_first 0 (JObj [("embedding", JArr [])])) "text")
           demo_config "chunk" empty_world [("embedding", JArr [])]).
  - reflexivity.
  - intros v [= <-]. reflexivity.
  - intros v H. discriminate H.
Defined.

Lemma py_min_Qmin (a b : Q) : (py_min a b == Qmin a b)%Q.
Proof.
  unfold py_min. destruct (Qle_bool a b) eqn:E.
  - apply Qle_bool_iff in E. symmetry. now apply Q.min_l.
  - assert (Hlt : (b < a)%Q).
    { apply Qnot_le_lt. intros Hle. apply Qle_bool_iff in Hle. congruence. }
    symmetry. apply Q.min_r. now apply Qlt_le_weak.
Qed.

Lemma drawn_delay_backoff (env : Env) (attempt k : nat) :
  (drawn_delay env attempt k == backoff_delay attempt (drawn_jitter env k))%Q.
Proof.
  unfold drawn_delay, backoff_delay, base_delay.
  rewrite py_min_Qmin. rewrite Zpower_Qpower by lia. reflexivity.
Qed.

Lemma drawn_jitter_range (env : Env) (k : nat) :
  (0 <= random env k < 1)%Q ->
  ((3 # 4) <= drawn_jitter env k <= (5 # 4))%Q.
Proof. unfold drawn_jitter. intros [H0 H1]. split; lra. Qed.

Lemma drawn_pace_range (env : Env) (k : nat) :
  (0 <= random env k < 1)%Q ->
  ((1 # 20) <= drawn_pace env k <= (3 # 20))%Q.
Proof. unfold drawn_pace. intros [H0 H1]. split; lra. Qed.

(** A service that throttles every remaining attempt exhausts the loop. *)
Lemma embed_loop_exhausted (env : Env) (cfg : Config) (payload : json) (m : nat) :
  forall (a : nat) (w : World),
    (a + S m = max_retries)%nat ->
    (forall k, (invoke_count (trace w) <= k)%nat -> call_number env cfg k is_throttled) ->
    exists (w' : World) (cause : exception) (backoffs : list Q),
      embed_loop env cfg payload (List.seq a (S m)) w = (Raise (embed_failure cfg cause), w')
      /\ (exists msg, cause = ClientError (Some "ThrottlingException") msg)
      /\ invoke_count (trace w') = (invoke_count (trace w) + S m)%nat
      /\ sleeps (trace w') = sleeps (trace w) ++ backoffs
      /\ List.length backoffs = m
      /\ (forall (i : nat) (d : Q), backoffs !! i = Some d ->
            exists k, d = drawn_delay env (a + i) k).
Proof.
  induction m as [|m IH]; intros a w Ha Hall.
  - pose proof (Hall _ (le_n _)) as Hnow. unfold call_number in Hnow.
    destruct (Hnow w payload eq_refl) as (msg & Hcall). clear Hnow.
    exists (advance w [InvokeModel (BEDROCK_EMBEDDING_MODEL cfg) payload] 0),
      (ClientError (Some "ThrottlingException") msg), [].
    split.
    { cbn [List.seq]. apply embed_loop_client_error; [exact Hcall|].
      cbn [is_throttling]. rewrite String.eqb_refl. cbn [andb].
      apply Nat.ltb_ge. unfold max_retries in *. lia. }
    split; [eauto|]. cbn [advance trace].
    rewrite invoke_count_app, sleeps_app. cbn.
    split; [lia|]. split; [reflexivity|]. split; [reflexivity|].
    intros i d Hd. rewrite lookup_nil in Hd. discriminate.
  - pose proof (Hall _ (le_n _)) as Hnow. unfold call_number in Hnow.
    destruct (Hnow w payload eq_refl) as (msg & Hcall). clear Hnow.
    cbn [List.seq].
    rewrite (embed_loop_throttled env cfg payload a _ w msg Hcall)
      by (unfold max_retries in *; lia).
    set (w1 := advance w [InvokeModel (BEDROCK_EMBEDDING_MODEL cfg) payload;
                          Sleep (drawn_delay env a (draws w))] 1).
    assert (Hcount : invoke_count (trace w1) = S (invoke_count (trace w))).
    { subst w1. cbn [advance trace]. rewrite invoke_count_app. cbn. lia. }
    destruct (IH (S a) w1) as (w' & cause & backoffs & Hrun & Hcause & Hinv & Hsl & Hlen & Hd).
    { lia. }
    { intros k Hk. apply Hall. lia. }
    exists w', cause, (drawn_delay env a (draws w) :: backoffs).
    split; [exact Hrun|]. split; [exact Hcause|]. split; [lia|]. split.
    { rewrite Hsl. subst w1. cbn [advance trace]. rewrite sleeps_app, <- app_assoc.
      reflexivity. }
    split; [simpl; lia|].
    intros [|i] d Hlook.
    + simpl in Hlook. injection Hlook as <-. exists (draws w). now rewrite Nat.add_0_r.
    + simpl in Hlook. destruct (Hd i d Hlook) as (k & ->). exists k. f_equal. lia.
Qed.

(** C1: when the embedding service throttles the first 2 calls of a run of
    [embed_text] and answers the third with a response that holds a vector,
    [embed_text] returns that vector after exactly 3 calls; when the service
    throttles every call, [embed_text] makes exactly 8 calls and then fails
    with the error that names the model and carries the throttling error as
    its cause; and the sleep before each retry, for the zero-based attempt
    number, is the smaller of 8 and 0.5 times 2 to the attempt, times a
    jitter factor between 0.75 and 1.25 (the random generator gives numbers
    in the unit interval). *)
Theorem embed_text_retry_backoff :
  forall (env : Env) (cfg : Config) (text : str) (w : World),
    (forall k, 0 <= random env k < 1)%Q ->
    let n0 := invoke_count (trace w) in
    let well_spaced (backoffs : list Q) :=
      forall (attempt : nat) (d : Q), backoffs !! attempt = Some d ->
        exists jitter : Q,
          ((3 # 4) <= jitter <= (5 # 4))%Q /\ (d == backoff_delay attempt jitter)%Q in
    (forall (body v : json),
        call_number env cfg n0 is_throttled ->
        call_number env cfg (n0 + 1) is_throttled ->
        call_number env cfg (n0 + 2) (fun answer => answer = inr body) ->
        extract_embedding body = Ok v -> truthy v = true ->
        exists (w' : World) (backoffs : list Q) (pace : Q),
          embed_text env cfg text w = (Ok v, w')
          /\ invoke_count (trace w') = (n0 + 3)%nat
          /\ sleeps (trace w') = sleeps (trace w) ++ backoffs ++ [pace]
          /\ List.length backoffs = 2%nat
          /\ well_spaced backoffs)
    /\ ((forall k, (n0 <= k)%nat -> call_number env cfg k is_throttled) ->
        exists (w' : World) (cause : exception) (backoffs : list Q),
          embed_text env cfg text w
          = (Raise (RuntimeError ("Failed to embed text with model "
                                  +:+ BEDROCK_EMBEDDING_MODEL cfg +:+ ": " +:+ exc_str cause)
                                 (Some cause)), w')
          /\ (exists msg, cause = ClientError (Some "ThrottlingException") msg)
          /\ invoke_count (trace w') = (n0 + 8)%nat
          /\ sleeps (trace w') = sleeps (trace w) ++ backoffs
          /\ List.length backoffs = 7%nat
          /\ well_spaced backoffs).
Proof.
  intros env cfg text w Hrand n0 well_spaced.
  set (payload := JObj [("inputText", JStr text)]).
  set (model := BEDROCK_EMBEDDING_MODEL cfg).
  split.
  - intros body v H0 H1 H2 Hvec Htrue.
    destruct (H0 w payload eq_refl) as (msg0 & Hcall0).
    set (w1 := advance w [InvokeModel model payload; Sleep (drawn_delay env 0 (draws w))] 1).
    assert (Hc1 : invoke_count (trace w1) = (n0 + 1)%nat).
    { subst w1 n0. cbn [advance trace]. rewrite invoke_count_app. reflexivity. }
    destruct (H1 w1 payload Hc1) as (msg1 & Hcall1).
    set (w2 := advance w1 [InvokeModel model payload; Sleep (drawn_delay env 1 (draws w1))] 1).
    assert (Hc2 : invoke_count (trace w2) = (n0 + 2)%nat).
    { subst w2. cbn [advance trace]. rewrite invoke_count_app, Hc1. cbn. lia. }
    pose proof (H2 w2 payload Hc2) as Hcall2. cbv beta in Hcall2.
    set (w3 := advance w2 [InvokeModel model payload; Sleep (drawn_pace env (draws w2))] 1).
    exists w3, [drawn_delay env 0 (draws w); drawn_delay env 1 (draws w1)],
      (drawn_pace env (draws w2)).
    split.
    { unfold embed_text. fold payload. cbn [List.seq max_retries].
      rewrite (embed_loop_throttled env cfg payload 0 _ w msg0 Hcall0)
        by (unfold max_retries; lia).
      fold model. fold w1.
      rewrite (embed_loop_throttled env cfg payload 1 _ w1 msg1 Hcall1)
        by (unfold max_retries; lia).
      fold model. fold w2.
      apply (embed_loop_success env cfg payload 2 _ w2 body v Hcall2 Hvec Htrue). }
    split.
    { subst w3. cbn [advance trace]. rewrite invoke_count_app, Hc2. cbn. lia. }
    split.
    { subst w3 w2 w1. cbn [advance trace]. rewrite !sleeps_app. cbn.
      rewrite <- !app_assoc. reflexivity. }
    split; [reflexivity|].
    intros attempt d Hd.
    destruct attempt as [|[|attempt]]; simpl in Hd; try discriminate;
      injection Hd as <-; eexists; (split; [apply drawn_jitter_range, Hrand|]);
      apply drawn_delay_backoff.
  - intros Hall.
    destruct (embed_loop_exhausted env cfg payload 7 0 w eq_refl Hall)
      as (w' & cause & backoffs & Hrun & Hcause & Hinv & Hsl & Hlen & Hd).
    exists w', cause, backoffs.
    split; [exact Hrun|]. split; [exact Hcause|]. split; [exact Hinv|].
    split; [exact Hsl|]. split; [exact Hlen|].
    intros attempt d Hlook. destruct (Hd attempt d Hlook) as (k & ->).
    exists (drawn_jitter env k). split; [apply drawn_jitter_range, Hrand|].
    apply drawn_delay_backoff.
Qed.

Lemma embed_text_retry_backoff_witness :
  (exists w', embed_text (demo_env (throttle_first 2 demo_answer) "text") demo_config
                         "chunk" empty_world = (Ok demo_vector, w')
              /\ invoke_count (trace w') = 3%nat)
  /\ (exists w' cause, embed_text (demo_env always_throttle "text") demo_config
                                  "chunk" empty_world
                       = (Raise (RuntimeError
                            ("Failed to embed text with model "
                             +:+ BEDROCK_EMBEDDING_MODEL demo_config +:+ ": "
                             +:+ exc_str cause) (Some cause)), w')
                       /\ invoke_count (trace w') = 8%nat).
Proof.
  split.
  - destruct (proj1 (embed_text_retry_backoff
                       (demo_env (throttle_first 2 demo_answer) "text") demo_config
                       "chunk" empty_world
                       (fun k => conj (Qle_bool_imp_le 0 (1 # 2) eq_refl) eq_refl))
                    demo_answer demo_vector)
      as (w' & backoffs & pace & Hrun & Hcount & _).
    + intros w body Hw. cbn. rewrite Hw. eexists. reflexivity.
    + intros w body Hw. cbn. rewrite Hw. eexists. reflexivity.
    + intros w body Hw. cbn. rewrite Hw. reflexivity.
    + reflexivity.
    + reflexivity.
    + exists w'. split; [exact Hrun | exact Hcount].
  - destruct (proj2 (embed_text_retry_backoff
                       (demo_env always_throttle "text") demo_config
                       "chunk" empty_world
                       (fun k => conj (Qle_bool_imp_le 0 (1 # 2) eq_refl) eq_refl)))
      as (w' & cause & backoffs & Hrun & _ & Hcount & _).
    + intros k _ w body Hw. eexists. reflexivity.
    + exists w', cause. split; [exact Hrun | exact Hcount].
Defined.

Example embed_text_two_throttles :
  let r := embed_text (demo_env (throttle_first 2 demo_answer) "text") demo_config
                      "chunk" empty_world in
  fst r = Ok demo_vector
  /\ invoke_count (trace (snd r)) = 3%nat
  /\ List.map Qred (sleeps (trace (snd r))) = [(1 # 2)%Q; 1%Q; (1 # 10)%Q].
Proof. vm_compute. repeat split. Qed.

Example embed_text_always_throttled :
  let r := embed_text (demo_env always_throttle "text") demo_config "chunk" empty_world in
  fst r = Raise (embed_failure demo_config throttling)
  /\ invoke_count (trace (snd r)) = 8%nat
  /\ List.map Qred (sleeps (trace (snd r)))
     = [(1 # 2)%Q; 1%Q; 2%Q; 4%Q; 8%Q; 8%Q; 8%Q].
Proof. vm_compute. repeat split. Qed.

(** ** The orchestrator: what one run adds to the world *)

Lemma advance_nil (w : World) : advance w [] 0 = w.
Proof. destruct w as [tr pr dr]. unfold advance. simpl. now rewrite app_nil_r, Nat.add_0_r. Qed.

Lemma manifest_puts_app (tr1 tr2 : list event) :
  manifest_puts (tr1 ++ tr2) = manifest_puts tr1 ++ manifest_puts tr2.
Proof. apply omap_app. Qed.

Lemma head_keys_app (tr1 tr2 : list event) :
  head_keys (tr1 ++ tr2) = head_keys tr1 ++ head_keys tr2.
Proof. apply omap_app. Qed.

Lemma put_keys_app (tr1 tr2 : list event) :
  put_keys (tr1 ++ tr2) = put_keys tr1 ++ put_keys tr2.
Proof. apply omap_app. Qed.

Lemma embed_events_quiet (evs : list event) :
  Forall (fun e => is_embed_event e = true) evs ->
  manifest_puts evs = [] /\ head_keys evs = [] /\ put_keys evs = [].
Proof.
  induction 1 as [|e evs He _ (IH1 & IH2 & IH3)]; [auto|].
  destruct e; try discriminate; simpl; auto.
Qed.

Lemma vector_key_not_manifest_key (cfg : Config) (chunk doc : str) :
  manifest_key doc <> vector_object_key cfg chunk.
Proof. unfold manifest_key, vector_object_key. simpl. discriminate. Qed.

Lemma chunk_footprint_refl (cfg : Config) (w : World) : chunk_footprint cfg w w.
Proof.
  exists [], 0%nat. rewrite app_nil_r, Nat.add_0_r. repeat split; auto.
Qed.

Lemma chunk_footprint_trans (cfg : Config) (w1 w2 w3 : World) :
  chunk_footprint cfg w1 w2 -> chunk_footprint cfg w2 w3 -> chunk_footprint cfg w1 w3.
Proof.
  intros (e1 & d1 & Ht1 & Hd1 & Hm1 & Hp1 & Hk1) (e2 & d2 & Ht2 & Hd2 & Hm2 & Hp2 & Hk2).
  exists (e1 ++ e2), (d1 + d2)%nat.
  rewrite Ht2, Ht1, Hd2, Hd1, manifest_puts_app, Hm1, Hm2, <- app_assoc.
  repeat split; auto; try lia.
  intros k Hk. rewrite Hp2, Hp1; auto.
Qed.

Lemma chunk_footprint_advance (cfg : Config) (w : World) (evs : list event) (d : nat) :
  manifest_puts evs = [] -> put_keys evs = [] -> chunk_footprint cfg w (advance w evs d).
Proof.
  intros Hm _. exists evs, d. unfold advance. simpl. repeat split; auto.
Qed.

(** Only a body that is not a dict makes the extraction raise. *)
Lemma extract_embedding_raises (body : json) (exc : exception) :
  extract_embedding body = Raise exc -> exists msg, exc = AttributeError msg.
Proof.
  unfold extract_embedding, dict_get. destruct body; try (intros [= <-]; eauto).
  destruct (truthy _); discriminate.
Qed.

Section Orchestrator.

Variables (env : Env) (cfg : Config).

(** [vector_exists]: one head request, the answer decides. *)
Lemma vector_exists_run (key : str) (w : World) :
  snd (vector_exists env cfg key w) = advance w [HeadObject (PROCESSED_BUCKET cfg) key] 0
  /\ (fst (vector_exists env cfg key w) = Ok true
      <-> head_object env w (PROCESSED_BUCKET cfg) key = None).
Proof.
  unfold vector_exists, catch, bind, s3_head_object, advance, ret, raise.
  rewrite Nat.add_0_r.
  destruct (head_object env w (PROCESSED_BUCKET cfg) key) as [exc|]; simpl.
  - split.
    + destruct exc; try reflexivity.
      destruct (code_in code not_found_codes); [reflexivity|].
      destruct (code_in code access_denied_codes); reflexivity.
    + split; [|discriminate]. destruct exc; try discriminate.
      destruct (code_in code not_found_codes); [discriminate|].
      destruct (code_in code access_denied_codes); discriminate.
  - split; [reflexivity|]. split; reflexivity.
Qed.

(** [embed_loop]: only requests to the model and sleeps, and a result comes
    from at least one request. *)
Lemma embed_loop_run (payload : json) (attempts : list nat) :
  forall (w : World),
    exists (evs : list event) (d : nat),
      snd (embed_loop env cfg payload attempts w) = advance w evs d
      /\ Forall (fun e => is_embed_event e = true) evs
      /\ (attempts <> [] -> (1 <= invoke_count evs)%nat).
Proof.
  induction attempts as [|attempt rest IH]; intros w.
  - exists [], 0%nat. simpl. rewrite advance_nil. split; [reflexivity|]. split; [constructor|].
    intros H. now destruct H.
  - set (model := BEDROCK_EMBEDDING_MODEL cfg).
    set (w1 := {| trace := trace w ++ [InvokeModel model payload];
                  processed := processed w; draws := draws w |}).
    assert (Hone : forall r : result json,
               exists evs d, snd (r, w1) = advance w evs d
                             /\ Forall (fun e => is_embed_event e = true) evs
                             /\ (attempt :: rest <> [] -> (1 <= invoke_count evs)%nat)).
    { intros r. exists [InvokeModel model payload], 0%nat. split.
      { subst w1. unfold advance. simpl. now rewrite Nat.add_0_r. }
      split; [repeat constructor|]. intros _. cbn. lia. }
    cbn [embed_loop]. unfold catch at 1, embed_attempt, bind at 1, bedrock_invoke_model.
    fold model. fold w1.
    destruct (invoke_model env w model payload) as [exc|body].
    + destruct exc as [code msg| | | | | |]; try apply Hone.
      destruct (is_throttling code && (attempt <? max_retries - 1)%nat); [|apply Hone].
      unfold bind, random_uniform, time_sleep, log. cbn [trace processed draws w1].
      match goal with |- context [embed_loop env cfg payload rest ?w2] =>
        destruct (IH w2) as (evs & d & Hsnd & Hall & _); set (w2' := w2) in * end.
      exists ([InvokeModel model payload; Sleep (drawn_delay env attempt (draws w))] ++ evs),
        (1 + d)%nat.
      split.
      { rewrite Hsnd. subst w2' w1. unfold advance. cbn [trace processed draws].
        f_equal; [|lia]. rewrite <- !app_assoc. reflexivity. }
      split.
      { constructor; [reflexivity|]. constructor; [reflexivity|]. exact Hall. }
      intros _. rewrite invoke_count_app. cbn. lia.
    + unfold bind, lift. destruct (extract_embedding body) as [v|exc] eqn:Evec.
      * destruct (truthy v); cbn [negb]; [|apply Hone].
        unfold random_uniform, time_sleep, log, ret. cbn [trace processed draws snd w1].
        exists [InvokeModel model payload; Sleep (drawn_pace env (draws w))], 1%nat.
        split.
        { unfold advance. cbn [trace processed draws].
          f_equal; try lia. rewrite <- app_assoc. reflexivity. }
        split; [repeat constructor|]. intros _. cbn. lia.
      * destruct (extract_embedding_raises _ _ Evec) as (m & ->). apply Hone.
Qed.

Lemma embed_text_run (text : str) (w : World) :
  exists (evs : list event) (d : nat),
    snd (embed_text env cfg text w) = advance w evs d
    /\ Forall (fun e => is_embed_event e = true) evs
    /\ (1 <= invoke_count evs)%nat.
Proof.
  destruct (embed_loop_run (JObj [("inputText", JStr text)]) (List.seq 0 max_retries) w)
    as (evs & d & Hsnd & Hall & Hone).
  exists evs, d. split; [exact Hsnd|]. split; [exact Hall|].
  apply Hone. discriminate.
Qed.

Lemma store_vector_run (chunk_id : str) (embedding : json) (metadata : Metadata) (w : World) :
  let key := vector_object_key cfg chunk_id in
  let body := VectorObject {| vp_id := chunk_id; vp_index := S3_VECTORS_INDEX cfg;
                              vp_namespace := S3_VECTORS_NAMESPACE cfg;
                              vp_embedding := embedding; vp_metadata := metadata |} in
  let r := store_vector env cfg chunk_id embedding metadata w in
  trace (snd r) = trace w ++ [PutObject (PROCESSED_BUCKET cfg) key body]
  /\ draws (snd r) = draws w
  /\ ((fst r = Ok tt /\ processed (snd r) = <[key := body]> (processed w))
      \/ ((exists exc, fst r = Raise exc) /\ processed (snd r) = processed w)).
Proof.
  intros key body r. subst r. unfold store_vector, catch, s3_put_object.
  fold key. fold body.
  destruct (put_object env w (PROCESSED_BUCKET cfg) key body) as [exc|].
  - destruct exc; cbn; (split; [reflexivity|]); (split; [reflexivity|]); right; eauto.
  - cbn. split; [reflexivity|]. split; [reflexivity|]. left. auto.
Qed.

Lemma store_vector_footprint (chunk_id : str) (embedding : json) (metadata : Metadata)
      (w : World) :
  chunk_footprint cfg w (snd (store_vector env cfg chunk_id embedding metadata w)).
Proof.
  destruct (store_vector_run chunk_id embedding metadata w) as (Htr & Hdr & Hpr).
  eexists _, 0%nat. split; [exact Htr|]. split; [lia|]. split; [reflexivity|].
  destruct Hpr as [[_ ->]|[_ ->]].
  - split.
    + intros k Hk. apply lookup_insert_ne. apply not_eq_sym, Hk.
    + intros k Hk. rewrite lookup_insert. destruct (decide _); eauto.
  - split; auto.
Qed.

(** One turn of the chunk loop. *)
Lemma process_chunk_run (ctx : DocContext) (idx : nat) (chunk : str)
      (acc : list ChunkEntry) (w : World) :
  let key := vector_object_key cfg (chunk_id_of (ctx_doc_id ctx) idx) in
  let r := process_chunk env cfg ctx idx chunk acc w in
  chunk_footprint cfg w (snd r)
  /\ (exists evs, trace (snd r) = trace w ++ evs /\ head_keys evs = [key])
  /\ (forall entries, fst r = Ok entries ->
        entries = acc ++ [entry_for ctx idx chunk]
        /\ (head_object env w (PROCESSED_BUCKET cfg) key = None
            \/ is_Some (processed (snd r) !! key))).
Proof.
  intros key. cbv zeta.
  destruct (process_chunk env cfg ctx idx chunk acc w) as [r w'] eqn:Erun.
  cbn [fst snd]. unfold process_chunk in Erun. fold key in Erun. unfold bind at 1 in Erun.
  destruct (vector_exists_run key w) as (Hw0 & Hfound).
  destruct (vector_exists env cfg key w) as [[found|exc] w0]; cbn [fst snd] in *; subst w0.
  2:{ injection Erun as <- <-. split; [apply chunk_footprint_advance; reflexivity|].
      split; [eexists; split; reflexivity|]. discriminate. }
  destruct found.
  - cbn [ret] in Erun. injection Erun as <- <-.
    split; [apply chunk_footprint_advance; reflexivity|].
    split; [eexists; split; reflexivity|].
    intros entries [= <-]. split; [reflexivity|]. left. now apply Hfound.
  - set (w0 := advance w [HeadObject (PROCESSED_BUCKET cfg) key] 0) in *.
    assert (Hfoot0 : chunk_footprint cfg w w0)
      by (apply chunk_footprint_advance; reflexivity).
    unfold bind at 1 in Erun.
    destruct (embed_text_run chunk w0) as (evs & d & Hw1 & Hembed & _).
    destruct (embed_events_quiet evs Hembed) as (Hm & Hh & Hp).
    destruct (embed_text env cfg chunk w0) as [[v|exc] w1]; cbn [fst snd] in *; subst w1.
    2:{ injection Erun as <- <-. split.
        { eapply chunk_footprint_trans; [exact Hfoot0|].
          apply chunk_footprint_advance; auto. }
        split; [|discriminate].
        exists ([HeadObject (PROCESSED_BUCKET cfg) key] ++ evs). split.
        - subst w0. cbn [advance trace]. now rewrite <- app_assoc.
        - rewrite head_keys_app, Hh. reflexivity. }
    set (w1 := advance w0 evs d) in *.
    assert (Hfoot1 : chunk_footprint cfg w w1).
    { eapply chunk_footprint_trans; [exact Hfoot0|].
      apply chunk_footprint_advance; auto. }
    set (md := {| md_doc_id := ctx_doc_id ctx; md_source_s3_uri := ctx_source_uri ctx;
                  md_chunk_id := chunk_id_of (ctx_doc_id ctx) idx;
                  md_doc_type := ctx_doc_type ctx; md_created_at := ctx_created_at ctx;
                  md_chunk_text_preview := py_slice chunk 0 200 |}) in *.
    unfold bind in Erun.
    pose proof (store_vector_footprint (chunk_id_of (ctx_doc_id ctx) idx) v md w1) as Hfoot.
    destruct (store_vector_run (chunk_id_of (ctx_doc_id ctx) idx) v md w1)
      as (Htr & _ & Hpr).
    fold key in Htr, Hpr.
    assert (Hheads : exists evs', trace (snd (store_vector env cfg
                        (chunk_id_of (ctx_doc_id ctx) idx) v md w1)) = trace w ++ evs'
                                  /\ head_keys evs' = [key]).
    { eexists. split.
      - rewrite Htr. subst w1 w0. cbn [advance trace]. rewrite <- !app_assoc. reflexivity.
      - rewrite !head_keys_app, Hh. reflexivity. }
    destruct (store_vector env cfg (chunk_id_of (ctx_doc_id ctx) idx) v md w1)
      as [[[]|exc] w2]; cbn [fst snd ret] in *; injection Erun as <- <-.
    + split; [eapply chunk_footprint_trans; eauto|].
      split; [exact Hheads|].
      intros entries [= <-]. split; [reflexivity|]. right.
      destruct Hpr as [[_ ->]|[[exc Hexc] _]]; [|discriminate].
      rewrite lookup_insert_eq. eauto.
    + split; [eapply chunk_footprint_trans; eauto|].
      split; [exact Hheads|discriminate].
Qed.

Lemma entries_for_cons (ctx : DocContext) (idx : nat) (chunk : str) (rest : list str) :
  entries_for ctx idx (chunk :: rest)
  = entry_for ctx idx chunk :: entries_for ctx (S idx) rest.
Proof.
  unfold entries_for. simpl. rewrite Nat.add_0_r. f_equal.
  apply imap_ext. intros i c _. simpl. f_equal. lia.
Qed.

Lemma entries_for_length (ctx : DocContext) (idx : nat) (chunks : list str) :
  List.length (entries_for ctx idx chunks) = List.length chunks.
Proof. unfold entries_for. apply length_imap. Qed.

Lemma entries_for_lookup (ctx : DocContext) (idx i : nat) (chunks : list str) :
  entries_for ctx idx chunks !! i = entry_for ctx (idx + i) <$> chunks !! i.
Proof. unfold entries_for. rewrite list_lookup_imap. reflexivity. Qed.

(** The whole chunk loop. *)
Lemma process_chunks_run (ctx : DocContext) (chunks : list str) :
  forall (idx : nat) (acc : list ChunkEntry) (w : World),
    let r := process_chunks env cfg ctx idx chunks acc w in
    chunk_footprint cfg w (snd r)
    /\ (forall entries, fst r = Ok entries ->
          entries = acc ++ entries_for ctx idx chunks
          /\ (exists evs, trace (snd r) = trace w ++ evs
                          /\ head_keys evs
                             = vector_keys cfg (ctx_doc_id ctx) idx (List.length chunks))
          /\ ((forall w0 k, head_object env w0 (PROCESSED_BUCKET cfg) k = None ->
                            is_Some (processed w0 !! k)) ->
              Forall (fun k => is_Some (processed (snd r) !! k))
                     (vector_keys cfg (ctx_doc_id ctx) idx (List.length chunks)))).
Proof.
  induction chunks as [|chunk rest IH]; intros idx acc w; cbv zeta.
  - cbn [process_chunks ret fst snd]. split; [apply chunk_footprint_refl|].
    intros entries [= <-]. split; [now rewrite app_nil_r|]. split.
    + exists []. now rewrite app_nil_r.
    + intros _. constructor.
  - cbn [process_chunks]. unfold bind.
    destruct (process_chunk_run ctx idx chunk acc w) as (Hfoot & (evs1 & Htr1 & Hh1) & Hok).
    destruct (process_chunk env cfg ctx idx chunk acc w) as [[entries1|exc] w1];
      cbn [fst snd] in *.
    2:{ split; [exact Hfoot | discriminate]. }
    destruct (Hok entries1 eq_refl) as (-> & Hpresent).
    destruct (IH (S idx) (acc ++ [entry_for ctx idx chunk]) w1) as (Hfoot2 & Hok2).
    split; [eapply chunk_footprint_trans; eauto|].
    intros entries Hrun. destruct (Hok2 entries Hrun) as (-> & (evs2 & Htr2 & Hh2) & Hsound).
    split; [rewrite entries_for_cons, <- app_assoc; reflexivity|].
    split.
    + exists (evs1 ++ evs2). split.
      * rewrite Htr2, Htr1, <- app_assoc. reflexivity.
      * rewrite head_keys_app, Hh1, Hh2. reflexivity.
    + intros Hhead. cbn [List.length vector_keys List.seq List.map].
      constructor; [|apply Hsound, Hhead].
      destruct Hfoot2 as (_ & _ & _ & _ & _ & Hkeep). apply Hkeep.
      destruct Hpresent as [Hnone|Hsome]; [|exact Hsome].
      destruct Hfoot as (_ & _ & _ & _ & _ & Hkeep1). apply Hkeep1.
      now apply Hhead.
Qed.

(** The chunk loop when every vector is in the bucket and [head_object]
    finds what is there: one head request per chunk and nothing else. *)
Lemma process_chunks_cached (ctx : DocContext) (chunks : list str) :
  forall (idx : nat) (acc : list ChunkEntry) (w : World),
    (forall w0 k, is_Some (processed w0 !! k) ->
                  head_object env w0 (PROCESSED_BUCKET cfg) k = None) ->
    Forall (fun k => is_Some (processed w !! k))
           (vector_keys cfg (ctx_doc_id ctx) idx (List.length chunks)) ->
    process_chunks env cfg ctx idx chunks acc w
    = (Ok (acc ++ entries_for ctx idx chunks),
       advance w (List.map (HeadObject (PROCESSED_BUCKET cfg))
                           (vector_keys cfg (ctx_doc_id ctx) idx (List.length chunks))) 0).
Proof.
  induction chunks as [|chunk rest IH]; intros idx acc w Hhonest Hkeys.
  - cbn. rewrite app_nil_r, advance_nil. reflexivity.
  - cbn [List.length vector_keys List.seq List.map] in *.
    apply Forall_cons in Hkeys as [Hkey Hrest].
    cbn [process_chunks]. unfold bind at 1, process_chunk, bind at 1.
    set (key := vector_object_key cfg (chunk_id_of (ctx_doc_id ctx) idx)) in *.
    rewrite (vector_exists_found env cfg key w (Hhonest w key Hkey)). cbn [ret].
    fold (entry_for ctx idx chunk).
    rewrite IH; [|exact Hhonest|exact Hrest].
    rewrite entries_for_cons, <- app_assoc, advance_advance. reflexivity.
Qed.

Lemma fetch_markdown_run (bucket key : str) (version_id : option str) (w : World) :
  let version := if str_truthy version_id then version_id else None in
  let r := fetch_markdown env bucket key version_id w in
  snd r = advance w [GetObject bucket key version] 0
  /\ (forall text, fst r = Ok text <-> get_object env w bucket key version = inr text).
Proof.
  cbv zeta. unfold fetch_markdown, catch, s3_get_object, advance.
  rewrite Nat.add_0_r.
  destruct (get_object env w bucket key _) as [exc|text]; cbn [fst snd].
  - split; [destruct exc; reflexivity|].
    intros text. split; [destruct exc; discriminate | discriminate].
  - split; [reflexivity|]. intros text'. split; intros [= ->]; reflexivity.
Qed.

Lemma put_manifest_run (doc_id : str) (manifest : Manifest) (w : World) :
  let key := manifest_key doc_id in
  let r := put_manifest env cfg doc_id manifest w in
  trace (snd r) = trace w ++ [PutObject (PROCESSED_BUCKET cfg) key (ManifestObject manifest)]
  /\ draws (snd r) = draws w
  /\ ((fst r = Ok tt
       /\ put_object env w (PROCESSED_BUCKET cfg) key (ManifestObject manifest) = None
       /\ processed (snd r) = <[key := ManifestObject manifest]> (processed w))
      \/ ((exists exc, fst r = Raise exc)
          /\ put_object env w (PROCESSED_BUCKET cfg) key (ManifestObject manifest) <> None
          /\ processed (snd r) = processed w)).
Proof.
  intros key r. subst r. unfold put_manifest, catch, s3_put_object. fold key.
  destruct (put_object env w (PROCESSED_BUCKET cfg) key (ManifestObject manifest)) as [exc|].
  - destruct exc; cbn; (split; [reflexivity|]); (split; [reflexivity|]); right;
      (split; [eauto|]); (split; [discriminate | reflexivity]).
  - cbn. split; [reflexivity|]. split; [reflexivity|]. left. auto.
Qed.

(** The manifest that [process_s3_event] hands to [put_manifest]. *)
Lemma process_s3_event_unfold (fuel : nat) (s3_record : S3Record) (w : World) :
  let version := if str_truthy (rec_version_id s3_record)
                 then rec_version_id s3_record else None in
  let w1 := advance w [GetObject (rec_bucket s3_record) (rec_key s3_record) version] 0 in
  let ctx := context_of env s3_record w1 in
  match get_object env w (rec_bucket s3_record) (rec_key s3_record) version with
  | inl exc =>
      exists exc', process_s3_event fuel env cfg s3_record w = Some (Raise exc', w1)
  | inr text =>
      process_s3_event fuel env cfg s3_record w
      = match chunk_text fuel (markdown_to_text text) 1200 200 with
        | None => None
        | Some chunks =>
            Some (match process_chunks env cfg ctx 0 chunks [] w1 with
                  | (Raise exc, w2) => (Raise exc, w2)
                  | (Ok entries, w2) =>
                      put_manifest env cfg (ctx_doc_id ctx)
                        {| m_doc_id := ctx_doc_id ctx;
                           m_source := {| src_bucket := rec_bucket s3_record;
                                          src_key := rec_key s3_record;
                                          src_version_id := rec_version_id s3_record |};
                           m_created_at := ctx_created_at ctx;
                           m_chunks := entries |} w2
                  end)
        end
  end.
Proof.
  cbv zeta. unfold process_s3_event.
  destruct (fetch_markdown_run (rec_bucket s3_record) (rec_key s3_record)
                               (rec_version_id s3_record) w) as (Hw1 & Hok).
  cbv zeta in Hw1, Hok.
  destruct (get_object env w (rec_bucket s3_record) (rec_key s3_record) _) as [exc|text].
  - destruct (fetch_markdown env _ _ _ w) as [[text|exc'] w1]; cbn [fst snd] in *; subst w1.
    + specialize (proj1 (Hok text) eq_refl). discriminate.
    + eauto.
  - destruct (fetch_markdown env _ _ _ w) as [[text'|exc'] w1]; cbn [fst snd] in *; subst w1.
    + assert (text' = text) as -> by (specialize (proj1 (Hok text') eq_refl); congruence).
      destruct (chunk_text fuel (markdown_to_text text) 1200 200) as [chunks|];
        [|reflexivity].
      unfold bind, context_of. cbn [ctx_doc_id ctx_created_at]. reflexivity.
    + specialize (proj2 (Hok text) eq_refl). discriminate.
Qed.

(** The chunker never runs out of fuel on the parameters of the handler. *)
Lemma handler_chunking_total (text : str) :
  exists chunks,
    (forall fuel, (String.length text < fuel)%nat ->
       chunk_text fuel text 1200 200 = Some chunks)
    /\ (List.length chunks <= String.length text)%nat.
Proof. apply chunk_text_total. lia. Qed.

(** Everything a pass does, in one statement: the shape of the new events and
    of the bucket, by the way the pass ends. *)
Lemma process_s3_event_run (fuel : nat) (s3_record : S3Record) (w : World)
      (r : result unit) (w' : World) :
  process_s3_event fuel env cfg s3_record w = Some (r, w') ->
  let doc_id := build_doc_id (rec_bucket s3_record) (rec_key s3_record)
                             (rec_version_id s3_record) (rec_etag s3_record) in
  let version := if str_truthy (rec_version_id s3_record)
                 then rec_version_id s3_record else None in
  let fetch := GetObject (rec_bucket s3_record) (rec_key s3_record) version in
  let w1 := advance w [fetch] 0 in
  let ctx := context_of env s3_record w1 in
  (exists exc, get_object env w (rec_bucket s3_record) (rec_key s3_record) version = inl exc
               /\ (exists exc', r = Raise exc') /\ w' = w1)
  \/ (exists text chunks r2 w2 evs,
        get_object env w (rec_bucket s3_record) (rec_key s3_record) version = inr text
        /\ chunk_text fuel (markdown_to_text text) 1200 200 = Some chunks
        /\ process_chunks env cfg ctx 0 chunks [] w1 = (r2, w2)
        /\ chunk_footprint cfg w1 w2
        /\ trace w2 = trace w1 ++ evs /\ manifest_puts evs = []
        /\ match r2 with
           | Raise exc => r = Raise exc /\ w' = w2
           | Ok entries =>
               let m := {| m_doc_id := doc_id;
                           m_source := {| src_bucket := rec_bucket s3_record;
                                          src_key := rec_key s3_record;
                                          src_version_id := rec_version_id s3_record |};
                           m_created_at := ctx_created_at ctx;
                           m_chunks := entries |} in
               entries = entries_for ctx 0 chunks
               /\ head_keys evs = vector_keys cfg doc_id 0 (List.length chunks)
               /\ (r, w') = put_manifest env cfg doc_id m w2
           end).
Proof.
  intros Hrun. cbv zeta.
  pose proof (process_s3_event_unfold fuel s3_record w) as Hunfold. cbv zeta in Hunfold.
  destruct (get_object env w (rec_bucket s3_record) (rec_key s3_record) _) as [exc|text].
  - left. destruct Hunfold as (exc' & Heq). rewrite Heq in Hrun. injection Hrun as <- <-.
    eauto.
  - right. rewrite Hunfold in Hrun. clear Hunfold.
    destruct (chunk_text fuel (markdown_to_text text) 1200 200) as [chunks|] eqn:Echunk;
      [|discriminate].
    injection Hrun as Hrun.
    match type of Hrun with context [process_chunks env cfg ?c 0 chunks [] ?x] =>
      set (ctx := c) in *; set (w1 := x) in * end.
    destruct (process_chunks_run ctx chunks 0 [] w1) as (Hfoot & Hok).
    destruct (process_chunks env cfg ctx 0 chunks [] w1) as [r2 w2] eqn:Eloop.
    cbn [fst snd] in *.
    pose proof Hfoot as (evs & d & Htr & _ & Hm & _).
    exists text, chunks, r2, w2, evs.
    split; [reflexivity|]. split; [exact Echunk|]. split; [exact Eloop|].
    split; [exact Hfoot|]. split; [exact Htr|]. split; [exact Hm|].
    destruct r2 as [entries|exc].
    + destruct (Hok entries eq_refl) as (Hentries & (evs' & Htr' & Hheads) & _).
      rewrite Htr in Htr'. apply app_inv_head in Htr'. subst evs'.
      split; [exact Hentries|]. split; [exact Hheads|]. symmetry. exact Hrun.
    + injection Hrun as <- <-. auto.
Qed.

End Orchestrator.

Example demo_pass_succeeds : demo_pass = Some (Ok tt, demo_pass_world).
Proof. vm_compute. reflexivity. Qed.

Example demo_pass_trace :
  List.map (fun e => match e with
                     | GetObject _ _ _ => "get"
                     | HeadObject _ _ => "head"
                     | PutObject _ _ (VectorObject _) => "put vector"
                     | PutObject _ _ (ManifestObject _) => "put manifest"
                     | InvokeModel _ _ => "invoke"
                     | Sleep _ => "sleep"
                     end) (trace demo_pass_world)
  = ["get"; "head"; "invoke"; "sleep"; "invoke"; "sleep"; "put vector"; "put manifest"].
Proof. vm_compute. reflexivity. Qed.

(** C4: on a pass that succeeds the manifest is handed to the store exactly
    once, as the last call of the pass and after every chunk has been probed;
    its chunk list has one entry per chunk of the chunker, in chunk order. On
    a pass that fails, the manifest under the manifest path is what it was
    before; when the failure comes from the fetch or from the chunk loop (the
    existence check, the embedding or the store of some chunk), no write to
    the manifest path is even attempted; the only other failure is the
    manifest write itself. *)
Theorem manifest_written_once_at_end :
  forall (env : Env) (cfg : Config) (s3_record : S3Record) (fuel : nat)
         (w : World) (r : result unit) (w' : World),
    process_s3_event fuel env cfg s3_record w = Some (r, w') ->
    let doc_id := build_doc_id (rec_bucket s3_record) (rec_key s3_record)
                               (rec_version_id s3_record) (rec_etag s3_record) in
    let version := if str_truthy (rec_version_id s3_record)
                   then rec_version_id s3_record else None in
    let fetched := get_object env w (rec_bucket s3_record) (rec_key s3_record) version in
    let w1 := advance w [GetObject (rec_bucket s3_record) (rec_key s3_record) version] 0 in
    let ctx := context_of env s3_record w1 in
    let write m :=
      PutObject (PROCESSED_BUCKET cfg) (manifest_key doc_id) (ManifestObject m) in
    exists new : list event,
      trace w' = trace w ++ new
      /\ match r with
         | Ok _ =>
             exists text chunks pre m,
               fetched = inr text
               /\ chunk_text fuel (markdown_to_text text) 1200 200 = Some chunks
               /\ new = pre ++ [write m]
               /\ manifest_puts pre = []
               /\ head_keys pre = vector_keys cfg doc_id 0 (List.length chunks)
               /\ m_chunks m = entries_for ctx 0 chunks
               /\ List.length (m_chunks m) = List.length chunks
               /\ processed w' !! manifest_key doc_id = Some (ManifestObject m)
         | Raise _ =>
             processed w' !! manifest_key doc_id = processed w !! manifest_key doc_id
             /\ (manifest_puts new = []
                 \/ exists pre m w2,
                      new = pre ++ [write m] /\ manifest_puts pre = []
                      /\ trace w2 = trace w ++ pre
                      /\ put_object env w2 (PROCESSED_BUCKET cfg) (manifest_key doc_id)
                                    (ManifestObject m) <> None)
         end
      /\ (forall exc, fetched = inl exc -> manifest_puts new = [])
      /\ (forall text chunks exc w2,
            fetched = inr text ->
            chunk_text fuel (markdown_to_text text) 1200 200 = Some chunks ->
            process_chunks env cfg ctx 0 chunks [] w1 = (Raise exc, w2) ->
            r = Raise exc /\ w' = w2 /\ manifest_puts new = []).
Proof.
  intros env cfg s3_record fuel w r w' Hrun doc_id version fetched w1 ctx write.
  destruct (process_s3_event_run env cfg fuel s3_record w r w' Hrun)
    as [(exc & Hfetch & (exc' & ->) & ->)
       |(text & chunks & r2 & w2 & evs & Hfetch & Hchunk & Hloop & Hfoot & Htr & Hm & Hend)].
  - fold version in Hfetch. fold fetched in Hfetch. fold version. fold w1.
    exists [GetObject (rec_bucket s3_record) (rec_key s3_record) version].
    split; [reflexivity|]. split; [split; [reflexivity | left; reflexivity]|].
    split; [reflexivity|].
    intros text chunks exc0 w2 Hf. congruence.
  - fold version in Hfetch, Hloop, Hfoot, Htr, Hend. fold fetched in Hfetch.
    fold w1 in Hloop, Hfoot, Htr, Hend. fold ctx in Hloop, Hend. fold doc_id in Hend.
    set (fetch := GetObject (rec_bucket s3_record) (rec_key s3_record) version) in *.
    assert (Hkeep : processed w2 !! manifest_key doc_id = processed w !! manifest_key doc_id).
    { destruct Hfoot as (_ & _ & _ & _ & _ & Hout & _).
      rewrite Hout; [reflexivity|]. intros c. apply vector_key_not_manifest_key. }
    assert (Htr2 : trace w2 = trace w ++ [fetch] ++ evs).
    { rewrite Htr. subst w1. cbn [advance trace]. now rewrite <- app_assoc. }
    assert (Hpre : manifest_puts ([fetch] ++ evs) = []).
    { rewrite manifest_puts_app, Hm. reflexivity. }
    destruct r2 as [entries|exc].
    + cbv zeta in Hend. destruct Hend as (Hentries & Hheads & Hput).
      set (m := {| m_doc_id := doc_id;
                   m_source := {| src_bucket := rec_bucket s3_record;
                                  src_key := rec_key s3_record;
                                  src_version_id := rec_version_id s3_record |};
                   m_created_at := ctx_created_at ctx; m_chunks := entries |}) in *.
      destruct (put_manifest_run env cfg doc_id m w2) as (Hptr & _ & Hcases).
      rewrite <- Hput in Hptr, Hcases. cbn [fst snd] in Hptr, Hcases.
      exists (([fetch] ++ evs) ++ [write m]).
      split; [rewrite Hptr, Htr2, <- !app_assoc; reflexivity|].
      split.
      * destruct Hcases as [(-> & _ & Hstore)|((exc & ->) & Hfail & Hstore)].
        -- exists text, chunks, ([fetch] ++ evs), m.
           split; [exact Hfetch|]. split; [exact Hchunk|]. split; [reflexivity|].
           split; [exact Hpre|]. split; [rewrite head_keys_app; exact Hheads|].
           split; [exact Hentries|].
           split; [cbn [m_chunks m]; rewrite Hentries; apply entries_for_length|].
           rewrite Hstore. apply lookup_insert_eq.
        -- split; [rewrite Hstore; exact Hkeep|]. right.
           exists ([fetch] ++ evs), m, w2. auto.
      * split; [intros exc Hf; congruence|].
        intros text' chunks' exc w2' Hf Hc Hl.
        assert (text' = text) as -> by congruence.
        assert (chunks' = chunks) as -> by congruence.
        rewrite Hloop in Hl. discriminate.
    + destruct Hend as (-> & ->).
      exists ([fetch] ++ evs).
      split; [exact Htr2|]. split; [split; [exact Hkeep | left; exact Hpre]|].
      split; [intros exc' Hf; congruence|].
      intros text' chunks' exc' w2' Hf Hc Hl.
      assert (text' = text) as -> by congruence.
      assert (chunks' = chunks) as -> by congruence.
      rewrite Hloop in Hl. injection Hl as <- <-. auto.
Qed.

Lemma manifest_written_once_at_end_witness :
  exists m, processed demo_pass_world
              !! manifest_key (build_doc_id "raw-docs" "products/plan.md" (Some "v1") None)
            = Some (ManifestObject m)
            /\ List.length (m_chunks m) = 1%nat.
Proof.
  destruct (manifest_written_once_at_end
              (demo_env (throttle_first 1 demo_answer) demo_document)
              demo_config demo_record 100 empty_world (Ok tt) demo_pass_world
              ltac:(vm_compute; reflexivity))
    as (new & _ & (text & chunks & pre & m & Hfetch & Hchunk & _ & _ & _ & _ & Hlen & Hstored)
        & _).
  exists m. split; [exact Hstored|].
  rewrite Hlen. injection Hfetch as <-.
  vm_compute in Hchunk. injection Hchunk as <-. reflexivity.
Defined.

(** ** Idempotency of the chunk loop *)

Lemma process_chunk_cases (env : Env) (cfg : Config) (ctx : DocContext) (idx : nat)
      (chunk : str) (acc : list ChunkEntry) (w : World) :
  let chunk_id := chunk_id_of (ctx_doc_id ctx) idx in
  let key := vector_object_key cfg chunk_id in
  let md := {| md_doc_id := ctx_doc_id ctx; md_source_s3_uri := ctx_source_uri ctx;
               md_chunk_id := chunk_id; md_doc_type := ctx_doc_type ctx;
               md_created_at := ctx_created_at ctx;
               md_chunk_text_preview := py_slice chunk 0 200 |} in
  process_chunk env cfg ctx idx chunk acc w
  = match vector_exists env cfg key w with
    | (Raise exc, w0) => (Raise exc, w0)
    | (Ok true, w0) => (Ok (acc ++ [entry_for ctx idx chunk]), w0)
    | (Ok false, w0) =>
        match embed_text env cfg chunk w0 with
        | (Raise exc, w1) => (Raise exc, w1)
        | (Ok v, w1) =>
            match store_vector env cfg chunk_id v md w1 with
            | (Raise exc, w2) => (Raise exc, w2)
            | (Ok _, w2) => (Ok (acc ++ [entry_for ctx idx chunk]), w2)
            end
        end
    end.
Proof.
  cbv zeta. unfold process_chunk, bind.
  destruct (vector_exists env cfg _ w) as [[[|]|exc] w0]; try reflexivity.
  all: destruct (embed_text env cfg chunk w0) as [[v|exc] w1]; try reflexivity.
  all: destruct (store_vector env cfg _ v _ w1) as [[[]|exc] w2]; reflexivity.
Qed.

Example demo_second_pass_succeeds : demo_second_pass = Some (Ok tt, demo_second_world).
Proof. vm_compute. reflexivity. Qed.

Example demo_second_pass_calls :
  invoke_count (new_events demo_pass_world demo_second_world) = 0%nat
  /\ put_keys (new_events demo_pass_world demo_second_world)
     = [manifest_key (build_doc_id "raw-docs" "products/plan.md" (Some "v1") None)].
Proof. vm_compute. split; reflexivity. Qed.

(** C2, as the claim states it, fails: the claim wants the manifest entry of
    a chunk whose vector exists to be marked as coming from the cache.  The
    turn for a chunk whose vector is in the bucket (no call to the model) and
    the turn for the same chunk on an empty bucket (one throttled and one
    answered call to the model, one vector written) append the same entry, so
    nothing in an entry tells the two apart. *)
Lemma from_cache_mark_counterexample :
  invoke_count (trace (snd demo_turn_cached)) = invoke_count (trace demo_pass_world)
  /\ put_keys (new_events demo_pass_world (snd demo_turn_cached)) = []
  /\ invoke_count (trace (snd demo_turn_fresh)) = 2%nat
  /\ List.length (put_keys (trace (snd demo_turn_fresh))) = 1%nat
  /\ (exists e, fst demo_turn_cached = Ok [e] /\ fst demo_turn_fresh = Ok [e])
  /\ ~ (exists mark : ChunkEntry -> bool,
          (forall e, fst demo_turn_cached = Ok [e] -> mark e = true)
          /\ (forall e, fst demo_turn_fresh = Ok [e] -> mark e = false)).
Proof.
  assert (Hsame : exists e, fst demo_turn_cached = Ok [e] /\ fst demo_turn_fresh = Ok [e]).
  { eexists. split; vm_compute; reflexivity. }
  split; [vm_compute; reflexivity|]. split; [vm_compute; reflexivity|].
  split; [vm_compute; reflexivity|]. split; [vm_compute; reflexivity|].
  split; [exact Hsame|].
  intros (mark & Hcached & Hfresh). destruct Hsame as (e & H1 & H2).
  specialize (Hcached e H1). specialize (Hfresh e H2). congruence.
Qed.

Lemma invoke_count_heads (bucket : str) (keys : list str) :
  invoke_count (List.map (HeadObject bucket) keys) = 0%nat.
Proof. induction keys as [|k keys IH]; [reflexivity | exact IH]. Qed.

(** C2 (amended): in every turn of the chunk loop, when the existence check
    returns true the only call of the turn is the head request (the model is
    not called, no vector is written) and the entry of the chunk is appended;
    when it returns false and the turn succeeds, the turn calls the model at
    least once, then writes the vector, and appends the same entry. A pass
    that succeeds leaves a manifest, and (when head requests only succeed on
    what is there) every vector of the document in the bucket; every later
    pass over the same record that fetches the same text, in a world where
    these vectors are in the bucket and head requests find them, calls the
    model zero times and hands over a manifest with as many chunks as the
    first. *)
Theorem chunk_loop_skips_stored_vectors :
  forall (env : Env) (cfg : Config),
    (forall (ctx : DocContext) (idx : nat) (chunk : str) (acc : list ChunkEntry)
            (w : World) (r : result (list ChunkEntry)) (w' : World),
        process_chunk env cfg ctx idx chunk acc w = (r, w') ->
        let chunk_id := chunk_id_of (ctx_doc_id ctx) idx in
        let key := vector_object_key cfg chunk_id in
        let probe := HeadObject (PROCESSED_BUCKET cfg) key in
        let w0 := advance w [probe] 0 in
        (vector_exists env cfg key w = (Ok true, w0) ->
           r = Ok (acc ++ [entry_for ctx idx chunk]) /\ w' = w0)
        /\ (vector_exists env cfg key w = (Ok false, w0) ->
            forall entries, r = Ok entries ->
              exists (v : json) (emb : list event) (d : nat) (body : VectorPayload),
                embed_text env cfg chunk w0 = (Ok v, advance w0 emb d)
                /\ Forall (fun e => is_embed_event e = true) emb
                /\ (1 <= invoke_count emb)%nat
                /\ vp_id body = chunk_id /\ vp_embedding body = v
                /\ trace w' = trace w ++ [probe] ++ emb
                                ++ [PutObject (PROCESSED_BUCKET cfg) key (VectorObject body)]
                /\ processed w' = <[key := VectorObject body]> (processed w)
                /\ entries = acc ++ [entry_for ctx idx chunk]))
    /\ (forall (fuel : nat) (s3_record : S3Record) (w1 w1' : World),
          process_s3_event fuel env cfg s3_record w1 = Some (Ok tt, w1') ->
          let doc_id := build_doc_id (rec_bucket s3_record) (rec_key s3_record)
                                     (rec_version_id s3_record) (rec_etag s3_record) in
          let version := if str_truthy (rec_version_id s3_record)
                         then rec_version_id s3_record else None in
          let fetch := GetObject (rec_bucket s3_record) (rec_key s3_record) version in
          exists m1 : Manifest,
            processed w1' !! manifest_key doc_id = Some (ManifestObject m1)
            /\ ((forall w0 k, head_object env w0 (PROCESSED_BUCKET cfg) k = None ->
                              is_Some (processed w0 !! k)) ->
                Forall (fun k => is_Some (processed w1' !! k))
                       (vector_keys cfg doc_id 0 (List.length (m_chunks m1))))
            /\ (forall w2 : World,
                  get_object env w2 (rec_bucket s3_record) (rec_key s3_record) version
                  = get_object env w1 (rec_bucket s3_record) (rec_key s3_record) version ->
                  (forall w0 k, is_Some (processed w0 !! k) ->
                                head_object env w0 (PROCESSED_BUCKET cfg) k = None) ->
                  Forall (fun k => is_Some (processed w2 !! k))
                         (vector_keys cfg doc_id 0 (List.length (m_chunks m1))) ->
                  exists (r : result unit) (w2' : World) (m2 : Manifest),
                    process_s3_event fuel env cfg s3_record w2 = Some (r, w2')
                    /\ trace w2'
                       = trace w2 ++ [fetch]
                         ++ List.map (HeadObject (PROCESSED_BUCKET cfg))
                              (vector_keys cfg doc_id 0 (List.length (m_chunks m1)))
                         ++ [PutObject (PROCESSED_BUCKET cfg) (manifest_key doc_id)
                                       (ManifestObject m2)]
                    /\ invoke_count (trace w2') = invoke_count (trace w2)
                    /\ List.length (m_chunks m2) = List.length (m_chunks m1)
                    /\ (r = Ok tt ->
                        processed w2' !! manifest_key doc_id = Some (ManifestObject m2)))).
Proof.
  intros env cfg. split.
  - intros ctx idx chunk acc w r w' Hrun chunk_id key probe w0.
    rewrite process_chunk_cases in Hrun. cbv zeta in Hrun.
    fold chunk_id in Hrun. fold key in Hrun.
    split.
    + intros Hex. rewrite Hex in Hrun. injection Hrun as <- <-. auto.
    + intros Hex entries ->. rewrite Hex in Hrun.
      destruct (embed_text_run env cfg chunk w0) as (emb & d & Hw1 & Hemb & Hone).
      destruct (embed_text env cfg chunk w0) as [[v|exc] w1]; [|discriminate].
      cbn [snd] in Hw1. subst w1.
      match type of Hrun with context [store_vector env cfg chunk_id v ?m _] =>
        set (md := m) in * end.
      destruct (store_vector_run env cfg chunk_id v md (advance w0 emb d))
        as (Htr & _ & Hpr).
      destruct (store_vector env cfg chunk_id v md (advance w0 emb d))
        as [[[]|exc] w2]; [|discriminate].
      injection Hrun as <- <-. cbn [fst snd] in Htr, Hpr.
      destruct Hpr as [[_ Hstore]|[[exc Hexc] _]]; [|discriminate].
      eexists v, emb, d, _.
      split; [reflexivity|]. split; [exact Hemb|]. split; [exact Hone|].
      split; [|split; [|split; [|split; [exact Hstore | reflexivity]]]].
      * reflexivity.
      * reflexivity.
      * rewrite Htr. subst w0. cbn [advance trace]. rewrite <- !app_assoc. reflexivity.
  - intros fuel s3_record w1 w1' Hrun doc_id version fetch.
    destruct (process_s3_event_run env cfg fuel s3_record w1 (Ok tt) w1' Hrun)
      as [(exc & _ & (exc' & Hr) & _)
         |(text & chunks & r2 & wl & evs & Hfetch & Hchunk & Hloop & Hfoot & Htr & Hm & Hend)];
      [discriminate|].
    fold version in Hfetch, Hloop, Hfoot, Htr, Hend. fold doc_id in Hend.
    destruct r2 as [entries|exc]; [|destruct Hend as [Hr _]; discriminate].
    cbv zeta in Hend. destruct Hend as (Hentries & _ & Hput).
    match type of Hput with _ = put_manifest env cfg doc_id ?m _ => set (m1 := m) in * end.
    destruct (put_manifest_run env cfg doc_id m1 wl) as (_ & _ & Hcases).
    rewrite <- Hput in Hcases. cbn [fst snd] in Hcases.
    destruct Hcases as [(_ & _ & Hstore)|((exc & Hexc) & _)]; [|discriminate].
    assert (Hlen : List.length (m_chunks m1) = List.length chunks).
    { cbn [m_chunks m1]. rewrite Hentries. apply entries_for_length. }
    exists m1. split; [rewrite Hstore; apply lookup_insert_eq|]. split.
    + intros Hsound. rewrite Hlen.
      match type of Hloop with process_chunks env cfg ?c 0 chunks [] ?x = _ =>
        destruct (process_chunks_run env cfg c chunks 0 [] x) as (_ & Hok) end.
      rewrite Hloop in Hok. cbn [fst snd] in Hok.
      destruct (Hok entries eq_refl) as (_ & _ & Hall). specialize (Hall Hsound).
      eapply Forall_impl; [exact Hall|]. intros k Hk. rewrite Hstore.
      rewrite lookup_insert. destruct (decide _); eauto.
    + intros w2 Hsame Hhonest Hpresent. rewrite Hlen in *.
      pose proof (process_s3_event_unfold env cfg fuel s3_record w2) as Hunfold.
      cbv zeta in Hunfold. fold version in Hunfold. rewrite Hsame, Hfetch in Hunfold.
      rewrite Hchunk in Hunfold. fold fetch in Hunfold.
      rewrite (process_chunks_cached env cfg
                 (context_of env s3_record (advance w2 [fetch] 0)) chunks 0 []
                 (advance w2 [fetch] 0) Hhonest Hpresent) in Hunfold.
      cbn [app] in Hunfold.
      match type of Hunfold with _ = Some (put_manifest env cfg ?d ?m ?x) =>
        pose proof (put_manifest_run env cfg d m x) as Hpm; cbv zeta in Hpm;
        destruct (put_manifest env cfg d m x) as [r w2'] eqn:Eput;
        exists r, w2', m
      end.
      cbn [fst snd] in Hpm. destruct Hpm as (Htr2 & _ & Hcases2).
      split; [exact Hunfold|].
      match goal with |- trace w2' = ?rhs /\ _ => assert (Hshape : trace w2' = rhs) end.
      { rewrite Htr2. cbn [advance trace]. rewrite <- !app_assoc. reflexivity. }
      split; [exact Hshape|]. split.
      { rewrite Hshape, !invoke_count_app, invoke_count_heads. cbn. lia. }
      split; [cbn [m_chunks]; apply entries_for_length|].
      intros ->. destruct Hcases2 as [(_ & _ & ->)|((exc & Hexc) & _)]; [|discriminate].
      apply lookup_insert_eq.
Qed.

Lemma chunk_loop_skips_stored_vectors_witness :
  fst demo_turn_cached = Ok [entry_for demo_ctx 0 "Plan A covers dental care."]
  /\ exists r w2',
       demo_second_pass = Some (r, w2')
       /\ invoke_count (trace w2') = invoke_count (trace demo_pass_world).
Proof.
  split.
  - apply (proj1 (proj1 (chunk_loop_skips_stored_vectors demo_env_pass demo_config)
                        demo_ctx 0%nat "Plan A covers dental care." [] demo_pass_world
                        (fst demo_turn_cached) (snd demo_turn_cached)
                        ltac:(vm_compute; reflexivity))).
    vm_compute. reflexivity.
  - destruct (proj2 (chunk_loop_skips_stored_vectors demo_env_pass demo_config)
                    100%nat demo_record empty_world demo_pass_world
                    ltac:(vm_compute; reflexivity))
      as (m1 & Hm1 & _ & Hsecond).
    destruct (Hsecond demo_pass_world) as (r & w2' & m2 & Hrun & _ & Hcount & _).
    + reflexivity.
    + intros w0 k [x Hx]. cbn. rewrite Hx. reflexivity.
    + vm_compute in Hm1. injection Hm1 as <-.
      constructor; [|constructor]. vm_compute. eauto.
    + exists r, w2'. split; [exact Hrun | exact Hcount].
Defined.

(** ** Identity of documents and chunks *)

(** A pass that succeeds stores the manifest with the entries of all the
    chunks of the fetched text. *)
Lemma successful_pass_manifest (env : Env) (cfg : Config) (fuel : nat)
      (s3_record : S3Record) (w w' : World) :
  process_s3_event fuel env cfg s3_record w = Some (Ok tt, w') ->
  let doc_id := build_doc_id (rec_bucket s3_record) (rec_key s3_record)
                             (rec_version_id s3_record) (rec_etag s3_record) in
  exists (m : Manifest) (ctx : DocContext) (chunks : list str),
    processed w' !! manifest_key doc_id = Some (ManifestObject m)
    /\ ctx_doc_id ctx = doc_id
    /\ m_doc_id m = doc_id
    /\ m_chunks m = entries_for ctx 0 chunks.
Proof.
  intros Hrun doc_id.
  destruct (process_s3_event_run env cfg fuel s3_record w (Ok tt) w' Hrun)
    as [(exc & _ & (exc' & Hr) & _)
       |(text & chunks & r2 & wl & evs & _ & _ & _ & _ & _ & _ & Hend)];
    [discriminate|].
  destruct r2 as [entries|exc]; [|destruct Hend as [Hr _]; discriminate].
  cbv zeta in Hend. destruct Hend as (Hentries & _ & Hput).
  match type of Hput with _ = put_manifest env cfg ?d ?m ?x =>
    destruct (put_manifest_run env cfg d m x) as (_ & _ & Hcases);
    rewrite <- Hput in Hcases; cbn [fst snd] in Hcases;
    exists m
  end.
  destruct Hcases as [(_ & _ & Hstore)|((exc & Hexc) & _)]; [|discriminate].
  eexists _, chunks. split; [rewrite Hstore; apply lookup_insert_eq|].
  split; [|split; [reflexivity | exact Hentries]]. reflexivity.
Qed.

(** C7, as the claim states it with [present] read as [not None], fails: for
    an empty-string version id and the etag [e] the digest is the one of
    [b:k:e], not the one of [b:k:] that the claim's token gives. *)
Lemma build_doc_id_token_counterexample :
  build_doc_id "b" "k" (Some EmptyString) (Some "e")
  <> Sha256.hexdigest
       (utf8_encode ("b" +:+ ":" +:+ "k" +:+ ":" +:+ spec_token (Some EmptyString) (Some "e")))
  /\ build_doc_id "b" "k" (Some EmptyString) (Some "e")
     = "ef973c0ad272984bfd9af994f40d97a11544ead8c99917cf7a18cbd5b5c22260"
  /\ Sha256.hexdigest
       (utf8_encode ("b" +:+ ":" +:+ "k" +:+ ":" +:+ spec_token (Some EmptyString) (Some "e")))
     = "f5e5181f1469a17bdf5b90408fbb4b8c0aafa2b005d567dbb94e44a5883c1a26".
Proof.
  split; [|split].
  - vm_compute. discriminate.
  - vm_compute. reflexivity.
  - vm_compute. reflexivity.
Qed.

(** C7 (amended): [build_doc_id] returns the SHA-256 hex digest of
    [bucket:key:token], where the token is the version id if it is present
    and not empty, else the etag if it is present and not empty, else the
    empty string; equal inputs give equal ids; and in the manifest of a pass
    the entry of chunk [i] has the chunk id [doc_id:i], [i] in decimal. *)
Theorem build_doc_id_digest :
  forall (bucket key : str) (version_id etag : option str),
    let token :=
      match version_id with
      | Some (String c v) => String c v
      | _ => match etag with
             | Some (String c e) => String c e
             | _ => EmptyString
             end
      end in
    let doc_id := build_doc_id bucket key version_id etag in
    doc_id = Sha256.hexdigest (utf8_encode (bucket +:+ ":" +:+ key +:+ ":" +:+ token))
    /\ (forall bucket' key' version_id' etag',
          bucket' = bucket -> key' = key -> version_id' = version_id -> etag' = etag ->
          build_doc_id bucket' key' version_id' etag' = doc_id)
    /\ (forall (env : Env) (cfg : Config) (fuel : nat) (w w' : World),
          process_s3_event fuel env cfg
            {| rec_bucket := bucket; rec_key := key;
               rec_version_id := version_id; rec_etag := etag |} w = Some (Ok tt, w') ->
          exists m : Manifest,
            processed w' !! manifest_key doc_id = Some (ManifestObject m)
            /\ forall (i : nat) (e : ChunkEntry),
                 m_chunks m !! i = Some e ->
                 chunk_id e = doc_id +:+ ":" +:+ str_of_nat i).
Proof.
  intros bucket key version_id etag token doc_id. split; [|split].
  - subst doc_id token. unfold build_doc_id, doc_token, py_or.
    destruct version_id as [[|c v]|], etag as [[|c' e]|]; reflexivity.
  - intros bucket' key' version_id' etag' -> -> -> ->. reflexivity.
  - intros env cfg fuel w w' Hrun.
    destruct (successful_pass_manifest env cfg fuel _ w w' Hrun)
      as (m & ctx & chunks & Hstored & Hctx & _ & Hentries).
    cbn [rec_bucket rec_key rec_version_id rec_etag] in *. fold doc_id in Hstored, Hctx.
    exists m. split; [exact Hstored|].
    intros i e Hi. rewrite Hentries, entries_for_lookup in Hi.
    destruct (chunks !! i) as [c|]; [|discriminate].
    injection Hi as <-. cbn [entry_for chunk_id]. now rewrite Hctx.
Qed.

Lemma build_doc_id_digest_witness :
  exists m : Manifest,
    processed demo_pass_world
      !! manifest_key (build_doc_id "raw-docs" "products/plan.md" (Some "v1") None)
    = Some (ManifestObject m)
    /\ forall (i : nat) (e : ChunkEntry),
         m_chunks m !! i = Some e ->
         chunk_id e = build_doc_id "raw-docs" "products/plan.md" (Some "v1") None
                      +:+ ":" +:+ str_of_nat i.
Proof.
  apply (proj2 (proj2 (build_doc_id_digest "raw-docs" "products/plan.md" (Some "v1") None))
               demo_env_pass demo_config 100%nat empty_world demo_pass_world).
  vm_compute. reflexivity.
Defined.

Example chunk_id_of_index_3 :
  chunk_id_of (build_doc_id "b" "k" (Some "v1") None) 3
  = "da3c580e29b28ac042d329f0d3ba067dc2dcdeac47b5076451b51c28e7f565b9:3".
Proof. vm_compute. reflexivity. Qed.

Example build_doc_id_version_changes :
  build_doc_id "b" "k" (Some "v1") None <> build_doc_id "b" "k" (Some "v2") None.
Proof. vm_compute. discriminate. Qed.

(** ** The normaliser *)

Example markdown_to_text_samples :
  markdown_to_text "a```b``````c```d" = "ad"
  /\ markdown_to_text "```a````b" = "`b"
  /\ markdown_to_text "a ```x``` b`c`d`e" = "a  bcd`e"
  /\ markdown_to_text ("a" +:+ newlines 3 +:+ "b" +:+ newlines 2 +:+ "c" +:+ newlines 5 +:+ "d")
     = "a" +:+ newlines 2 +:+ "b" +:+ newlines 2 +:+ "c" +:+ newlines 2 +:+ "d"
  /\ markdown_to_text ("```x" +:+ newlines 1 +:+ "code" +:+ newlines 1 +:+ "```") = EmptyString
  /\ markdown_to_text EmptyString = EmptyString.
Proof. repeat split; vm_compute; reflexivity. Qed.

Lemma str_app_cons (c : ascii) (a b : str) : String c a +:+ b = String c (a +:+ b).
Proof. reflexivity. Qed.

Lemma str_app_nil_l (s : str) : EmptyString +:+ s = s.
Proof. reflexivity. Qed.

Lemma str_app_nil_r (s : str) : s +:+ EmptyString = s.
Proof.
  induction s as [|c s IH]; [reflexivity|]. rewrite str_app_cons. f_equal. exact IH.
Qed.

Lemma str_app_assoc (a b c : str) : (a +:+ b) +:+ c = a +:+ (b +:+ c).
Proof.
  induction a as [|x a IH]; [reflexivity|]. rewrite !str_app_cons. f_equal. exact IH.
Qed.

Lemma str_length_app (a b : str) :
  String.length (a +:+ b) = (String.length a + String.length b)%nat.
Proof.
  induction a as [|x a IH]; [reflexivity|]. rewrite str_app_cons. simpl. f_equal. exact IH.
Qed.

Lemma count_ticks_app (a b : str) :
  count_ticks (a +:+ b) = (count_ticks a + count_ticks b)%nat.
Proof.
  induction a as [|x a IH]; [reflexivity|]. rewrite str_app_cons. simpl.
  rewrite IH. lia.
Qed.

(** *** Backticks *)

Lemma split_tick_spec (s : str) :
  match split_tick s with
  | None => count_ticks s = 0%nat
  | Some (pre, post) =>
      s = pre +:+ String "`" post
      /\ count_ticks pre = 0%nat
      /\ count_ticks s = S (count_ticks post)
  end.
Proof.
  induction s as [|c s IH]; simpl; [reflexivity|].
  destruct (is_tick c) eqn:Ec.
  - unfold is_tick in Ec. apply Ascii.eqb_eq in Ec. subst c. auto.
  - destruct (split_tick s) as [[pre post]|].
    + destruct IH as (Hs & Hpre & Hcount). rewrite str_app_cons. simpl. rewrite Ec.
      split; [f_equal; exact Hs|]. split; [exact Hpre | exact Hcount].
    + exact IH.
Qed.

Lemma split_fence_ticks (s : str) :
  (count_ticks s <= 2)%nat -> split_fence s = None.
Proof.
  induction s as [|c s IH]; intros Hcount; [reflexivity|].
  cbn [split_fence].
  assert (Htail : fence_tail (String c s) = None).
  { unfold fence_tail. destruct s as [|b [|a s]]; try reflexivity.
    destruct (is_tick c) eqn:E1, (is_tick b) eqn:E2, (is_tick a) eqn:E3; try reflexivity.
    simpl in Hcount. rewrite E1, E2, E3 in Hcount. lia. }
  rewrite Htail. rewrite IH; [reflexivity|]. simpl in Hcount. lia.
Qed.

Lemma drop_code_blocks_few_ticks (fuel : nat) (s : str) :
  (count_ticks s <= 2)%nat -> drop_code_blocks fuel s = s.
Proof.
  intros Hcount. destruct fuel; [reflexivity|]. simpl.
  now rewrite split_fence_ticks.
Qed.

Lemma unwrap_inline_code_few_ticks (fuel : nat) (s : str) :
  (count_ticks s <= 1)%nat -> unwrap_inline_code fuel s = s.
Proof.
  intros Hcount. destruct fuel; [reflexivity|]. simpl.
  pose proof (split_tick_spec s) as Hs.
  destruct (split_tick s) as [[pre body]|]; [|reflexivity].
  destruct Hs as (_ & _ & Hc).
  pose proof (split_tick_spec body) as Hb.
  destruct (split_tick body) as [[code rest]|]; [|reflexivity].
  destruct Hb as (_ & _ & Hc'). lia.
Qed.

Lemma unwrap_inline_code_ticks (fuel : nat) :
  forall s, (String.length s <= fuel)%nat ->
            (count_ticks (unwrap_inline_code fuel s) <= 1)%nat.
Proof.
  induction fuel as [|fuel IH]; intros s Hlen.
  - destruct s; simpl in *; lia.
  - simpl. pose proof (split_tick_spec s) as Hs.
    destruct (split_tick s) as [[pre body]|]; [|lia].
    destruct Hs as (Hs & Hpre & Hc).
    pose proof (split_tick_spec body) as Hb.
    destruct (split_tick body) as [[code rest]|]; [|lia].
    destruct Hb as (Hb & Hcode & Hc').
    rewrite !count_ticks_app, Hpre, Hcode. simpl.
    apply IH. subst s body. rewrite !str_length_app in Hlen. simpl in Hlen.
    rewrite str_length_app in Hlen. simpl in Hlen. lia.
Qed.

(** *** Runs of newlines *)

Lemma prefix_cons (a b : ascii) (p s : str) :
  String.prefix (String a p) (String b s)
  = if Ascii.eqb a b then String.prefix p s else false.
Proof.
  simpl. destruct (ascii_dec a b) as [->|Hne].
  - now rewrite Ascii.eqb_refl.
  - apply Ascii.eqb_neq in Hne. now rewrite Hne.
Qed.

Lemma prefix_nil (s : str) : String.prefix EmptyString s = true.
Proof. destruct s; reflexivity. Qed.

Lemma contains_unfold (pattern s : str) :
  contains pattern s
  = String.prefix pattern s
    || match s with EmptyString => false | String _ s' => contains pattern s' end.
Proof. destruct s; reflexivity. Qed.

Lemma contains_tail (pattern : str) (c : ascii) (s : str) :
  contains pattern (String c s) = false -> contains pattern s = false.
Proof. rewrite contains_unfold. intros H. apply orb_false_iff in H. tauto. Qed.

Lemma prefix_app (pattern : str) :
  forall a b, String.prefix pattern a = true -> String.prefix pattern (a +:+ b) = true.
Proof.
  induction pattern as [|p pattern IH]; intros a b H; [apply prefix_nil|].
  destruct a as [|x a]; [discriminate|].
  rewrite str_app_cons, prefix_cons in *.
  destruct (Ascii.eqb p x); [now apply IH | discriminate].
Qed.

Lemma contains_app_l (pattern a b : str) :
  contains pattern a = true -> contains pattern (a +:+ b) = true.
Proof.
  induction a as [|x a IH]; intros H.
  - rewrite contains_unfold in H. rewrite orb_false_r in H.
    rewrite contains_unfold. now rewrite (prefix_app pattern EmptyString b H).
  - rewrite str_app_cons. rewrite (contains_unfold _ (String x a)) in H.
    rewrite (contains_unfold _ (String x (a +:+ b))).
    apply orb_true_iff in H as [H|H].
    + rewrite <- str_app_cons. now rewrite (prefix_app pattern _ b H).
    + rewrite (IH H). apply orb_true_r.
Qed.

Lemma is_newline_eq (c : ascii) : is_newline c = true -> c = "010"%char.
Proof. unfold is_newline. apply Ascii.eqb_eq. Qed.

Lemma newline_prefix_other (c : ascii) (p s : str) :
  is_newline c = false -> String.prefix (String "010" p) (String c s) = false.
Proof.
  intros H. rewrite prefix_cons. unfold is_newline in H.
  rewrite Ascii.eqb_sym in H. now rewrite H.
Qed.

Lemma newlines_shift (k : nat) (s : str) :
  newlines (S k) +:+ s = newlines k +:+ String "010" s.
Proof.
  induction k as [|k IH]; [reflexivity|].
  change (newlines (S (S k))) with (String "010" (newlines (S k))).
  change (newlines (S k)) with (String "010" (newlines k)) at 2.
  rewrite !str_app_cons. f_equal. exact IH.
Qed.

(** Fewer than three newlines before another character add no run. *)
Lemma newline_eqb_other (c : ascii) :
  is_newline c = false -> Ascii.eqb "010" c = false.
Proof. unfold is_newline. now rewrite Ascii.eqb_sym. Qed.

Lemma contains_short_run (k : nat) (c : ascii) (s : str) :
  (k < 3)%nat -> is_newline c = false ->
  contains (newlines 3) (newlines k +:+ String c s) = contains (newlines 3) s.
Proof.
  intros Hk Hc. pose proof (newline_eqb_other c Hc) as Hne.
  assert (H0 : contains (newlines 3) (String c s) = contains (newlines 3) s).
  { rewrite contains_unfold. cbn [newlines]. now rewrite prefix_cons, Hne. }
  destruct k as [|[|[|k]]]; [exact H0| | |lia].
  - cbn [newlines]. rewrite str_app_cons, str_app_nil_l, contains_unfold.
    rewrite !prefix_cons, Ascii.eqb_refl, Hne. exact H0.
  - cbn [newlines]. rewrite !str_app_cons, str_app_nil_l, contains_unfold.
    rewrite !prefix_cons, !Ascii.eqb_refl, Hne. cbn [orb].
    rewrite contains_unfold.
    rewrite !prefix_cons, Ascii.eqb_refl, Hne. exact H0.
Qed.

Lemma contains_short_end (k : nat) :
  (k < 3)%nat -> contains (newlines 3) (newlines k) = false.
Proof. intros Hk. destruct k as [|[|[|k]]]; [reflexivity..|lia]. Qed.

Lemma contains_long_run (k : nat) (s : str) :
  (3 <= k)%nat -> contains (newlines 3) (newlines k +:+ s) = true.
Proof.
  intros Hk. destruct k as [|[|[|k]]]; try lia.
  cbn [newlines]. rewrite !str_app_cons, contains_unfold, !prefix_cons, !Ascii.eqb_refl.
  now rewrite prefix_nil.
Qed.

Lemma emit_run_short (run : nat) :
  exists k, (k < 3)%nat /\ emit_run run = newlines k
            /\ ((run < 3)%nat -> k = run).
Proof.
  unfold emit_run. destruct (Nat.leb_spec 3 run).
  - exists 2%nat. repeat split; lia.
  - exists run. repeat split; lia.
Qed.

Lemma collapse_newlines_id (s : str) :
  forall run,
    contains (newlines 3) (newlines run +:+ s) = false ->
    collapse_newlines run s = newlines run +:+ s.
Proof.
  induction s as [|c s IH]; intros run H.
  - assert (Hrun : (run < 3)%nat).
    { destruct (Nat.lt_ge_cases run 3) as [?|Hge]; [assumption|].
      rewrite (contains_long_run run _ Hge) in H. discriminate. }
    rewrite str_app_nil_r. simpl. unfold emit_run.
    destruct (Nat.leb_spec 3 run); [lia | reflexivity].
  - cbn [collapse_newlines]. destruct (is_newline c) eqn:Ec.
    + apply is_newline_eq in Ec. subst c.
      rewrite <- newlines_shift. apply IH. now rewrite newlines_shift.
    + assert (Hrun : (run < 3)%nat).
      { destruct (Nat.lt_ge_cases run 3) as [?|Hge]; [assumption|].
        rewrite (contains_long_run run _ Hge) in H. discriminate. }
      rewrite contains_short_run in H by assumption.
      rewrite (IH 0%nat) by exact H. rewrite str_app_nil_l.
      unfold emit_run. destruct (Nat.leb_spec 3 run); [lia | reflexivity].
Qed.

Lemma collapse_newlines_no_run (s : str) :
  forall run, contains (newlines 3) (collapse_newlines run s) = false.
Proof.
  induction s as [|c s IH]; intros run; cbn [collapse_newlines].
  - destruct (emit_run_short run) as (k & Hk & -> & _). now apply contains_short_end.
  - destruct (is_newline c) eqn:Ec; [apply IH|].
    destruct (emit_run_short run) as (k & Hk & -> & _).
    rewrite contains_short_run by assumption. apply IH.
Qed.

Lemma count_ticks_newlines (k : nat) : count_ticks (newlines k) = 0%nat.
Proof. induction k as [|k IH]; [reflexivity | exact IH]. Qed.

Lemma collapse_newlines_ticks (s : str) :
  forall run, count_ticks (collapse_newlines run s) = count_ticks s.
Proof.
  induction s as [|c s IH]; intros run; cbn [collapse_newlines].
  - destruct (emit_run_short run) as (k & _ & -> & _). apply count_ticks_newlines.
  - destruct (is_newline c) eqn:Ec.
    + apply is_newline_eq in Ec. subst c. rewrite IH. reflexivity.
    + destruct (emit_run_short run) as (k & _ & -> & _).
      rewrite count_ticks_app, count_ticks_newlines. simpl. now rewrite IH.
Qed.

(** *** White space at the ends *)

Lemma lstrip_id (s : str) : first_is_space s = false -> lstrip s = s.
Proof. destruct s as [|c s]; simpl; [reflexivity|]. now intros ->. Qed.

Lemma rstrip_cons (c : ascii) (s : str) :
  rstrip (String c s)
  = match rstrip s with
    | EmptyString => if is_space c then EmptyString else String c EmptyString
    | r => String c r
    end.
Proof. reflexivity. Qed.

Lemma rstrip_id (s : str) : last_is_space s = false -> rstrip s = s.
Proof.
  induction s as [|c s IH]; [reflexivity|]. intros H.
  rewrite rstrip_cons. destruct s as [|d s].
  - simpl in *. now rewrite H.
  - change (last_is_space (String c (String d s))) with (last_is_space (String d s)) in H.
    rewrite (IH H). reflexivity.
Qed.

Lemma rstrip_decompose (s : str) : exists t, s = rstrip s +:+ t.
Proof.
  induction s as [|c s (t & IH)]; [exists EmptyString; reflexivity|].
  rewrite rstrip_cons. destruct (rstrip s) as [|d r] eqn:Er.
  - destruct (is_space c).
    + exists (String c s). reflexivity.
    + exists s. reflexivity.
  - exists t. rewrite str_app_cons. f_equal. exact IH.
Qed.

Lemma first_is_space_lstrip (s : str) : first_is_space (lstrip s) = false.
Proof.
  induction s as [|c s IH]; [reflexivity|]. simpl.
  destruct (is_space c) eqn:Ec; [exact IH | simpl; exact Ec].
Qed.

Lemma first_is_space_rstrip (s : str) :
  first_is_space s = false -> first_is_space (rstrip s) = false.
Proof.
  destruct s as [|c s]; [reflexivity|]. rewrite rstrip_cons. simpl. intros Hc.
  destruct (rstrip s); [rewrite Hc|]; simpl; auto.
Qed.

Lemma last_is_space_rstrip (s : str) : last_is_space (rstrip s) = false.
Proof.
  induction s as [|c s IH]; [reflexivity|]. rewrite rstrip_cons.
  destruct (rstrip s) as [|d r] eqn:Er.
  - destruct (is_space c) eqn:Ec; [reflexivity | simpl; exact Ec].
  - exact IH.
Qed.

Lemma strip_id (s : str) :
  first_is_space s = false -> last_is_space s = false -> strip s = s.
Proof. intros H1 H2. unfold strip. rewrite lstrip_id by exact H1. now apply rstrip_id. Qed.

Lemma count_ticks_lstrip (s : str) : (count_ticks (lstrip s) <= count_ticks s)%nat.
Proof.
  induction s as [|c s IH]; [reflexivity|]. simpl.
  destruct (is_space c); simpl; lia.
Qed.

Lemma count_ticks_rstrip (s : str) : (count_ticks (rstrip s) <= count_ticks s)%nat.
Proof.
  destruct (rstrip_decompose s) as (t & Hs). rewrite Hs at 2.
  rewrite count_ticks_app. lia.
Qed.

Lemma contains_lstrip (pattern s : str) :
  contains pattern s = false -> contains pattern (lstrip s) = false.
Proof.
  induction s as [|c s IH]; intros H; [exact H|]. simpl.
  destruct (is_space c); [|exact H]. apply IH. now apply contains_tail in H.
Qed.

Lemma contains_rstrip (pattern s : str) :
  contains pattern s = false -> contains pattern (rstrip s) = false.
Proof.
  intros H. destruct (contains pattern (rstrip s)) eqn:E; [|reflexivity].
  destruct (rstrip_decompose s) as (t & Hs).
  rewrite Hs, (contains_app_l pattern _ t E) in H. discriminate.
Qed.

(** *** The normaliser on normalised text *)

Lemma contains_fence_ticks (s : str) :
  (count_ticks s <= 2)%nat -> contains fence s = false.
Proof.
  induction s as [|c s IH]; intros Hcount; [reflexivity|].
  rewrite contains_unfold. rewrite IH by (simpl in Hcount; lia).
  rewrite orb_false_r. unfold fence.
  rewrite prefix_cons. destruct (Ascii.eqb "`" c) eqn:E1; [|reflexivity].
  destruct s as [|b s]; [reflexivity|].
  rewrite prefix_cons. destruct (Ascii.eqb "`" b) eqn:E2; [|reflexivity].
  destruct s as [|a s]; [reflexivity|].
  rewrite prefix_cons. destruct (Ascii.eqb "`" a) eqn:E3; [|reflexivity].
  simpl in Hcount. unfold is_tick in Hcount.
  rewrite (Ascii.eqb_sym c), (Ascii.eqb_sym b), (Ascii.eqb_sym a), E1, E2, E3 in Hcount.
  lia.
Qed.

(** A text with at most one backtick, no run of three newlines and no white
    space at its ends is a fixed point. *)
Lemma markdown_to_text_fixed (s : str) :
  (count_ticks s <= 1)%nat ->
  contains (newlines 3) s = false ->
  first_is_space s = false -> last_is_space s = false ->
  markdown_to_text s = s.
Proof.
  intros Hticks Hruns Hfirst Hlast. unfold markdown_to_text.
  rewrite drop_code_blocks_few_ticks by lia.
  rewrite unwrap_inline_code_few_ticks by exact Hticks.
  rewrite collapse_newlines_id by exact Hruns.
  rewrite str_app_nil_l. now apply strip_id.
Qed.

(** The result of the normaliser is such a text. *)
Lemma markdown_to_text_normal (s : str) :
  let t := markdown_to_text s in
  (count_ticks t <= 1)%nat
  /\ contains (newlines 3) t = false
  /\ first_is_space t = false /\ last_is_space t = false.
Proof.
  cbv zeta. unfold markdown_to_text, strip.
  set (a := drop_code_blocks (String.length s) s).
  set (b := unwrap_inline_code (String.length a) a).
  set (c := collapse_newlines 0 b).
  split; [|split; [|split]].
  - pose proof (count_ticks_rstrip (lstrip c)). pose proof (count_ticks_lstrip c).
    pose proof (collapse_newlines_ticks b 0) as Hc. fold c in Hc.
    pose proof (unwrap_inline_code_ticks (String.length a) a (le_n _)) as Hb. fold b in Hb.
    lia.
  - apply contains_rstrip, contains_lstrip. apply collapse_newlines_no_run.
  - apply first_is_space_rstrip, first_is_space_lstrip.
  - apply last_is_space_rstrip.
Qed.

(** C9, as the claim states it, fails: a text with no code fence and no run
    of three newlines is changed when it holds an inline code span (the
    backticks are removed) or white space at an end (it is trimmed). *)
Lemma markdown_to_text_unchanged_counterexample :
  (contains fence "use `pip` here" = false
   /\ contains (newlines 3) "use `pip` here" = false
   /\ markdown_to_text "use `pip` here" = "use pip here"
   /\ markdown_to_text "use `pip` here" <> "use `pip` here")
  /\ (contains fence " title" = false
      /\ contains (newlines 3) " title" = false
      /\ markdown_to_text " title" = "title"
      /\ markdown_to_text " title" <> " title").
Proof.
  split; (split; [reflexivity|]); (split; [reflexivity|]);
    (split; [vm_compute; reflexivity | vm_compute; discriminate]).
Qed.

(** C9 (amended): every text with no code fence, no run of three or more
    newlines, at most one backtick (so no inline code span) and no white
    space at its start or end is returned unchanged by [markdown_to_text];
    and for every text, normalising the normalised text changes nothing. *)
Theorem markdown_to_text_idempotent :
  forall s : str,
    (contains fence s = false ->
     contains (newlines 3) s = false ->
     (count_ticks s <= 1)%nat ->
     first_is_space s = false ->
     last_is_space s = false ->
     markdown_to_text s = s)
    /\ markdown_to_text (markdown_to_text s) = markdown_to_text s.
Proof.
  intros s. split.
  - intros _ Hruns Hticks Hfirst Hlast. now apply markdown_to_text_fixed.
  - destruct (markdown_to_text_normal s) as (Hticks & Hruns & Hfirst & Hlast).
    now apply markdown_to_text_fixed.
Qed.

Lemma markdown_to_text_idempotent_witness :
  markdown_to_text "Plan B: 5` wide" = "Plan B: 5` wide"
  /\ markdown_to_text (markdown_to_text "use `pip` here") = markdown_to_text "use `pip` here".
Proof.
  split.
  - apply (proj1 (markdown_to_text_idempotent "Plan B: 5` wide")).
    + reflexivity.
    + reflexivity.
    + simpl. lia.
    + reflexivity.
    + reflexivity.
  - apply (proj2 (markdown_to_text_idempotent "use `pip` here")).
Defined.

(** *** The fuel of the two scans is enough

    Every match removes at least one character, so the length of the text
    bounds the number of matches: more fuel gives the same result. *)

Lemma split_fence_length (s pre post : str) :
  split_fence s = Some (pre, post) ->
  String.length s = (String.length pre + 3 + String.length post)%nat.
Proof.
  revert pre post. induction s as [|c s IH]; intros pre post H; [discriminate|].
  cbn [split_fence] in H.
  destruct (fence_tail (String c s)) as [rest|] eqn:Et.
  - injection H as <- <-. unfold fence_tail in Et.
    destruct s as [|b [|a s]]; try discriminate.
    destruct (is_tick c && is_tick b && is_tick a); [|discriminate].
    injection Et as <-. simpl. lia.
  - destruct (split_fence s) as [[pre' post']|]; [|discriminate].
    injection H as <- <-. simpl. rewrite (IH pre' post' eq_refl). lia.
Qed.

Lemma split_tick_length (s pre post : str) :
  split_tick s = Some (pre, post) ->
  String.length s = (String.length pre + 1 + String.length post)%nat.
Proof.
  intros H. pose proof (split_tick_spec s) as Hs. rewrite H in Hs.
  destruct Hs as (-> & _ & _). rewrite str_length_app. simpl. lia.
Qed.

Lemma drop_code_blocks_more_fuel (fuel : nat) :
  forall (s : str) (fuel' : nat),
    (String.length s <= fuel)%nat -> (fuel <= fuel')%nat ->
    drop_code_blocks fuel' s = drop_code_blocks fuel s.
Proof.
  induction fuel as [|fuel IH]; intros s fuel' Hlen Hle.
  - destruct s; [|simpl in Hlen; lia]. destruct fuel'; reflexivity.
  - destruct fuel' as [|fuel']; [lia|]. cbn [drop_code_blocks].
    destruct (split_fence s) as [[pre body]|] eqn:Es; [|reflexivity].
    destruct (split_fence body) as [[mid rest]|] eqn:Eb; [|reflexivity].
    apply split_fence_length in Es. apply split_fence_length in Eb.
    f_equal. apply IH; lia.
Qed.

Lemma unwrap_inline_code_more_fuel (fuel : nat) :
  forall (s : str) (fuel' : nat),
    (String.length s <= fuel)%nat -> (fuel <= fuel')%nat ->
    unwrap_inline_code fuel' s = unwrap_inline_code fuel s.
Proof.
  induction fuel as [|fuel IH]; intros s fuel' Hlen Hle.
  - destruct s; [|simpl in Hlen; lia]. destruct fuel'; reflexivity.
  - destruct fuel' as [|fuel']; [lia|]. cbn [unwrap_inline_code].
    destruct (split_tick s) as [[pre body]|] eqn:Es; [|reflexivity].
    destruct (split_tick body) as [[code rest]|] eqn:Eb; [|reflexivity].
    apply split_tick_length in Es. apply split_tick_length in Eb.
    do 2 f_equal. apply IH; lia.
Qed.

(** ** The pass always ends

    With the parameters of the handler the chunker needs at most one unit of
    fuel per character of the normalised text, so a pass with that much fuel
    gives a result, whatever the collaborators answer. *)
Lemma process_s3_event_total (env : Env) (cfg : Config) (s3_record : S3Record) (w : World) :
  exists fuel0 : nat,
    forall fuel, (fuel0 <= fuel)%nat ->
      exists r w', process_s3_event fuel env cfg s3_record w = Some (r, w').
Proof.
  pose proof (fun fuel => process_s3_event_unfold env cfg fuel s3_record w) as Hunfold.
  cbv zeta in Hunfold.
  destruct (get_object env w (rec_bucket s3_record) (rec_key s3_record) _) as [exc|text].
  - exists 0%nat. intros fuel _. destruct (Hunfold fuel) as (exc' & ->). eauto.
  - destruct (handler_chunking_total (markdown_to_text text)) as (chunks & Hchunks & _).
    exists (S (String.length (markdown_to_text text))). intros fuel Hfuel.
    rewrite Hunfold, Hchunks by lia.
    match goal with |- exists r w', Some ?x = _ => exists (fst x), (snd x) end.
    now rewrite <- surjective_pairing.
Qed.

(* ===================================================================== *)
(** * Part III: further properties of the code                            *)
(* ===================================================================== *)

(** ** The chunker: count, sizes and the edges of its parameters *)

(** X1: for [0 <= overlap < chunk_size] and a non-empty text of length [L],
    [chunk_text] returns exactly 1 chunk when [L <= chunk_size] and
    [(L - overlap - 1) / (chunk_size - overlap) + 1] chunks otherwise, and
    every chunk has between 1 and [chunk_size] characters. *)
Theorem chunk_text_count :
  forall (text : str) (chunk_size overlap : Z),
    0 <= overlap < chunk_size -> 0 < len text ->
    exists chunks : list str,
      (forall fuel, (String.length text < fuel)%nat ->
         chunk_text fuel text chunk_size overlap = Some chunks)
      /\ Z.of_nat (List.length chunks)
         = (if len text <=? chunk_size then 1
            else (len text - overlap - 1) / (chunk_size - overlap) + 1)
      /\ Forall (fun c => 0 < len c <= chunk_size) chunks.
Proof.
  intros text chunk_size overlap Hov Hpos.
  destruct (chunk_text_windows text chunk_size overlap Hov Hpos)
    as (n & Hn & Hrun & Hlast & Hmid).
  exists (List.map (window text chunk_size overlap) (List.seq 0 n)).
  split; [exact Hrun|]. split.
  - rewrite length_map, length_seq.
    destruct (Z.leb_spec (len text) chunk_size) as [Hle|Hgt].
    + destruct (decide (n = 1%nat)) as [->|Hne]; [reflexivity|].
      pose proof (Hmid 0%nat ltac:(lia)). lia.
    + assert (Hn2 : (2 <= n)%nat).
      { destruct (decide (n = 1%nat)) as [->|Hne]; [simpl in Hlast; lia | lia]. }
      pose proof (Hmid (n - 2)%nat ltac:(lia)) as Hprev.
      replace (Z.of_nat (n - 1)) with (Z.of_nat n - 1) in Hlast by lia.
      replace (Z.of_nat (n - 2)) with (Z.of_nat n - 2) in Hprev by lia.
      symmetry. apply Z.add_move_r. symmetry.
      apply (Z.div_unique_pos _ _ _ (len text - overlap - 1
                                     - (Z.of_nat n - 1) * (chunk_size - overlap))); nia.
  - apply Forall_forall. intros c Hc. apply list_elem_of_lookup in Hc as (i & Hi).
    apply lookup_map_seq in Hi as (Hi & ->). simpl.
    pose proof (window_start_in text chunk_size overlap n Hov Hn Hpos Hlast Hmid i Hi) as Hs.
    rewrite (window_len text chunk_size overlap n Hov Hn Hpos Hlast Hmid i Hi).
    cbv beta zeta in Hs. lia.
Qed.

Lemma chunk_text_count_witness :
  exists chunks : list str,
    chunk_text 11 "abcdefghij" 4 1 = Some chunks /\ Z.of_nat (List.length chunks) = 3.
Proof.
  destruct (chunk_text_count "abcdefghij" 4 1 ltac:(lia) ltac:(reflexivity))
    as (chunks & Hrun & Hcount & _).
  exists chunks. split; [apply Hrun; simpl; lia | exact Hcount].
Defined.

(** X2: a non-empty text that is not longer than [chunk_size] gives exactly
    one chunk, the text itself, whatever the overlap is (the overlap is never
    read), after a single test of the loop condition. *)
Theorem chunk_text_fits_one_chunk :
  forall (text : str) (chunk_size overlap : Z) (fuel : nat),
    0 < len text <= chunk_size -> (0 < fuel)%nat ->
    chunk_text fuel text chunk_size overlap = Some [text].
Proof.
  intros text chunk_size overlap fuel Hlen Hfuel.
  rewrite chunk_text_nonempty by lia.
  destruct fuel as [|fuel]; [lia|]. cbn [chunk_loop].
  destruct (Z.ltb_spec 0 (len text)) as [_|?]; [|lia].
  replace (Z.min (0 + chunk_size) (len text)) with (len text) by lia.
  rewrite Z.eqb_refl, py_slice_all. reflexivity.
Qed.

Lemma chunk_text_fits_one_chunk_witness :
  chunk_text 1 "abc" 3 7 = Some ["abc"].
Proof. apply chunk_text_fits_one_chunk; [split; [reflexivity | discriminate] | lia]. Defined.

Lemma chunk_loop_stuck (text : str) (chunk_size overlap : Z) (fuel : nat) :
  chunk_size < len text -> 0 < len text -> chunk_size <= overlap ->
  forall start acc, start <= 0 ->
    chunk_loop fuel text chunk_size overlap start acc = None.
Proof.
  intros Hlong Hpos Hover. induction fuel as [|fuel IH]; intros start acc Hstart;
    [reflexivity|].
  cbn [chunk_loop].
  destruct (Z.ltb_spec start (len text)) as [_|?]; [|lia].
  destruct (Z.eqb_spec (Z.min (start + chunk_size) (len text)) (len text)) as [?|_]; [lia|].
  apply IH. lia.
Qed.

(** X3: there is no guard on the parameters: when the text is longer than
    [chunk_size] and [overlap] is not below [chunk_size], the start never
    moves forward and [chunk_text] does not return, however long it runs. *)
Theorem chunk_text_overlap_too_large_loops :
  forall (text : str) (chunk_size overlap : Z),
    chunk_size < len text -> 0 < len text -> chunk_size <= overlap ->
    forall fuel, chunk_text fuel text chunk_size overlap = None.
Proof.
  intros text chunk_size overlap Hlong Hpos Hover fuel.
  rewrite chunk_text_nonempty by exact Hpos.
  apply chunk_loop_stuck; auto. lia.
Qed.

Lemma chunk_text_overlap_too_large_loops_witness :
  chunk_text 1000 "abcdefghij" 4 4 = None.
Proof.
  apply (chunk_text_overlap_too_large_loops "abcdefghij" 4 4);
    [reflexivity | reflexivity | lia].
Defined.

(** ** The normaliser: what every result looks like, and what is removed *)

(** X4: whatever the input, the result of [markdown_to_text] has no run of
    three newlines, no white space at its start or end, at most one backtick
    and therefore no code fence. *)
Theorem markdown_to_text_result_shape :
  forall s : str,
    let t := markdown_to_text s in
    contains (newlines 3) t = false
    /\ first_is_space t = false /\ last_is_space t = false
    /\ (count_ticks t <= 1)%nat
    /\ contains fence t = false.
Proof.
  intros s t. destruct (markdown_to_text_normal s) as (Hticks & Hruns & Hfirst & Hlast).
  fold t in Hticks, Hruns, Hfirst, Hlast.
  repeat split; try assumption. apply contains_fence_ticks. lia.
Qed.

Lemma sublist_chars_app (a a' b b' : str) :
  sublist (chars a) (chars a') -> sublist (chars b) (chars b') ->
  sublist (chars (a +:+ b)) (chars (a' +:+ b')).
Proof. intros Ha Hb. rewrite !chars_app. now apply sublist_app. Qed.

Lemma split_fence_app (s pre post : str) :
  split_fence s = Some (pre, post) -> s = pre +:+ fence +:+ post.
Proof.
  revert pre post. induction s as [|c s IH]; intros pre post H; [discriminate|].
  cbn [split_fence] in H.
  destruct (fence_tail (String c s)) as [rest|] eqn:Et.
  - injection H as <- <-. unfold fence_tail in Et.
    destruct s as [|b [|a s]]; try discriminate.
    destruct (is_tick c) eqn:E1; [|discriminate].
    destruct (is_tick b) eqn:E2; [|discriminate].
    destruct (is_tick a) eqn:E3; [|discriminate].
    injection Et as <-. unfold is_tick in *.
    apply Ascii.eqb_eq in E1, E2, E3. subst. reflexivity.
  - destruct (split_fence s) as [[pre' post']|]; [|discriminate].
    injection H as <- <-. rewrite str_app_cons. f_equal. now apply IH.
Qed.

Lemma drop_code_blocks_sublist (fuel : nat) :
  forall s, sublist (chars (drop_code_blocks fuel s)) (chars s).
Proof.
  induction fuel as [|fuel IH]; intros s; [reflexivity|]. cbn [drop_code_blocks].
  destruct (split_fence s) as [[pre body]|] eqn:Es; [|reflexivity].
  destruct (split_fence body) as [[mid rest]|] eqn:Eb; [|reflexivity].
  apply split_fence_app in Es. apply split_fence_app in Eb. subst s body.
  apply sublist_chars_app; [reflexivity|].
  rewrite !chars_app. do 3 apply sublist_inserts_l. apply IH.
Qed.

Lemma unwrap_inline_code_sublist (fuel : nat) :
  forall s, sublist (chars (unwrap_inline_code fuel s)) (chars s).
Proof.
  induction fuel as [|fuel IH]; intros s; [reflexivity|]. cbn [unwrap_inline_code].
  pose proof (split_tick_spec s) as Hs.
  destruct (split_tick s) as [[pre body]|]; [|reflexivity].
  destruct Hs as (-> & _ & _).
  pose proof (split_tick_spec body) as Hb.
  destruct (split_tick body) as [[code rest]|]; [|reflexivity].
  destruct Hb as (-> & _ & _).
  apply sublist_chars_app; [reflexivity|].
  change (String "`" (code +:+ String "`" rest))
    with ("`" +:+ (code +:+ ("`" +:+ rest))).
  rewrite (chars_app "`"). apply sublist_inserts_l.
  apply sublist_chars_app; [reflexivity|].
  rewrite (chars_app "`"). apply sublist_inserts_l. apply IH.
Qed.

Lemma newlines_add (a b : nat) : newlines (a + b) = newlines a +:+ newlines b.
Proof.
  induction a as [|a IH]; [reflexivity|].
  change (newlines (S a + b)) with (String "010" (newlines (a + b))).
  change (newlines (S a)) with (String "010" (newlines a)).
  rewrite str_app_cons. f_equal. exact IH.
Qed.

Lemma emit_run_sublist (run : nat) :
  sublist (chars (emit_run run)) (chars (newlines run)).
Proof.
  unfold emit_run. destruct (Nat.leb_spec 3 run) as [Hge|_]; [|reflexivity].
  replace (newlines run) with (newlines 2 +:+ newlines (run - 2))
    by (rewrite <- newlines_add; f_equal; lia).
  rewrite chars_app. apply sublist_inserts_r. reflexivity.
Qed.

Lemma collapse_newlines_sublist (s : str) :
  forall run,
    sublist (chars (collapse_newlines run s)) (chars (newlines run +:+ s)).
Proof.
  induction s as [|c s IH]; intros run; cbn [collapse_newlines].
  - rewrite str_app_nil_r. apply emit_run_sublist.
  - destruct (is_newline c) eqn:Ec.
    + apply is_newline_eq in Ec. subst c. rewrite <- newlines_shift. apply IH.
    + apply sublist_chars_app; [apply emit_run_sublist|].
      change (String c (collapse_newlines 0 s))
        with (String c EmptyString +:+ collapse_newlines 0 s).
      change (String c s) with (String c EmptyString +:+ s).
      apply sublist_chars_app; [reflexivity|]. apply (IH 0%nat).
Qed.

Lemma lstrip_sublist (s : str) : sublist (chars (lstrip s)) (chars s).
Proof.
  induction s as [|c s IH]; [reflexivity|]. simpl.
  destruct (is_space c); [|reflexivity].
  change (chars (String c s)) with (c :: chars s). now apply sublist_cons.
Qed.

Lemma rstrip_sublist (s : str) : sublist (chars (rstrip s)) (chars s).
Proof.
  destruct (rstrip_decompose s) as (t & Hs). rewrite Hs at 2.
  rewrite chars_app. apply sublist_inserts_r. reflexivity.
Qed.

(** X5: [markdown_to_text] only deletes characters: its result is a
    subsequence of its input, and so it is never longer than the input. *)
Theorem markdown_to_text_only_deletes :
  forall s : str,
    sublist (chars (markdown_to_text s)) (chars s)
    /\ len (markdown_to_text s) <= len s.
Proof.
  intros s.
  assert (Hsub : sublist (chars (markdown_to_text s)) (chars s)).
  { unfold markdown_to_text, strip.
    etransitivity; [apply rstrip_sublist|].
    etransitivity; [apply lstrip_sublist|].
    etransitivity; [apply (collapse_newlines_sublist _ 0)|].
    rewrite str_app_nil_l.
    etransitivity; [apply unwrap_inline_code_sublist|].
    apply drop_code_blocks_sublist. }
  split; [exact Hsub|].
  rewrite !len_chars. apply sublist_length in Hsub. lia.
Qed.

Lemma fence_tail_not_tick (c : ascii) (s : str) :
  is_tick c = false -> fence_tail (String c s) = None.
Proof.
  intros H. unfold fence_tail. destruct s as [|b [|d s]]; try reflexivity.
  now rewrite H.
Qed.

Lemma split_fence_prefix (a x : str) :
  count_ticks a = 0%nat ->
  split_fence (a +:+ x)
  = match split_fence x with
    | Some (pre, post) => Some (a +:+ pre, post)
    | None => None
    end.
Proof.
  induction a as [|c a IH]; intros Hticks.
  - rewrite str_app_nil_l. destruct (split_fence x) as [[pre post]|]; reflexivity.
  - simpl in Hticks. destruct (is_tick c) eqn:Ec; [lia|].
    rewrite str_app_cons. cbn [split_fence].
    rewrite (fence_tail_not_tick c _ Ec), IH by lia.
    destruct (split_fence x) as [[pre post]|]; reflexivity.
Qed.

Lemma split_fence_at_fence (a x : str) :
  count_ticks a = 0%nat -> split_fence (a +:+ fence +:+ x) = Some (a, x).
Proof.
  intros Hticks. rewrite split_fence_prefix by exact Hticks.
  change (split_fence (fence +:+ x)) with (Some (EmptyString, x)).
  cbv iota beta. now rewrite str_app_nil_r.
Qed.

Lemma drop_code_blocks_prefix (fuel : nat) (a x : str) :
  count_ticks a = 0%nat ->
  drop_code_blocks fuel (a +:+ x) = a +:+ drop_code_blocks fuel x.
Proof.
  intros Hticks. destruct fuel as [|fuel]; [reflexivity|]. cbn [drop_code_blocks].
  rewrite split_fence_prefix by exact Hticks.
  destruct (split_fence x) as [[pre body]|]; [|reflexivity].
  destruct (split_fence body) as [[mid rest]|]; [|reflexivity].
  apply str_app_assoc.
Qed.

(** X6: a fenced code block is removed with its content: for every text
    [a], [b] without backticks and every text [c], normalising
    [a ``` b ``` c] gives what normalising [a c] gives. *)
Theorem markdown_to_text_drops_fenced_block :
  forall a b c : str,
    count_ticks a = 0%nat -> count_ticks b = 0%nat ->
    markdown_to_text (a +:+ fence +:+ b +:+ fence +:+ c) = markdown_to_text (a +:+ c).
Proof.
  intros a b c Ha Hb. unfold markdown_to_text.
  set (s := a +:+ fence +:+ b +:+ fence +:+ c).
  assert (Hs : drop_code_blocks (String.length s) s
               = drop_code_blocks (String.length (a +:+ c)) (a +:+ c)).
  { rewrite (drop_code_blocks_prefix _ a c Ha).
    assert (Hlen : String.length s
                   = S (String.length a + String.length b + String.length c + 5)).
    { subst s. rewrite !str_length_app. simpl. lia. }
    rewrite Hlen. cbn [drop_code_blocks]. subst s.
    rewrite (split_fence_at_fence a _ Ha), (split_fence_at_fence b _ Hb).
    f_equal. rewrite str_length_app.
    rewrite (drop_code_blocks_more_fuel (String.length c) c) by lia.
    symmetry. apply drop_code_blocks_more_fuel; lia. }
  rewrite Hs. reflexivity.
Qed.

Lemma markdown_to_text_drops_fenced_block_witness :
  markdown_to_text ("Intro " +:+ fence +:+ "x = 1" +:+ fence +:+ " and `more`")
  = markdown_to_text ("Intro " +:+ " and `more`").
Proof. apply markdown_to_text_drops_fenced_block; reflexivity. Defined.

Lemma split_tick_prefix (a x : str) :
  count_ticks a = 0%nat -> split_tick (a +:+ String "`" x) = Some (a, x).
Proof.
  induction a as [|c a IH]; intros Hticks; [reflexivity|].
  simpl in Hticks. destruct (is_tick c) eqn:Ec; [lia|].
  rewrite str_app_cons. cbn [split_tick]. rewrite Ec, IH by lia. reflexivity.
Qed.

(** X7: an inline code span loses its backticks and keeps its content: for
    all texts [a], [b], [c] without backticks, normalising [a `b` c] gives
    what normalising [a b c] gives. *)
Theorem markdown_to_text_unwraps_inline_code :
  forall a b c : str,
    count_ticks a = 0%nat -> count_ticks b = 0%nat -> count_ticks c = 0%nat ->
    markdown_to_text (a +:+ String "`" (b +:+ String "`" c))
    = markdown_to_text (a +:+ b +:+ c).
Proof.
  intros a b c Ha Hb Hc. unfold markdown_to_text.
  set (s := a +:+ String "`" (b +:+ String "`" c)).
  assert (Hs2 : count_ticks s = 2%nat).
  { subst s. rewrite count_ticks_app. simpl. rewrite count_ticks_app. simpl. lia. }
  assert (Ht0 : count_ticks (a +:+ b +:+ c) = 0%nat).
  { rewrite !count_ticks_app. lia. }
  rewrite (drop_code_blocks_few_ticks _ s) by lia.
  rewrite (drop_code_blocks_few_ticks _ (a +:+ b +:+ c)) by lia.
  rewrite (unwrap_inline_code_few_ticks _ (a +:+ b +:+ c)) by lia.
  assert (Hlen : exists n, String.length s = S n).
  { subst s. rewrite str_length_app. simpl. exists (String.length a + String.length (b +:+ String "`" c))%nat. lia. }
  destruct Hlen as (n & ->). cbn [unwrap_inline_code]. subst s.
  rewrite (split_tick_prefix a _ Ha), (split_tick_prefix b _ Hb).
  rewrite (unwrap_inline_code_few_ticks n c) by lia. reflexivity.
Qed.

Lemma markdown_to_text_unwraps_inline_code_witness :
  markdown_to_text ("run " +:+ String "`" ("pip" +:+ String "`" " now"))
  = markdown_to_text ("run " +:+ "pip" +:+ " now").
Proof. apply markdown_to_text_unwraps_inline_code; reflexivity. Defined.

(** ** Identifiers and storage keys *)

Lemma sha256_rounds_length (ks : list Z) :
  forall win st, List.length st = 8%nat ->
                 List.length (Sha256.rounds ks win st) = 8%nat.
Proof.
  induction ks as [|k ks IH]; intros win st Hst; [destruct win; exact Hst|].
  destruct win as [|x win]; [exact Hst|].
  destruct st as [|a [|b [|c [|d [|e [|f [|g [|h [|i st]]]]]]]]]; try discriminate.
  cbn [Sha256.rounds]. apply IH. reflexivity.
Qed.

Lemma sha256_compress_length (st block : list Z) :
  List.length st = 8%nat -> List.length (Sha256.compress st block) = 8%nat.
Proof.
  intros Hst. unfold Sha256.compress.
  rewrite length_map, length_combine, sha256_rounds_length by exact Hst. lia.
Qed.

Lemma sha256_blocks_length (n : nat) :
  forall bytes st, List.length st = 8%nat ->
                   List.length (Sha256.blocks n bytes st) = 8%nat.
Proof.
  induction n as [|n IH]; intros bytes st Hst; [exact Hst|].
  cbn [Sha256.blocks]. apply IH. now apply sha256_compress_length.
Qed.

Lemma sha256_be_bytes_length (n : nat) :
  forall x, List.length (Sha256.be_bytes n x) = n.
Proof.
  induction n as [|n IH]; intros x; [reflexivity|].
  cbn [Sha256.be_bytes]. rewrite length_app, IH. simpl. lia.
Qed.

Lemma sha256_be_bytes_range (n : nat) :
  forall x, Forall (fun b => 0 <= b < 256) (Sha256.be_bytes n x).
Proof.
  induction n as [|n IH]; intros x; [constructor|].
  cbn [Sha256.be_bytes]. apply Forall_app. split; [apply IH|].
  constructor; [|constructor].
  change 255 with (Z.ones 8). rewrite Z.land_ones by lia.
  apply Z.mod_pos_bound. lia.
Qed.

Lemma sha256_digest_bytes (msg : list Z) :
  List.length (Sha256.digest msg) = 32%nat
  /\ Forall (fun b => 0 <= b < 256) (Sha256.digest msg).
Proof.
  unfold Sha256.digest.
  set (words := Sha256.blocks _ _ _).
  assert (Hwords : List.length words = 8%nat)
    by (apply sha256_blocks_length; reflexivity).
  clearbody words. split.
  - destruct words as [|a [|b [|c [|d [|e [|f [|g [|h [|i st]]]]]]]]]; try discriminate.
    cbn [List.map List.concat]. rewrite !length_app, !sha256_be_bytes_length. reflexivity.
  - clear Hwords. induction words as [|x words IH]; [constructor|].
    cbn [List.map List.concat]. apply Forall_app. split; [apply sha256_be_bytes_range | exact IH].
Qed.

Lemma hex_digit_lower (n : Z) :
  0 <= n < 16 -> is_lower_hex (Sha256.hex_digit n) = true.
Proof.
  intros Hn. rewrite <- (Z2Nat.id n) by lia.
  assert (Hk : (Z.to_nat n < 16)%nat) by lia.
  set (k := Z.to_nat n) in *. clearbody k. clear Hn.
  do 16 (destruct k as [|k]; [reflexivity|]). lia.
Qed.

Lemma sha256_hex_shape (bytes : list Z) :
  Forall (fun b => 0 <= b < 256) bytes ->
  String.length (Sha256.hex bytes) = (2 * List.length bytes)%nat
  /\ Forall (fun c => is_lower_hex c = true) (chars (Sha256.hex bytes)).
Proof.
  induction 1 as [|b bytes Hb _ (IHlen & IHhex)]; [split; [reflexivity | constructor]|].
  cbn [Sha256.hex]. split; [simpl; rewrite IHlen; lia|].
  change (chars (String ?a (String ?b ?s))) with (a :: b :: chars s).
  constructor; [|constructor; [|exact IHhex]].
  - apply hex_digit_lower. rewrite Z.shiftr_div_pow2 by lia.
    change (2 ^ 4) with 16. split; [apply Z.div_pos; lia|].
    apply Z.div_lt_upper_bound; lia.
  - apply hex_digit_lower. change 15 with (Z.ones 4). rewrite Z.land_ones by lia.
    apply Z.mod_pos_bound. lia.
Qed.

Lemma build_doc_id_length (bucket key : str) (version_id etag : option str) :
  String.length (build_doc_id bucket key version_id etag) = 64%nat.
Proof.
  unfold build_doc_id, Sha256.hexdigest.
  destruct (sha256_digest_bytes (utf8_encode (bucket +:+ ":" +:+ key +:+ ":"
                                              +:+ doc_token version_id etag)))
    as (Hlen & Hrange).
  destruct (sha256_hex_shape _ Hrange) as (Hhexlen & _).
  rewrite Hhexlen, Hlen. reflexivity.
Qed.

(** X8: whatever the bucket, key, version id and etag are, [build_doc_id]
    returns 64 characters, each a lower-case hexadecimal digit (so a doc id
    never holds a colon or a slash). *)
Theorem build_doc_id_is_64_hex :
  forall (bucket key : str) (version_id etag : option str),
    String.length (build_doc_id bucket key version_id etag) = 64%nat
    /\ Forall (fun c => is_lower_hex c = true)
              (chars (build_doc_id bucket key version_id etag)).
Proof.
  intros bucket key version_id etag. unfold build_doc_id, Sha256.hexdigest.
  destruct (sha256_digest_bytes (utf8_encode (bucket +:+ ":" +:+ key +:+ ":"
                                              +:+ doc_token version_id etag)))
    as (Hlen & Hrange).
  destruct (sha256_hex_shape _ Hrange) as (Hhexlen & Hhex).
  split; [rewrite Hhexlen, Hlen; reflexivity | exact Hhex].
Qed.

Lemma to_uint_nonnil (n : nat) : Nat.to_uint n <> Decimal.Nil.
Proof.
  intros H. assert (Hn : n = 0%nat).
  { rewrite <- (Unsigned.of_to n), H. reflexivity. }
  subst n. discriminate H.
Qed.

Lemma str_of_nat_inj (i j : nat) : str_of_nat i = str_of_nat j -> i = j.
Proof.
  unfold str_of_nat. intros H. apply Unsigned.to_uint_inj.
  assert (Hs : Some (Nat.to_uint i) = Some (Nat.to_uint j)).
  { rewrite <- (NilZero.usu (Nat.to_uint i)) by apply to_uint_nonnil.
    rewrite <- (NilZero.usu (Nat.to_uint j)) by apply to_uint_nonnil.
    now rewrite H. }
  now injection Hs.
Qed.

Lemma str_app_inv_head (a x y : str) : a +:+ x = a +:+ y -> x = y.
Proof.
  intros H. apply chars_inj. apply (f_equal chars) in H.
  rewrite !chars_app in H. now apply app_inv_head in H.
Qed.

Lemma str_app_inv_tail (a x y : str) : x +:+ a = y +:+ a -> x = y.
Proof.
  intros H. apply chars_inj. apply (f_equal chars) in H.
  rewrite !chars_app in H. now apply app_inv_tail in H.
Qed.

Lemma vector_object_key_inj (cfg : Config) (c1 c2 : str) :
  vector_object_key cfg c1 = vector_object_key cfg c2 -> c1 = c2.
Proof.
  unfold vector_object_key. intros H.
  do 5 apply str_app_inv_head in H. now apply str_app_inv_tail in H.
Qed.

Lemma chunk_id_of_inj (d1 d2 : str) (i j : nat) :
  String.length d1 = String.length d2 ->
  chunk_id_of d1 i = chunk_id_of d2 j -> d1 = d2 /\ i = j.
Proof.
  unfold chunk_id_of. intros Hlen H. apply (f_equal chars) in H.
  rewrite !chars_app in H. apply app_inj_1 in H as (Hd & Hrest).
  2:{ now rewrite !chars_length. }
  apply chars_inj in Hd. split; [exact Hd|].
  apply app_inv_head in Hrest. apply chars_inj in Hrest. now apply str_of_nat_inj.
Qed.

(** X9: storage keys do not collide: the vector keys of two chunks (of the
    same or of two documents) are equal only if the two doc ids and the two
    chunk indices are equal; and the manifest keys of two documents are equal
    only if the doc ids are. *)
Theorem storage_keys_injective :
  forall (cfg : Config) (bucket key bucket' key' : str)
         (version_id etag version_id' etag' : option str) (i j : nat),
    let d := build_doc_id bucket key version_id etag in
    let d' := build_doc_id bucket' key' version_id' etag' in
    (vector_object_key cfg (chunk_id_of d i) = vector_object_key cfg (chunk_id_of d' j) ->
     d = d' /\ i = j)
    /\ (manifest_key d = manifest_key d' -> d = d').
Proof.
  intros cfg bucket key bucket' key' version_id etag version_id' etag' i j d d'. split.
  - intros H. apply vector_object_key_inj in H.
    apply chunk_id_of_inj in H; [exact H|].
    subst d d'. now rewrite !build_doc_id_length.
  - unfold manifest_key. intros H.
    apply str_app_inv_head in H. now apply str_app_inv_tail in H.
Qed.

(** ** The embedding client, whatever the service answers *)

(** One attempt of the loop ends it with an error, ends it with a vector, or
    (throttled, and not the last attempt) sleeps and hands over to the rest. *)
Lemma embed_loop_step (env : Env) (cfg : Config) (payload : json)
      (attempt : nat) (rest : list nat) (w : World) :
  let model := BEDROCK_EMBEDDING_MODEL cfg in
  let run := embed_loop env cfg payload (attempt :: rest) w in
  (exists exc,
      run = (Raise exc, advance w [InvokeModel model payload] 0)
      /\ ((exists cause,
             invoke_model env w model payload = inl cause
             /\ exc = match cause with
                      | ClientError _ _ | BotoCoreError _ | KeyError _ | ValueError _ =>
                          embed_failure cfg cause
                      | _ => cause
                      end)
          \/ exc = RuntimeError "Embedding response missing vector" None
          \/ (exists msg, exc = AttributeError msg)))
  \/ (exists v, truthy v = true
        /\ run = (Ok v, advance w [InvokeModel model payload;
                                   Sleep (drawn_pace env (draws w))] 1))
  \/ ((attempt < max_retries - 1)%nat
      /\ run = embed_loop env cfg payload rest
                 (advance w [InvokeModel model payload;
                             Sleep (drawn_delay env attempt (draws w))] 1)).
Proof.
  cbv zeta.
  assert (Hend : forall exc r,
             invoke_model env w (BEDROCK_EMBEDDING_MODEL cfg) payload = inl exc ->
             match exc with ClientError _ _ => False | _ => True end ->
             r = match exc with
                 | BotoCoreError _ | KeyError _ | ValueError _ => embed_failure cfg exc
                 | _ => exc
                 end ->
             embed_loop env cfg payload (attempt :: rest) w
             = (Raise r, advance w [InvokeModel (BEDROCK_EMBEDDING_MODEL cfg) payload] 0)).
  { intros exc r Hcall Hclass ->.
    cbn [embed_loop]. unfold catch at 1, embed_attempt, bind at 1, bedrock_invoke_model.
    rewrite Hcall. unfold raise, advance. rewrite Nat.add_0_r.
    destruct exc; [destruct Hclass | reflexivity ..]. }
  destruct (invoke_model env w (BEDROCK_EMBEDDING_MODEL cfg) payload) as [exc|body] eqn:Hcall.
  - destruct exc as [code msg| | | | | |];
      try (left; eexists; split;
           [eapply Hend; [reflexivity | exact I | reflexivity]
           | left; eexists; split; reflexivity]).
    destruct (is_throttling code && (attempt <? max_retries - 1)%nat) eqn:Hthr.
    + right; right. apply andb_true_iff in Hthr as [Hc Hlt]. apply Nat.ltb_lt in Hlt.
      split; [exact Hlt|]. destruct code as [c|]; [|discriminate].
      cbn [is_throttling] in Hc. apply String.eqb_eq in Hc. subst c.
      exact (embed_loop_throttled env cfg payload attempt rest w msg Hcall Hlt).
    + left. eexists. split; [apply embed_loop_client_error; [exact Hcall | exact Hthr]|].
      left. eexists. split; reflexivity.
  - destruct (extract_embedding body) as [v|exc] eqn:Evec.
    + destruct (truthy v) eqn:Ht.
      * right; left. exists v. split; [exact Ht|].
        exact (embed_loop_success env cfg payload attempt rest w body v Hcall Evec Ht).
      * left. eexists. split; [|right; left; reflexivity].
        exact (embed_loop_missing_vector env cfg payload attempt rest w body v Hcall Evec Ht).
    + left. exists exc. destruct (extract_embedding_raises _ _ Evec) as (m & ->).
      split; [|right; right; eauto].
      cbn [embed_loop]. unfold catch at 1, embed_attempt, bind, bedrock_invoke_model, lift.
      rewrite Hcall, Evec. unfold raise, advance. now rewrite Nat.add_0_r.
Qed.

Lemma total_sleep_app (tr1 tr2 : list event) :
  (total_sleep (tr1 ++ tr2) == total_sleep tr1 + total_sleep tr2)%Q.
Proof.
  unfold total_sleep. rewrite sleeps_app.
  induction (sleeps tr1) as [|x l IH]; simpl; [lra | rewrite IH; lra].
Qed.

Lemma capped_delay_nonneg (attempt : nat) :
  (0 <= py_min 8 (base_delay * inject_Z (2 ^ Z.of_nat attempt)))%Q.
Proof.
  assert (H : (0 <= inject_Z (2 ^ Z.of_nat attempt))%Q).
  { unfold Qle, inject_Z. simpl. pose proof (Z.pow_nonneg 2 (Z.of_nat attempt)). lia. }
  unfold py_min, base_delay. destruct (Qle_bool _ _); lra.
Qed.

Lemma worst_wait_nonneg (attempts : list nat) : (0 <= worst_wait attempts)%Q.
Proof.
  induction attempts as [|a l IH]; cbn [worst_wait List.fold_right]; [lra|].
  fold (worst_wait l). pose proof (capped_delay_nonneg a). lra.
Qed.

Lemma drawn_delay_bound (env : Env) (attempt k : nat) :
  (0 <= random env k < 1)%Q ->
  (0 <= drawn_delay env attempt k
   <= py_min 8 (base_delay * inject_Z (2 ^ Z.of_nat attempt)) * (5 # 4))%Q.
Proof.
  intros Hrand. unfold drawn_delay.
  pose proof (capped_delay_nonneg attempt) as Hcap.
  pose proof (drawn_jitter_range env k Hrand) as Hjit.
  set (c := py_min 8 (base_delay * inject_Z (2 ^ Z.of_nat attempt))) in *.
  set (j := drawn_jitter env k) in *. clearbody c j. split; nra.
Qed.

(** The loop over the attempts [a], ..., [max_retries - 1]. *)
Lemma embed_loop_bounds (env : Env) (cfg : Config) (payload : json) (m : nat) :
  forall (a : nat) (w : World),
    (a + S m = max_retries)%nat ->
    exists (evs : list event) (d : nat),
      snd (embed_loop env cfg payload (List.seq a (S m)) w) = advance w evs d
      /\ Forall (fun e => is_embed_event e = true) evs
      /\ (1 <= invoke_count evs <= S m)%nat
      /\ (d <= S m)%nat
      /\ ((forall k, 0 <= random env k < 1)%Q ->
          (0 <= total_sleep evs <= worst_wait (List.seq a m) + (3 # 20))%Q)
      /\ (forall v, fst (embed_loop env cfg payload (List.seq a (S m)) w) = Ok v ->
                    truthy v = true).
Proof.
  assert (Hfail : forall (a : nat) (rest : list nat) (w : World) (exc : exception) (n : nat) (bound : Q),
             embed_loop env cfg payload (a :: rest) w
             = (Raise exc, advance w [InvokeModel (BEDROCK_EMBEDDING_MODEL cfg) payload] 0) ->
             (0 <= bound)%Q ->
             exists (evs : list event) (d : nat),
               snd (embed_loop env cfg payload (a :: rest) w) = advance w evs d
               /\ Forall (fun e => is_embed_event e = true) evs
               /\ (1 <= invoke_count evs <= S n)%nat
               /\ (d <= S n)%nat
               /\ ((forall k, 0 <= random env k < 1)%Q ->
                   (0 <= total_sleep evs <= bound + (3 # 20))%Q)
               /\ (forall v, fst (embed_loop env cfg payload (a :: rest) w) = Ok v ->
                             truthy v = true)).
  { intros a rest w exc n bound Hrun Hbound.
    exists [InvokeModel (BEDROCK_EMBEDDING_MODEL cfg) payload], 0%nat.
    rewrite Hrun. cbn [fst snd]. split; [reflexivity|].
    split; [constructor; [reflexivity | constructor]|].
    split; [cbn; lia|]. split; [lia|]. split; [|discriminate].
    intros _. unfold total_sleep. cbn. lra. }
  assert (Hdone : forall (a : nat) (rest : list nat) (w : World) (v : json) (n : nat) (bound : Q),
             truthy v = true ->
             embed_loop env cfg payload (a :: rest) w
             = (Ok v, advance w [InvokeModel (BEDROCK_EMBEDDING_MODEL cfg) payload;
                                 Sleep (drawn_pace env (draws w))] 1) ->
             (0 <= bound)%Q ->
             exists (evs : list event) (d : nat),
               snd (embed_loop env cfg payload (a :: rest) w) = advance w evs d
               /\ Forall (fun e => is_embed_event e = true) evs
               /\ (1 <= invoke_count evs <= S n)%nat
               /\ (d <= S n)%nat
               /\ ((forall k, 0 <= random env k < 1)%Q ->
                   (0 <= total_sleep evs <= bound + (3 # 20))%Q)
               /\ (forall v, fst (embed_loop env cfg payload (a :: rest) w) = Ok v ->
                             truthy v = true)).
  { intros a rest w v n bound Ht Hrun Hbound.
    exists [InvokeModel (BEDROCK_EMBEDDING_MODEL cfg) payload;
            Sleep (drawn_pace env (draws w))], 1%nat.
    rewrite Hrun. cbn [fst snd]. split; [reflexivity|].
    split; [constructor; [reflexivity|]; constructor; [reflexivity | constructor]|].
    split; [cbn; lia|]. split; [lia|]. split; [|intros v' [= <-]; exact Ht].
    intros Hrand. pose proof (drawn_pace_range env (draws w) (Hrand _)) as Hpace.
    unfold total_sleep. cbn. cbn in Hpace. lra. }
  induction m as [|m IH]; intros a w Ha.
  - cbn [List.seq].
    destruct (embed_loop_step env cfg payload a [] w)
      as [(exc & Hrun & _)|[(v & Ht & Hrun)|(Hlt & Hrun)]]; cbv zeta in Hrun.
    + apply (Hfail a [] w exc 0%nat (worst_wait [])); [exact Hrun | apply worst_wait_nonneg].
    + apply (Hdone a [] w v 0%nat (worst_wait [])); [exact Ht | exact Hrun | apply worst_wait_nonneg].
    + unfold max_retries in *. lia.
  - change (List.seq a (S (S m))) with (a :: List.seq (S a) (S m)).
    destruct (embed_loop_step env cfg payload a (List.seq (S a) (S m)) w)
      as [(exc & Hrun & _)|[(v & Ht & Hrun)|(Hlt & Hrun)]]; cbv zeta in Hrun.
    + apply (Hfail a _ w exc (S m) (worst_wait (List.seq a (S m))));
        [exact Hrun | apply worst_wait_nonneg].
    + apply (Hdone a _ w v (S m) (worst_wait (List.seq a (S m))));
        [exact Ht | exact Hrun | apply worst_wait_nonneg].
    + rewrite Hrun.
      set (w1 := advance w [InvokeModel (BEDROCK_EMBEDDING_MODEL cfg) payload;
                            Sleep (drawn_delay env a (draws w))] 1).
      destruct (IH (S a) w1) as (evs & d & Hsnd & Hall & Hinv & Hd & Hsleep & Hok); [lia|].
      exists ([InvokeModel (BEDROCK_EMBEDDING_MODEL cfg) payload;
               Sleep (drawn_delay env a (draws w))] ++ evs), (1 + d)%nat.
      split; [rewrite Hsnd; subst w1; apply advance_advance|].
      split; [constructor; [reflexivity|]; constructor; [reflexivity | exact Hall]|].
      split; [rewrite invoke_count_app; cbn; lia|].
      split; [lia|]. split; [|exact Hok].
      intros Hrand. specialize (Hsleep Hrand).
      rewrite total_sleep_app.
      pose proof (drawn_delay_bound env a (draws w) (Hrand _)) as Hdelay.
      change (worst_wait (List.seq a (S m)))
        with (py_min 8 (base_delay * inject_Z (2 ^ Z.of_nat a)) * (5 # 4)
              + worst_wait (List.seq (S a) m))%Q.
      assert (Hfirst : (total_sleep [InvokeModel (BEDROCK_EMBEDDING_MODEL cfg) payload;
                                     Sleep (drawn_delay env a (draws w))]
                        == drawn_delay env a (draws w))%Q).
      { generalize (drawn_delay env a (draws w)). intros x.
        unfold total_sleep. cbn. lra. }
      rewrite Hfirst. lra.
Qed.

(** X10: [embed_text] never returns [None] or an empty vector, although the
    loop could fall off its end: a run makes between 1 and 8 requests to the
    model, draws at most 8 random numbers, does nothing but requests and
    sleeps, and when it returns, the value is truthy. *)
Theorem embed_text_returns_vector_or_raises :
  forall (env : Env) (cfg : Config) (text : str) (w : World),
    exists (new : list event) (drawn : nat),
      snd (embed_text env cfg text w) = advance w new drawn
      /\ Forall (fun e => is_embed_event e = true) new
      /\ (1 <= invoke_count new <= 8)%nat
      /\ (drawn <= 8)%nat
      /\ (forall v, fst (embed_text env cfg text w) = Ok v -> truthy v = true).
Proof.
  intros env cfg text w. unfold embed_text.
  destruct (embed_loop_bounds env cfg (JObj [("inputText", JStr text)]) 7 0 w eq_refl)
    as (evs & d & Hsnd & Hall & Hinv & Hd & _ & Hok).
  exists evs, d. auto.
Qed.

(** X11: when the random generator gives numbers in the unit interval, the
    sleeps of one run of [embed_text] add up to at most 39.525 seconds: seven
    backoffs of at most 1.25 times 0.5, 1, 2, 4, 8, 8 and 8 seconds, and the
    pacing sleep of at most 0.15 seconds. *)
Theorem embed_text_sleep_budget :
  forall (env : Env) (cfg : Config) (text : str) (w : World),
    (forall k, 0 <= random env k < 1)%Q ->
    (0 <= total_sleep (new_events w (snd (embed_text env cfg text w))) <= 1581 # 40)%Q.
Proof.
  intros env cfg text w Hrand. unfold embed_text.
  destruct (embed_loop_bounds env cfg (JObj [("inputText", JStr text)]) 7 0 w eq_refl)
    as (evs & d & Hsnd & _ & _ & _ & Hsleep & _).
  change (List.seq 0 max_retries) with (List.seq 0 8). rewrite Hsnd. unfold new_events, advance. cbn [trace].
  rewrite drop_app_length. specialize (Hsleep Hrand).
  assert (Hbudget : (worst_wait (List.seq 0 7) + (3 # 20) == 1581 # 40)%Q) by reflexivity.
  rewrite Hbudget in Hsleep. exact Hsleep.
Qed.

Lemma embed_text_sleep_budget_witness :
  (0 <= total_sleep (new_events empty_world
                       (snd (embed_text (demo_env always_throttle "text") demo_config
                                        "chunk" empty_world)))
   <= 1581 # 40)%Q.
Proof.
  apply (embed_text_sleep_budget (demo_env always_throttle "text") demo_config
                                 "chunk" empty_world).
  intros k. simpl. split; [discriminate | reflexivity].
Defined.

Lemma retry_events_invokes (env : Env) (model : str) (payload : json) (k : nat) :
  forall (attempt draw : nat),
    invoke_count (retry_events env model payload attempt draw k) = k
    /\ List.length (sleeps (retry_events env model payload attempt draw k)) = k.
Proof.
  induction k as [|k IH]; intros attempt draw; [split; reflexivity|].
  destruct (IH (S attempt) (S draw)) as (Hi & Hs).
  cbn [retry_events]. unfold invoke_count in *. cbn. rewrite Hi.
  unfold sleeps in Hs. rewrite Hs. split; reflexivity.
Qed.

Lemma embed_loop_retries (env : Env) (cfg : Config) (payload body v : json) (k : nat) :
  forall (a : nat) (rest : list nat) (w : World),
    (a + k < max_retries)%nat ->
    (forall i, (i < k)%nat ->
               call_number env cfg (invoke_count (trace w) + i) is_throttled) ->
    call_number env cfg (invoke_count (trace w) + k) (fun answer => answer = inr body) ->
    extract_embedding body = Ok v -> truthy v = true ->
    embed_loop env cfg payload (List.seq a (S k) ++ rest) w
    = (Ok v,
       advance w (retry_events env (BEDROCK_EMBEDDING_MODEL cfg) payload a (draws w) k
                  ++ [InvokeModel (BEDROCK_EMBEDDING_MODEL cfg) payload;
                      Sleep (drawn_pace env (draws w + k))]) (k + 1)).
Proof.
  induction k as [|k IH]; intros a rest w Ha Hthr Hans Hvec Htrue.
  - cbn [List.seq app retry_events]. rewrite !Nat.add_0_r in *.
    apply (embed_loop_success env cfg payload a rest w body v); auto.
  - destruct (Hthr 0%nat ltac:(lia) w payload ltac:(lia)) as (msg & Hcall).
    change (List.seq a (S (S k)) ++ rest) with (a :: (List.seq (S a) (S k) ++ rest)).
    rewrite (embed_loop_throttled env cfg payload a _ w msg Hcall)
      by (unfold max_retries in *; lia).
    set (w1 := advance w [InvokeModel (BEDROCK_EMBEDDING_MODEL cfg) payload;
                          Sleep (drawn_delay env a (draws w))] 1).
    assert (Hcount : invoke_count (trace w1) = S (invoke_count (trace w))).
    { subst w1. cbn [advance trace]. rewrite invoke_count_app. cbn. lia. }
    rewrite (IH (S a) rest w1); auto.
    + subst w1. rewrite advance_advance. cbn [advance draws retry_events].
      replace (draws w + 1)%nat with (S (draws w)) by lia.
      replace (S (draws w) + k)%nat with (draws w + S k)%nat by lia.
      replace (1 + (k + 1))%nat with (S k + 1)%nat by lia.
      reflexivity.
    + lia.
    + intros i Hi. rewrite Hcount.
      replace (S (invoke_count (trace w)) + i)%nat
        with (invoke_count (trace w) + S i)%nat by lia.
      apply Hthr. lia.
    + rewrite Hcount.
      replace (S (invoke_count (trace w)) + k)%nat
        with (invoke_count (trace w) + S k)%nat by lia.
      exact Hans.
Qed.

(** X12: when the embedding service throttles the next [k] calls, for any
    [k] up to 7, and then answers with a response that holds a vector,
    [embed_text] returns that vector; the run is exactly [k] rounds of a
    request and a backoff sleep for the attempts 0, ..., [k - 1], then the
    request that succeeds and the pacing sleep: [k + 1] requests, [k + 1]
    sleeps and [k + 1] random numbers. *)
Theorem embed_text_succeeds_after_throttles :
  forall (env : Env) (cfg : Config) (text : str) (w : World) (k : nat) (body v : json),
    let payload := JObj [("inputText", JStr text)] in
    let model := BEDROCK_EMBEDDING_MODEL cfg in
    let n0 := invoke_count (trace w) in
    let new := retry_events env model payload 0 (draws w) k
               ++ [InvokeModel model payload; Sleep (drawn_pace env (draws w + k))] in
    (k <= 7)%nat ->
    (forall i, (i < k)%nat -> call_number env cfg (n0 + i) is_throttled) ->
    call_number env cfg (n0 + k) (fun answer => answer = inr body) ->
    extract_embedding body = Ok v -> truthy v = true ->
    embed_text env cfg text w = (Ok v, advance w new (k + 1))
    /\ invoke_count new = (k + 1)%nat
    /\ List.length (sleeps new) = (k + 1)%nat.
Proof.
  intros env cfg text w k body v payload model n0 new Hk Hthr Hans Hvec Htrue.
  split.
  - unfold embed_text. fold payload.
    replace (List.seq 0 max_retries)
      with (List.seq 0 (S k) ++ List.seq (S k) (max_retries - S k)).
    + apply (embed_loop_retries env cfg payload body v k 0); auto.
      unfold max_retries. lia.
    + rewrite <- List.seq_app. f_equal. unfold max_retries. lia.
  - destruct (retry_events_invokes env model payload k 0 (draws w)) as (Hi & Hs).
    subst new. rewrite invoke_count_app, sleeps_app, length_app, Hi, Hs.
    split; reflexivity.
Qed.

Lemma embed_text_succeeds_after_throttles_witness :
  let env := demo_env (throttle_first 5 demo_answer) "text" in
  let payload := JObj [("inputText", JStr "chunk")] in
  let model := BEDROCK_EMBEDDING_MODEL demo_config in
  let new := retry_events env model payload 0 0 5
             ++ [InvokeModel model payload; Sleep (drawn_pace env 5)] in
  embed_text env demo_config "chunk" empty_world = (Ok demo_vector, advance empty_world new 6)
  /\ invoke_count new = 6%nat
  /\ List.length (sleeps new) = 6%nat.
Proof.
  apply (embed_text_succeeds_after_throttles
           (demo_env (throttle_first 5 demo_answer) "text") demo_config "chunk"
           empty_world 5 demo_answer demo_vector).
  - lia.
  - intros i Hi w body Hcount. exists "Too many requests, please wait".
    simpl. rewrite Hcount. simpl in Hi |- *.
    assert (Hlt : (i <? 5)%nat = true) by (apply Nat.ltb_lt; lia).
    unfold throttle_first. rewrite Hlt. reflexivity.
  - intros w body Hcount. simpl. rewrite Hcount. reflexivity.
  - reflexivity.
  - reflexivity.
Defined.

(** X13: an error of the embedding service that is not a throttling error
    ends [embed_text] after that one request, without a sleep or a retry: a
    [ClientError] with another code or without a code, a [BotoCoreError], a
    [KeyError] and a [ValueError] come back as a [RuntimeError] that names
    the model and has the error as its cause; any other exception comes back
    as it is. *)
Theorem embed_text_service_error_not_retried :
  forall (env : Env) (cfg : Config) (text : str) (w : World) (exc : exception),
    let payload := JObj [("inputText", JStr text)] in
    let model := BEDROCK_EMBEDDING_MODEL cfg in
    invoke_model env w model payload = inl exc ->
    (forall msg, exc <> ClientError (Some "ThrottlingException") msg) ->
    embed_text env cfg text w
    = (Raise match exc with
             | ClientError _ _ | BotoCoreError _ | KeyError _ | ValueError _ =>
                 RuntimeError ("Failed to embed text with model " +:+ model +:+ ": "
                               +:+ exc_str exc) (Some exc)
             | _ => exc
             end,
       advance w [InvokeModel model payload] 0).
Proof.
  intros env cfg text w exc payload model Hcall Hnot.
  unfold embed_text. fold payload. cbn [List.seq max_retries].
  destruct exc as [code msg| | | | | |];
    try (cbn [embed_loop]; unfold catch at 1, embed_attempt, bind at 1, bedrock_invoke_model;
         fold model; rewrite Hcall; unfold raise, advance; rewrite Nat.add_0_r;
         reflexivity).
  apply (embed_loop_client_error env cfg payload 0 _ w code msg Hcall).
  destruct code as [c|]; [|reflexivity].
  cbn [is_throttling]. destruct (String.eqb c "ThrottlingException") eqn:Hc; [|reflexivity].
  apply String.eqb_eq in Hc. subst c. now destruct (Hnot msg).
Qed.

Lemma embed_text_service_error_not_retried_witness :
  embed_text (demo_env (fun _ => inl (ClientError (Some "ValidationException") "bad input"))
                       "text") demo_config "chunk" empty_world
  = (Raise (RuntimeError ("Failed to embed text with model "
                          +:+ BEDROCK_EMBEDDING_MODEL demo_config +:+ ": bad input")
                         (Some (ClientError (Some "ValidationException") "bad input"))),
     advance empty_world
       [InvokeModel (BEDROCK_EMBEDDING_MODEL demo_config) (JObj [("inputText", JStr "chunk")])] 0).
Proof.
  apply (embed_text_service_error_not_retried
           (demo_env (fun _ => inl (ClientError (Some "ValidationException") "bad input"))
                     "text") demo_config "chunk" empty_world
           (ClientError (Some "ValidationException") "bad input")).
  - reflexivity.
  - intros msg H. discriminate H.
Defined.

(** ** The vector store gateway *)

(** X14: a vector that [store_vector] has stored is found again: with a
    store whose head request succeeds on every key that holds an object, a
    successful [store_vector] leaves the payload (id, index, namespace,
    embedding and metadata) under the vector key of the chunk, the next
    [vector_exists] on that key returns true after one head request, and the
    object under the vector key of any other chunk id is what it was. *)
Theorem stored_vector_is_found :
  forall (env : Env) (cfg : Config) (chunk_id : str) (embedding : json)
         (metadata : Metadata) (w w' : World),
    (forall w0 k, is_Some (processed w0 !! k) ->
                  head_object env w0 (PROCESSED_BUCKET cfg) k = None) ->
    store_vector env cfg chunk_id embedding metadata w = (Ok tt, w') ->
    let key := vector_object_key cfg chunk_id in
    processed w' !! key
    = Some (VectorObject {| vp_id := chunk_id; vp_index := S3_VECTORS_INDEX cfg;
                            vp_namespace := S3_VECTORS_NAMESPACE cfg;
                            vp_embedding := embedding; vp_metadata := metadata |})
    /\ vector_exists env cfg key w' = (Ok true, advance w' [HeadObject (PROCESSED_BUCKET cfg) key] 0)
    /\ (forall other, other <> chunk_id ->
          processed w' !! vector_object_key cfg other
          = processed w !! vector_object_key cfg other).
Proof.
  intros env cfg chunk_id embedding metadata w w' Hhonest Hrun key.
  destruct (store_vector_run env cfg chunk_id embedding metadata w) as (_ & _ & Hcases).
  rewrite Hrun in Hcases. cbn [fst snd] in Hcases. fold key in Hcases.
  destruct Hcases as [(_ & Hstore)|((exc & Hexc) & _)]; [|discriminate].
  assert (Hkey : processed w' !! key
                 = Some (VectorObject {| vp_id := chunk_id; vp_index := S3_VECTORS_INDEX cfg;
                                         vp_namespace := S3_VECTORS_NAMESPACE cfg;
                                         vp_embedding := embedding;
                                         vp_metadata := metadata |}))
    by (rewrite Hstore; apply lookup_insert_eq).
  split; [exact Hkey|]. split.
  - apply vector_exists_found, Hhonest. rewrite Hkey. eauto.
  - intros other Hother. rewrite Hstore. apply lookup_insert_ne.
    intros Heq. apply Hother. symmetry. exact (vector_object_key_inj cfg _ _ Heq).
Qed.

Lemma stored_vector_is_found_witness :
  let md := {| md_doc_id := "d"; md_source_s3_uri := "s3://raw-docs/a.md";
               md_chunk_id := "d:0"; md_doc_type := "unknown";
               md_created_at := "t"; md_chunk_text_preview := "text" |} in
  let w' := snd (store_vector demo_env_pass demo_config "d:0" demo_vector md empty_world) in
  let key := vector_object_key demo_config "d:0" in
  processed w' !! key
  = Some (VectorObject {| vp_id := "d:0"; vp_index := S3_VECTORS_INDEX demo_config;
                          vp_namespace := S3_VECTORS_NAMESPACE demo_config;
                          vp_embedding := demo_vector; vp_metadata := md |})
  /\ vector_exists demo_env_pass demo_config key w'
     = (Ok true, advance w' [HeadObject (PROCESSED_BUCKET demo_config) key] 0)
  /\ (forall other, other <> "d:0" ->
        processed w' !! vector_object_key demo_config other
        = processed empty_world !! vector_object_key demo_config other).
Proof.
  intros md w' key.
  apply (stored_vector_is_found demo_env_pass demo_config "d:0" demo_vector md
                                empty_world w').
  - intros w0 k Hk. simpl. destruct (processed w0 !! k); [reflexivity|].
    now destruct Hk.
  - reflexivity.
Defined.

(** ** The exceptions that leave a pass *)

Lemma vector_exists_raises (env : Env) (cfg : Config) (key : str) (w w' : World)
      (exc : exception) :
  vector_exists env cfg key w = (Raise exc, w') ->
  head_object env w (PROCESSED_BUCKET cfg) key = Some exc
  /\ match exc with
     | ClientError code _ =>
         code_in code not_found_codes = false /\ code_in code access_denied_codes = false
     | _ => True
     end.
Proof.
  unfold vector_exists, catch, bind, s3_head_object, ret, raise.
  destruct (head_object env w (PROCESSED_BUCKET cfg) key) as [e|]; [|discriminate].
  destruct e as [code msg| | | | | |]; try (intros [= <- <-]; split; [reflexivity | exact I]).
  destruct (code_in code not_found_codes) eqn:Hnf; [discriminate|].
  destruct (code_in code access_denied_codes) eqn:Had; [discriminate|].
  intros [= <- <-]. auto.
Qed.

Lemma service_error_cases (exc : exception) :
  is_service_error exc = true ->
  (exists code msg, exc = ClientError code msg) \/ (exists msg, exc = BotoCoreError msg).
Proof. destruct exc; try discriminate; eauto. Qed.

Lemma embed_loop_raises (env : Env) (cfg : Config) (payload : json) (attempts : list nat) :
  forall (w w' : World) (exc : exception),
    service_errors_only env ->
    embed_loop env cfg payload attempts w = (Raise exc, w') ->
    wrapped ("Failed to embed text with model " +:+ BEDROCK_EMBEDDING_MODEL cfg) exc
    \/ exc = RuntimeError "Embedding response missing vector" None
    \/ (exists msg, exc = AttributeError msg).
Proof.
  induction attempts as [|attempt rest IH]; intros w w' exc Henv Hrun; [discriminate|].
  destruct (embed_loop_step env cfg payload attempt rest w)
    as [(exc' & Hend & Hshape)|[(v & _ & Hend)|(_ & Hnext)]]; cbv zeta in *.
  - rewrite Hend in Hrun. injection Hrun as -> _.
    destruct Hshape as [(cause & Hcall & ->)|[->|Hattr]]; [|auto|auto].
    left. exists cause.
    pose proof (proj2 (proj2 (proj2 Henv)) _ _ _ _ Hcall) as Hservice.
    split; [exact Hservice|].
    destruct (service_error_cases _ Hservice) as [(code & msg & ->)|(msg & ->)];
      unfold embed_failure; now rewrite str_app_assoc.
  - rewrite Hend in Hrun. discriminate.
  - rewrite Hnext in Hrun. exact (IH _ _ _ Henv Hrun).
Qed.

Lemma store_vector_raises (env : Env) (cfg : Config) (chunk_id : str) (embedding : json)
      (metadata : Metadata) (w w' : World) (exc : exception) :
  service_errors_only env ->
  store_vector env cfg chunk_id embedding metadata w = (Raise exc, w') ->
  wrapped ("Failed to store vector " +:+ chunk_id) exc.
Proof.
  intros Henv. unfold store_vector, catch, s3_put_object.
  destruct (put_object env w _ _ _) as [e|] eqn:Hput; [|discriminate].
  pose proof (proj1 (proj2 (proj2 Henv)) _ _ _ _ _ Hput) as Hservice.
  intros Hrun. exists e. split; [exact Hservice|].
  destruct (service_error_cases _ Hservice) as [(code & msg & ->)|(msg & ->)];
    unfold raise in Hrun; injection Hrun as <- _; now rewrite str_app_assoc.
Qed.

Lemma put_manifest_raises (env : Env) (cfg : Config) (doc_id : str) (manifest : Manifest)
      (w w' : World) (exc : exception) :
  service_errors_only env ->
  put_manifest env cfg doc_id manifest w = (Raise exc, w') ->
  wrapped ("Failed to write manifest for " +:+ doc_id) exc.
Proof.
  intros Henv. unfold put_manifest, catch, s3_put_object.
  destruct (put_object env w _ _ _) as [e|] eqn:Hput; [|discriminate].
  pose proof (proj1 (proj2 (proj2 Henv)) _ _ _ _ _ Hput) as Hservice.
  intros Hrun. exists e. split; [exact Hservice|].
  destruct (service_error_cases _ Hservice) as [(code & msg & ->)|(msg & ->)];
    unfold raise in Hrun; injection Hrun as <- _; now rewrite str_app_assoc.
Qed.

Lemma process_chunk_raises (env : Env) (cfg : Config) (ctx : DocContext) (idx : nat)
      (chunk : str) (acc : list ChunkEntry) (w w' : World) (exc : exception) :
  service_errors_only env ->
  process_chunk env cfg ctx idx chunk acc w = (Raise exc, w') ->
  chunk_loop_failure cfg (ctx_doc_id ctx) exc.
Proof.
  intros Henv Hrun. unfold process_chunk in Hrun. unfold bind at 1 in Hrun.
  destruct (vector_exists env cfg _ w) as [[found|e] w0] eqn:Ehead.
  2:{ injection Hrun as <- <-. destruct (vector_exists_raises _ _ _ _ _ _ Ehead) as (Hcall & Hcode).
      right; right; right; right. split; [|exact Hcode].
      exact (proj1 (proj2 Henv) _ _ _ _ Hcall). }
  destruct found; [discriminate|].
  unfold bind at 1 in Hrun.
  destruct (embed_text env cfg chunk w0) as [[v|e] w1] eqn:Eembed.
  2:{ injection Hrun as <- <-. unfold embed_text in Eembed.
      destruct (embed_loop_raises _ _ _ _ _ _ _ Henv Eembed) as [H|[H|H]];
        unfold chunk_loop_failure; auto. }
  unfold bind in Hrun.
  destruct (store_vector env cfg _ v _ w1) as [[[]|e] w2] eqn:Estore; [discriminate|].
  injection Hrun as <- <-. right; left. exists idx.
  exact (store_vector_raises _ _ _ _ _ _ _ _ Henv Estore).
Qed.

Lemma process_chunks_raises (env : Env) (cfg : Config) (ctx : DocContext)
      (chunks : list str) :
  forall (idx : nat) (acc : list ChunkEntry) (w w' : World) (exc : exception),
    service_errors_only env ->
    process_chunks env cfg ctx idx chunks acc w = (Raise exc, w') ->
    chunk_loop_failure cfg (ctx_doc_id ctx) exc.
Proof.
  induction chunks as [|chunk rest IH]; intros idx acc w w' exc Henv Hrun; [discriminate|].
  cbn [process_chunks] in Hrun. unfold bind in Hrun.
  destruct (process_chunk env cfg ctx idx chunk acc w) as [[entries|e] w1] eqn:Eturn.
  - exact (IH _ _ _ _ _ Henv Hrun).
  - injection Hrun as <- <-. exact (process_chunk_raises _ _ _ _ _ _ _ _ _ Henv Eturn).
Qed.

(** X15: when the collaborators fail with errors of the AWS calls only, the
    exception of a pass that fails is one of these: a [RuntimeError] with
    such an error as its cause and the message [Failed to fetch
    <bucket>/<key>], [Failed to embed text with model <model>], [Failed to
    store vector <chunk id>] or [Failed to write manifest for <doc id>]
    followed by a colon and the text of the cause; the missing-vector
    [RuntimeError]; an [AttributeError] (a response that is not an object);
    or, not wrapped, the error of a head request, which then is not a
    [ClientError] with a not-found or access-denied code. *)
Theorem pass_failure_is_wrapped :
  forall (fuel : nat) (env : Env) (cfg : Config) (s3_record : S3Record)
         (w w' : World) (exc : exception),
    service_errors_only env ->
    process_s3_event fuel env cfg s3_record w = Some (Raise exc, w') ->
    wrapped ("Failed to fetch " +:+ rec_bucket s3_record +:+ "/" +:+ rec_key s3_record) exc
    \/ chunk_loop_failure cfg (doc_id_of s3_record) exc
    \/ wrapped ("Failed to write manifest for " +:+ doc_id_of s3_record) exc.
Proof.
  intros fuel env cfg s3_record w w' exc Henv Hrun. unfold process_s3_event in Hrun.
  destruct (fetch_markdown env _ _ _ w) as [[text|e] w1] eqn:Efetch.
  - destruct (chunk_text fuel (markdown_to_text text) 1200 200) as [chunks|]; [|discriminate].
    injection Hrun as Hrun. unfold bind in Hrun.
    match type of Hrun with context [process_chunks env cfg ?c 0 chunks [] w1] =>
      destruct (process_chunks env cfg c 0 chunks [] w1) as [[entries|e] w2] eqn:Eloop
    end.
    + right; right. exact (put_manifest_raises _ _ _ _ _ _ _ Henv Hrun).
    + injection Hrun as <- <-. right; left.
      exact (process_chunks_raises _ _ _ _ _ _ _ _ _ Henv Eloop).
  - injection Hrun as <- <-. left. unfold fetch_markdown, catch, s3_get_object in Efetch.
    destruct (get_object env w _ _ _) as [e'|text] eqn:Hget; [|discriminate].
    pose proof (proj1 Henv _ _ _ _ _ Hget) as Hservice. exists e'. split; [exact Hservice|].
    destruct (service_error_cases _ Hservice) as [(code & msg & ->)|(msg & ->)];
      unfold raise in Efetch; injection Efetch as <- _; now rewrite !str_app_assoc.
Qed.

Lemma pass_failure_is_wrapped_witness :
  let exc := ClientError (Some "500") "head failed" in
  wrapped ("Failed to fetch " +:+ rec_bucket demo_record +:+ "/" +:+ rec_key demo_record) exc
  \/ chunk_loop_failure demo_config (doc_id_of demo_record) exc
  \/ wrapped ("Failed to write manifest for " +:+ doc_id_of demo_record) exc.
Proof.
  apply (pass_failure_is_wrapped 100 (head_failing_env (Some "500")) demo_config demo_record
           empty_world
           (match process_s3_event 100 (head_failing_env (Some "500")) demo_config
                                   demo_record empty_world with
            | Some (_, w) => w
            | None => empty_world
            end)).
  - repeat split; simpl; intros; try discriminate.
    match goal with H : Some _ = Some _ |- _ => injection H as <- end. reflexivity.
  - vm_compute. reflexivity.
Defined.

(** ** What a pass changes in the bucket *)

Lemma process_chunk_keeps (env : Env) (cfg : Config) (ctx : DocContext) (idx : nat)
      (chunk : str) (acc : list ChunkEntry) (w : World) (k : str) :
  k <> vector_object_key cfg (chunk_id_of (ctx_doc_id ctx) idx) ->
  processed (snd (process_chunk env cfg ctx idx chunk acc w)) !! k = processed w !! k.
Proof.
  intros Hk.
  destruct (process_chunk env cfg ctx idx chunk acc w) as [r w'] eqn:Erun.
  cbn [snd]. unfold process_chunk in Erun. cbv zeta in Erun. unfold bind at 1 in Erun.
  set (key := vector_object_key cfg (chunk_id_of (ctx_doc_id ctx) idx)) in *.
  destruct (vector_exists_run env cfg key w) as (Hw0 & _).
  destruct (vector_exists env cfg key w) as [[found|exc] w0]; cbn [fst snd] in *; subst w0.
  2:{ injection Erun as <- <-. reflexivity. }
  destruct found.
  - cbn [ret] in Erun. injection Erun as <- <-. reflexivity.
  - unfold bind at 1 in Erun.
    destruct (embed_text_run env cfg chunk
                (advance w [HeadObject (PROCESSED_BUCKET cfg) key] 0))
      as (evs & d & Hw1 & _).
    destruct (embed_text env cfg chunk _) as [[v|exc] w1]; cbn [fst snd] in *; subst w1.
    2:{ injection Erun as <- <-. reflexivity. }
    unfold bind in Erun.
    match type of Erun with context [store_vector env cfg ?c ?e ?md ?x] =>
      destruct (store_vector_run env cfg c e md x) as (_ & _ & Hpr);
      destruct (store_vector env cfg c e md x) as [[[]|exc] w2]
    end; cbn [fst snd ret] in *; injection Erun as <- <-.
    + destruct Hpr as [[_ ->]|[[exc Hexc] _]]; [|discriminate].
      fold key. rewrite lookup_insert_ne by congruence. reflexivity.
    + destruct Hpr as [[Hok _]|[_ ->]]; [discriminate|]. reflexivity.
Qed.

Lemma process_chunks_keeps (env : Env) (cfg : Config) (ctx : DocContext)
      (chunks : list str) (k : str) :
  (forall i, k <> vector_object_key cfg (chunk_id_of (ctx_doc_id ctx) i)) ->
  forall (idx : nat) (acc : list ChunkEntry) (w : World),
    processed (snd (process_chunks env cfg ctx idx chunks acc w)) !! k = processed w !! k.
Proof.
  intros Hk. induction chunks as [|chunk rest IH]; intros idx acc w; [reflexivity|].
  cbn [process_chunks]. unfold bind.
  pose proof (process_chunk_keeps env cfg ctx idx chunk acc w k (Hk idx)) as Hturn.
  destruct (process_chunk env cfg ctx idx chunk acc w) as [[entries|exc] w1];
    cbn [snd] in *; [|exact Hturn].
  now rewrite IH.
Qed.

Lemma process_s3_event_bucket (fuel : nat) (env : Env) (cfg : Config)
      (s3_record : S3Record) (w w' : World) (r : result unit) :
  process_s3_event fuel env cfg s3_record w = Some (r, w') ->
  (forall k, is_Some (processed w !! k) -> is_Some (processed w' !! k))
  /\ (forall k, k <> manifest_key (doc_id_of s3_record) ->
        (forall i, k <> vector_object_key cfg (chunk_id_of (doc_id_of s3_record) i)) ->
        processed w' !! k = processed w !! k).
Proof.
  intros Hrun.
  destruct (process_s3_event_run env cfg fuel s3_record w r w' Hrun)
    as [(exc & _ & _ & ->)
       |(text & chunks & r2 & w2 & evs & _ & _ & Hloop & Hfoot & _ & _ & Hend)].
  { split; [intros k Hk; exact Hk | reflexivity]. }
  assert (Hkeep2 : forall k, is_Some (processed w !! k) -> is_Some (processed w2 !! k)).
  { destruct Hfoot as (_ & _ & _ & _ & _ & _ & Hkeep). exact Hkeep. }
  assert (Hsame2 : forall k,
             (forall i, k <> vector_object_key cfg (chunk_id_of (doc_id_of s3_record) i)) ->
             processed w2 !! k = processed w !! k).
  { intros k Hk.
    match type of Hloop with process_chunks env cfg ?c 0 chunks [] ?x = _ =>
      pose proof (process_chunks_keeps env cfg c chunks k Hk 0%nat [] x) as Hkeeps
    end.
    rewrite Hloop in Hkeeps. exact Hkeeps. }
  destruct r2 as [entries|exc].
  - cbv zeta in Hend. destruct Hend as (_ & _ & Hput).
    match type of Hput with _ = put_manifest env cfg ?d ?m ?x =>
      destruct (put_manifest_run env cfg d m x) as (_ & _ & Hcases);
      rewrite <- Hput in Hcases; cbn [fst snd] in Hcases
    end.
    destruct Hcases as [(_ & _ & ->)|(_ & _ & ->)].
    + split.
      * intros k Hk. rewrite lookup_insert. destruct (decide _); eauto.
      * intros k Hm Hv. rewrite lookup_insert_ne by (apply not_eq_sym, Hm). auto.
    + split; auto.
  - destruct Hend as (_ & ->). split; auto.
Qed.

(** X16: a pass never removes an object from the processed bucket, and it
    changes the bucket only under the manifest key and the vector keys of its
    own document: every other key holds what it held before.  So the
    manifest and the vectors of a document with another doc id are what they
    were, however the pass ends. *)
Theorem pass_touches_own_objects_only :
  forall (fuel : nat) (env : Env) (cfg : Config) (s3_record : S3Record)
         (w w' : World) (r : result unit),
    process_s3_event fuel env cfg s3_record w = Some (r, w') ->
    let doc_id := doc_id_of s3_record in
    (forall k, is_Some (processed w !! k) -> is_Some (processed w' !! k))
    /\ (forall k, k <> manifest_key doc_id ->
                  (forall i, k <> vector_object_key cfg (chunk_id_of doc_id i)) ->
                  processed w' !! k = processed w !! k)
    /\ (forall (other : S3Record) (i : nat),
          doc_id_of other <> doc_id ->
          processed w' !! manifest_key (doc_id_of other)
          = processed w !! manifest_key (doc_id_of other)
          /\ processed w' !! vector_object_key cfg (chunk_id_of (doc_id_of other) i)
             = processed w !! vector_object_key cfg (chunk_id_of (doc_id_of other) i)).
Proof.
  intros fuel env cfg s3_record w w' r Hrun doc_id.
  destruct (process_s3_event_bucket fuel env cfg s3_record w w' r Hrun) as (Hkeep & Hsame).
  fold doc_id in Hsame.
  split; [exact Hkeep|]. split; [exact Hsame|].
  intros other i Hother. split.
  - apply Hsame.
    + unfold manifest_key. intros Heq. apply Hother.
      apply str_app_inv_head in Heq. now apply str_app_inv_tail in Heq.
    + intros j. apply vector_key_not_manifest_key.
  - apply Hsame.
    + apply not_eq_sym, vector_key_not_manifest_key.
    + intros j Heq. apply Hother. apply vector_object_key_inj in Heq.
      apply chunk_id_of_inj in Heq; [exact (proj1 Heq)|].
      unfold doc_id, doc_id_of. now rewrite !build_doc_id_length.
Qed.

Lemma pass_touches_own_objects_only_witness :
  let other := {| rec_bucket := "raw-docs"; rec_key := "company/about.md";
                  rec_version_id := None; rec_etag := Some "e1" |} in
  processed demo_pass_world !! manifest_key (doc_id_of other)
  = processed empty_world !! manifest_key (doc_id_of other)
  /\ processed demo_pass_world !! vector_object_key demo_config (chunk_id_of (doc_id_of other) 0)
     = processed empty_world !! vector_object_key demo_config (chunk_id_of (doc_id_of other) 0).
Proof.
  intros other.
  destruct (pass_touches_own_objects_only 100 demo_env_pass demo_config demo_record
                                          empty_world demo_pass_world (Ok tt))
    as (_ & _ & Hother).
  - vm_compute. reflexivity.
  - apply Hother. vm_compute. intros H. discriminate H.
Defined.

(** ** The manifest of a pass *)

(** X17: a document whose normalised text is empty (only white space, or
    only fenced code) costs no head request, no embedding call and no vector
    write: the pass is the fetch and then the write of a manifest with an
    empty chunk list, and when that write succeeds the pass succeeds with
    that manifest under the manifest key. *)
Theorem empty_document_gets_empty_manifest :
  forall (fuel : nat) (env : Env) (cfg : Config) (s3_record : S3Record)
         (w : World) (text : str),
    let bucket := rec_bucket s3_record in
    let key := rec_key s3_record in
    let version := if str_truthy (rec_version_id s3_record)
                   then rec_version_id s3_record else None in
    let doc_id := doc_id_of s3_record in
    let w1 := advance w [GetObject bucket key version] 0 in
    let m := {| m_doc_id := doc_id;
                m_source := {| src_bucket := bucket; src_key := key;
                               src_version_id := rec_version_id s3_record |};
                m_created_at := utcnow env w1;
                m_chunks := [] |} in
    get_object env w bucket key version = inr text ->
    markdown_to_text text = EmptyString ->
    exists (r : result unit) (w' : World),
      process_s3_event fuel env cfg s3_record w = Some (r, w')
      /\ trace w' = trace w ++ [GetObject bucket key version;
                                PutObject (PROCESSED_BUCKET cfg) (manifest_key doc_id)
                                          (ManifestObject m)]
      /\ (put_object env w1 (PROCESSED_BUCKET cfg) (manifest_key doc_id) (ManifestObject m)
          = None ->
          r = Ok tt
          /\ processed w' = <[manifest_key doc_id := ManifestObject m]> (processed w)).
Proof.
  intros fuel env cfg s3_record w text bucket key version doc_id w1 m Hget Hempty.
  pose proof (process_s3_event_unfold env cfg fuel s3_record w) as Hunfold.
  cbv zeta in Hunfold. fold bucket key version in Hunfold. rewrite Hget in Hunfold.
  rewrite Hempty in Hunfold. cbn [chunk_text process_chunks ret] in Hunfold.
  fold w1 in Hunfold. change (ctx_doc_id (context_of env s3_record w1)) with doc_id in Hunfold.
  change (ctx_created_at (context_of env s3_record w1)) with (utcnow env w1) in Hunfold.
  fold m in Hunfold.
  destruct (put_manifest_run env cfg doc_id m w1) as (Htrace & _ & Hcases).
  destruct (put_manifest env cfg doc_id m w1) as [r w'] eqn:Eput. cbn [fst snd] in *.
  exists r, w'. split; [exact Hunfold|]. split.
  - rewrite Htrace. subst w1. cbn [advance trace]. now rewrite <- app_assoc.
  - intros Hput. destruct Hcases as [(-> & _ & ->)|(_ & Hfail & _)]; [|now destruct Hfail].
    split; reflexivity.
Qed.

Lemma empty_document_gets_empty_manifest_witness :
  let env := demo_env (throttle_first 0 demo_answer) "```only code```" in
  let w1 := advance empty_world [GetObject "raw-docs" "products/plan.md" (Some "v1")] 0 in
  let m := {| m_doc_id := doc_id_of demo_record;
              m_source := {| src_bucket := "raw-docs"; src_key := "products/plan.md";
                             src_version_id := Some "v1" |};
              m_created_at := utcnow env w1;
              m_chunks := [] |} in
  exists (r : result unit) (w' : World),
    process_s3_event 0 env demo_config demo_record empty_world = Some (r, w')
    /\ trace w' = trace empty_world
                  ++ [GetObject "raw-docs" "products/plan.md" (Some "v1");
                      PutObject (PROCESSED_BUCKET demo_config)
                                (manifest_key (doc_id_of demo_record)) (ManifestObject m)]
    /\ (put_object env w1 (PROCESSED_BUCKET demo_config)
                   (manifest_key (doc_id_of demo_record)) (ManifestObject m) = None ->
        r = Ok tt
        /\ processed w'
           = <[manifest_key (doc_id_of demo_record) := ManifestObject m]>
               (processed empty_world)).
Proof.
  apply (empty_document_gets_empty_manifest
           0 (demo_env (throttle_first 0 demo_answer) "```only code```")
           demo_config demo_record empty_world "```only code```").
  - reflexivity.
  - vm_compute. reflexivity.
Defined.

Lemma chunk_loop_sizes (text : str) (chunk_size overlap : Z) (fuel : nat) :
  0 <= overlap < chunk_size ->
  forall (start : Z) (chunks result : list str),
    0 <= start ->
    Forall (fun c => 0 < len c <= chunk_size) chunks ->
    chunk_loop fuel text chunk_size overlap start chunks = Some result ->
    Forall (fun c => 0 < len c <= chunk_size) result.
Proof.
  intros Hov. induction fuel as [|fuel IH]; intros start chunks result Hstart Hall Hrun;
    [discriminate|].
  cbn [chunk_loop] in Hrun. cbv zeta in Hrun. revert Hrun.
  destruct (Z.ltb_spec start (len text)) as [Hlt|Hge];
    [|intros [= <-]; exact Hall].
  assert (Hnew : Forall (fun c => 0 < len c <= chunk_size)
                        (chunks ++ [py_slice text start
                                      (Z.min (start + chunk_size) (len text))])).
  { apply Forall_app. split; [exact Hall|]. constructor; [|constructor].
    rewrite len_py_slice by lia. lia. }
  destruct (Z.eqb_spec (Z.min (start + chunk_size) (len text)) (len text)) as [Heq|Hne].
  - intros [= <-]. exact Hnew.
  - intros Hrun.
    eapply (IH (Z.min (start + chunk_size) (len text) - overlap));
      [lia | exact Hnew | exact Hrun].
Qed.

Lemma chunk_text_sizes (text : str) (chunk_size overlap : Z) (fuel : nat)
      (chunks : list str) :
  0 <= overlap < chunk_size ->
  chunk_text fuel text chunk_size overlap = Some chunks ->
  Forall (fun c => 0 < len c <= chunk_size) chunks.
Proof.
  intros Hov. unfold chunk_text. destruct text as [|c text].
  - intros [= <-]. constructor.
  - apply (chunk_loop_sizes _ _ _ _ Hov); [lia | constructor].
Qed.

Lemma len_preview (chunk : str) :
  len (py_slice chunk 0 200) = Z.min 200 (len chunk).
Proof.
  rewrite !len_chars, chars_py_slice by lia.
  rewrite length_drop, length_take. lia.
Qed.

(** X18: the manifest of a pass that succeeds describes the chunks of the
    document: it carries the doc id and the source of the record; the entry
    number [i] has the chunk id [<doc id>:<i>], a length between 1 and 1200,
    a preview of the smaller of 200 and that length characters, the doc type
    inferred from the key, the source uri [s3://<bucket>/<key>] and the
    creation time of the manifest itself; and no two entries have the same
    chunk id. *)
Theorem manifest_entries_describe_chunks :
  forall (fuel : nat) (env : Env) (cfg : Config) (s3_record : S3Record) (w w' : World),
    process_s3_event fuel env cfg s3_record w = Some (Ok tt, w') ->
    exists m : Manifest,
      processed w' !! manifest_key (doc_id_of s3_record) = Some (ManifestObject m)
      /\ m_doc_id m = doc_id_of s3_record
      /\ m_source m = {| src_bucket := rec_bucket s3_record; src_key := rec_key s3_record;
                         src_version_id := rec_version_id s3_record |}
      /\ NoDup (List.map chunk_id (m_chunks m))
      /\ (forall (i : nat) (e : ChunkEntry),
            m_chunks m !! i = Some e ->
            chunk_id e = chunk_id_of (doc_id_of s3_record) i
            /\ 0 < length e <= 1200
            /\ len (chunk_text_preview e) = Z.min 200 (length e)
            /\ doc_type e = infer_doc_type (rec_key s3_record)
            /\ source_s3_uri e
               = "s3://" +:+ rec_bucket s3_record +:+ "/" +:+ rec_key s3_record
            /\ created_at e = m_created_at m).
Proof.
  intros fuel env cfg s3_record w w' Hrun.
  destruct (process_s3_event_run env cfg fuel s3_record w (Ok tt) w' Hrun)
    as [(exc & _ & (exc' & Hr) & _)
       |(text & chunks & r2 & w2 & evs & _ & Hchunks & _ & _ & _ & _ & Hend)];
    [discriminate|].
  destruct r2 as [entries|exc]; [|destruct Hend as [Hr _]; discriminate].
  cbv zeta in Hend. destruct Hend as (Hentries & _ & Hput).
  match type of Hput with _ = put_manifest env cfg ?d ?m ?x =>
    destruct (put_manifest_run env cfg d m x) as (_ & _ & Hcases);
    rewrite <- Hput in Hcases; cbn [fst snd] in Hcases;
    exists m
  end.
  destruct Hcases as [(_ & _ & Hstore)|((exc & Hexc) & _)]; [|discriminate].
  pose proof (chunk_text_sizes _ 1200 200 _ _ ltac:(lia) Hchunks) as Hsizes.
  assert (Hentry : forall i e, entries !! i = Some e ->
             exists chunk, chunks !! i = Some chunk
                           /\ e = entry_for (context_of env s3_record
                                    (advance w [GetObject (rec_bucket s3_record)
                                       (rec_key s3_record)
                                       (if str_truthy (rec_version_id s3_record)
                                        then rec_version_id s3_record else None)] 0))
                                    i chunk).
  { intros i e He. rewrite Hentries, entries_for_lookup in He.
    destruct (chunks !! i) as [chunk|]; [|discriminate].
    injection He as <-. eauto. }
  split; [rewrite Hstore; apply lookup_insert_eq|].
  split; [reflexivity|]. split; [reflexivity|]. cbn [m_chunks m_created_at]. split.
  - apply NoDup_alt. intros i j c Hi Hj.
    rewrite list_lookup_fmap in Hi, Hj.
    destruct (entries !! i) as [ei|] eqn:Ei; [|discriminate].
    destruct (entries !! j) as [ej|] eqn:Ej; [|discriminate].
    destruct (Hentry i ei Ei) as (ci & _ & ->). destruct (Hentry j ej Ej) as (cj & _ & ->).
    cbn in Hi, Hj. injection Hi as <-. injection Hj as Hj.
    do 2 apply str_app_inv_head in Hj. symmetry. exact (str_of_nat_inj _ _ Hj).
  - intros i e He. destruct (Hentry i e He) as (chunk & Hchunk & ->).
    cbn [entry_for chunk_id length chunk_text_preview doc_type source_s3_uri created_at
         context_of ctx_doc_id ctx_doc_type ctx_source_uri ctx_created_at].
    split; [reflexivity|].
    split; [exact (proj1 (Forall_lookup _ _) Hsizes i chunk Hchunk)|].
    split; [apply len_preview|]. auto.
Qed.

Lemma manifest_entries_describe_chunks_witness :
  exists m : Manifest,
    processed demo_pass_world !! manifest_key (doc_id_of demo_record) = Some (ManifestObject m)
    /\ m_doc_id m = doc_id_of demo_record
    /\ m_source m = {| src_bucket := rec_bucket demo_record; src_key := rec_key demo_record;
                       src_version_id := rec_version_id demo_record |}
    /\ NoDup (List.map chunk_id (m_chunks m))
    /\ (forall (i : nat) (e : ChunkEntry),
          m_chunks m !! i = Some e ->
          chunk_id e = chunk_id_of (doc_id_of demo_record) i
          /\ 0 < length e <= 1200
          /\ len (chunk_text_preview e) = Z.min 200 (length e)
          /\ doc_type e = infer_doc_type (rec_key demo_record)
          /\ source_s3_uri e
             = "s3://" +:+ rec_bucket demo_record +:+ "/" +:+ rec_key demo_record
          /\ created_at e = m_created_at m).
Proof.
  apply (manifest_entries_describe_chunks 100 demo_env_pass demo_config demo_record
                                          empty_world demo_pass_world).
  vm_compute. reflexivity.
Defined.

(** ** Classification by the first segment of the key *)

Lemma before_slash_app (prefix rest : str) :
  Forall (fun c => c <> "/"%char) (chars prefix) ->
  before_slash (prefix +:+ "/" +:+ rest) = prefix /\ before_slash prefix = prefix.
Proof.
  induction prefix as [|c prefix IH]; intros Hno.
  - rewrite str_app_nil_l, str_app_cons. split; reflexivity.
  - change (chars (String c prefix)) with (c :: chars prefix) in Hno.
    apply Forall_cons in Hno as [Hc Hrest]. destruct (IH Hrest) as (IH1 & IH2).
    rewrite str_app_cons. cbn [before_slash].
    apply Ascii.eqb_neq in Hc. rewrite Hc, IH1, IH2. split; reflexivity.
Qed.

Lemma before_slash_split (key : str) :
  key = before_slash key \/ exists rest, key = before_slash key +:+ "/" +:+ rest.
Proof.
  induction key as [|c key IH]; [left; reflexivity|].
  cbn [before_slash]. destruct (Ascii.eqb c "/") eqn:Hc.
  - apply Ascii.eqb_eq in Hc. subst c. right. exists key.
    now rewrite str_app_nil_l, str_app_cons, str_app_nil_l.
  - destruct IH as [IH|(rest & IH)].
    + left. now rewrite <- IH.
    + right. exists rest. now rewrite str_app_cons, <- IH.
Qed.

(** X19: [infer_doc_type] gives one of the five values company, contracts,
    employees, products and unknown, and it gives a recognised type [t]
    exactly for the key [t] itself and the keys that start with [t] and a
    slash: the type is read from the first segment of the key alone, and
    anything else, also another letter case, is unknown. *)
Theorem infer_doc_type_classifies :
  forall key : str,
    In (infer_doc_type key) (doc_types ++ ["unknown"])
    /\ (forall t, In t doc_types ->
          (infer_doc_type key = t
           <-> key = t \/ exists rest, key = t +:+ "/" +:+ rest)).
Proof.
  intros key. unfold infer_doc_type. fold doc_types.
  destruct (List.existsb (String.eqb (before_slash key)) doc_types) eqn:Hknown.
  - apply List.existsb_exists in Hknown as (t0 & Ht0 & Heq).
    apply String.eqb_eq in Heq. split.
    + apply in_or_app. left. now rewrite Heq.
    + intros t Ht. split.
      * intros Hpre. rewrite <- Hpre.
        destruct (before_slash_split key) as [Hk|(rest & Hk)]; [left | right; exists rest];
          exact Hk.
      * assert (Hno : Forall (fun c => c <> "/"%char) (chars t)).
        { unfold doc_types in Ht. simpl in Ht.
          destruct Ht as [<-|[<-|[<-|[<-|[]]]]];
            repeat (constructor; [discriminate|]); constructor. }
        intros [->|(rest & ->)]; [exact (proj2 (before_slash_app t EmptyString Hno))|].
        exact (proj1 (before_slash_app t rest Hno)).
  - split; [apply in_or_app; right; left; reflexivity|].
    intros t Ht. split.
    + intros <-. unfold doc_types in Ht. simpl in Ht.
      destruct Ht as [H|[H|[H|[H|[]]]]]; discriminate H.
    + assert (Hno : Forall (fun c => c <> "/"%char) (chars t)).
      { unfold doc_types in Ht. simpl in Ht.
        destruct Ht as [<-|[<-|[<-|[<-|[]]]]];
          repeat (constructor; [discriminate|]); constructor. }
      assert (Hpre : before_slash key = t -> False).
      { intros Hpre. rewrite Hpre in Hknown.
        assert (Hsome : List.existsb (String.eqb t) doc_types = true).
        { apply List.existsb_exists. exists t. split; [exact Ht | apply String.eqb_refl]. }
        congruence. }
      intros [->|(rest & ->)]; exfalso; apply Hpre.
      * exact (proj2 (before_slash_app t EmptyString Hno)).
      * exact (proj1 (before_slash_app t rest Hno)).
Qed.

(** ** The entry points: [process_sqs_record] and [lambda_handler] *)

Lemma successful_pass_events (fuel : nat) (env : Env) (cfg : Config)
      (s3_record : S3Record) (w w' : World) :
  process_s3_event fuel env cfg s3_record w = Some (Ok tt, w') ->
  exists (evs : list event) (m : Manifest),
    trace w' = trace w ++ evs
    /\ manifest_puts evs = [(manifest_key (doc_id_of s3_record), m)]
    /\ processed w' !! manifest_key (doc_id_of s3_record) = Some (ManifestObject m).
Proof.
  intros Hrun.
  destruct (process_s3_event_run env cfg fuel s3_record w (Ok tt) w' Hrun)
    as [(exc & _ & (exc' & Hr) & _)
       |(text & chunks & r2 & w2 & evs & _ & _ & _ & _ & Htr & Hm & Hend)];
    [discriminate|].
  destruct r2 as [entries|exc]; [|destruct Hend as [Hr _]; discriminate].
  cbv zeta in Hend. destruct Hend as (_ & _ & Hput).
  match type of Hput with _ = put_manifest env cfg ?d ?m ?x =>
    destruct (put_manifest_run env cfg d m x) as (Htr' & _ & Hcases);
    rewrite <- Hput in Htr', Hcases; cbn [fst snd] in Htr', Hcases;
    eexists _, m
  end.
  destruct Hcases as [(_ & _ & Hstore)|((exc & Hexc) & _)]; [|discriminate].
  split; [|split].
  - rewrite Htr', Htr. cbn [advance trace]. rewrite <- !app_assoc. reflexivity.
  - rewrite !manifest_puts_app, Hm. reflexivity.
  - rewrite Hstore. apply lookup_insert_eq.
Qed.

Lemma process_s3_records_success (fuel : nat) (env : Env) (cfg : Config)
      (s3_records : list (exception + S3Record)) :
  forall (w w' : World),
    process_s3_records fuel env cfg s3_records w = Some (Ok tt, w') ->
    exists (readable : list S3Record) (evs : list event),
      s3_records = List.map inr readable
      /\ trace w' = trace w ++ evs
      /\ List.map fst (manifest_puts evs)
         = List.map (fun r => manifest_key (doc_id_of r)) readable
      /\ (forall k, is_Some (processed w !! k) -> is_Some (processed w' !! k))
      /\ Forall (fun r => is_Some (processed w' !! manifest_key (doc_id_of r))) readable.
Proof.
  induction s3_records as [|s3_record rest IH]; intros w w' Hrun.
  - injection Hrun as <-. exists [], []. rewrite app_nil_r. repeat split; auto.
  - cbn [process_s3_records] in Hrun. unfold process_s3_record in Hrun.
    destruct s3_record as [exc|fields]; [discriminate|].
    destruct (process_s3_event fuel env cfg fields w) as [[[[]|exc] w1]|] eqn:Epass;
      try discriminate.
    destruct (successful_pass_events _ _ _ _ _ _ Epass) as (evs1 & m & Htr1 & Hm1 & Hin1).
    destruct (process_s3_event_bucket _ _ _ _ _ _ _ Epass) as (Hkeep1 & _).
    destruct (IH w1 w' Hrun) as (readable & evs & -> & Htr & Hm & Hkeep & Hall).
    exists (fields :: readable), (evs1 ++ evs).
    split; [reflexivity|]. split; [rewrite Htr, Htr1, <- app_assoc; reflexivity|].
    split; [rewrite manifest_puts_app, map_app, Hm1, Hm; reflexivity|].
    split; [intros k Hk; apply Hkeep, Hkeep1, Hk|]. constructor; [|exact Hall].
    cbv beta. apply Hkeep. exists (ManifestObject m). exact Hin1.
Qed.

Lemma handle_records_success (fuel : nat) (env : Env) (cfg : Config)
      (records : list SqsRecord) :
  forall (w w' : World),
    handle_records fuel env cfg records w = Some (Ok tt, w') ->
    exists (readable : list S3Record) (evs : list event),
      s3_records_of records = List.map inr readable
      /\ Forall (fun record => exists s3_records, sqs_body record = inr s3_records) records
      /\ trace w' = trace w ++ evs
      /\ List.map fst (manifest_puts evs)
         = List.map (fun r => manifest_key (doc_id_of r)) readable
      /\ (forall k, is_Some (processed w !! k) -> is_Some (processed w' !! k))
      /\ Forall (fun r => is_Some (processed w' !! manifest_key (doc_id_of r))) readable.
Proof.
  induction records as [|record rest IH]; intros w w' Hrun.
  - injection Hrun as <-. exists [], []. rewrite app_nil_r. repeat split; auto.
  - cbn [handle_records] in Hrun. unfold process_sqs_record in Hrun.
    unfold s3_records_of. cbn [List.map List.concat]. fold (s3_records_of rest).
    destruct (sqs_body record) as [exc|s3_records] eqn:Ebody; [discriminate|].
    destruct (process_s3_records fuel env cfg s3_records w) as [[[[]|exc] w1]|] eqn:Emsg;
      try discriminate.
    destruct (process_s3_records_success _ _ _ _ _ _ Emsg)
      as (readable1 & evs1 & -> & Htr1 & Hm1 & Hkeep1 & Hall1).
    destruct (IH w1 w' Hrun) as (readable & evs & Hrest & Hbodies & Htr & Hm & Hkeep & Hall).
    exists (readable1 ++ readable), (evs1 ++ evs).
    split; [rewrite Hrest, map_app; reflexivity|].
    split; [constructor; [eauto | exact Hbodies]|].
    split; [rewrite Htr, Htr1, <- app_assoc; reflexivity|].
    split; [rewrite manifest_puts_app, !map_app, Hm1, Hm; reflexivity|].
    split; [intros k Hk; apply Hkeep, Hkeep1, Hk|]. apply Forall_app. split; [|exact Hall].
    eapply Forall_impl; [exact Hall1|]. intros r Hr. apply Hkeep, Hr.
Qed.

(** X20: when [lambda_handler] returns, it returns the status ok with the
    number of messages of the event, every message body and every S3 record
    in it could be read, and the run has handed over exactly one manifest
    per S3 record, in the order of the event, each under the manifest key of
    the record's doc id; at the end every one of these keys holds an
    object. *)
Theorem lambda_handler_success_covers_every_record :
  forall (fuel : nat) (env : Env) (cfg : Config) (records : list SqsRecord)
         (w w' : World) (res : HandlerResult),
    lambda_handler fuel env cfg records w = Some (Ok res, w') ->
    hr_status res = "ok"
    /\ hr_records res = Z.of_nat (List.length records)
    /\ exists readable : list S3Record,
         s3_records_of records = List.map inr readable
         /\ Forall (fun record => exists s3_records, sqs_body record = inr s3_records) records
         /\ List.map fst (manifest_puts (new_events w w'))
            = List.map (fun r => manifest_key (doc_id_of r)) readable
         /\ Forall (fun r => is_Some (processed w' !! manifest_key (doc_id_of r))) readable.
Proof.
  intros fuel env cfg records w w' res Hrun. unfold lambda_handler in Hrun.
  destruct (handle_records fuel env cfg records w) as [[[[]|exc] w1]|] eqn:Eloop;
    try discriminate.
  injection Hrun as <- <-. split; [reflexivity|]. split; [reflexivity|].
  destruct (handle_records_success _ _ _ _ _ _ Eloop)
    as (readable & evs & Hall & Hbodies & Htr & Hm & _ & Hin).
  exists readable. split; [exact Hall|]. split; [exact Hbodies|]. split; [|exact Hin].
  unfold new_events. rewrite Htr, drop_app_length. exact Hm.
Qed.

Lemma lambda_handler_success_covers_every_record_witness :
  let res := {| hr_status := "ok"; hr_records := 1 |} in
  hr_status res = "ok"
  /\ hr_records res = Z.of_nat (List.length (take 1 demo_event))
  /\ exists readable : list S3Record,
       s3_records_of (take 1 demo_event) = List.map inr readable
       /\ Forall (fun record => exists s3_records, sqs_body record = inr s3_records)
                 (take 1 demo_event)
       /\ List.map fst (manifest_puts (new_events empty_world demo_pass_world))
          = List.map (fun r => manifest_key (doc_id_of r)) readable
       /\ Forall (fun r => is_Some (processed demo_pass_world !! manifest_key (doc_id_of r)))
                 readable.
Proof.
  apply (lambda_handler_success_covers_every_record
           100 demo_env_pass demo_config (take 1 demo_event) empty_world demo_pass_world
           {| hr_status := "ok"; hr_records := 1 |}).
  vm_compute. reflexivity.
Defined.

Lemma handle_records_app (fuel : nat) (env : Env) (cfg : Config)
      (done rest : list SqsRecord) :
  forall (w w1 : World),
    handle_records fuel env cfg done w = Some (Ok tt, w1) ->
    handle_records fuel env cfg (done ++ rest) w = handle_records fuel env cfg rest w1.
Proof.
  induction done as [|record done IH]; intros w w1 Hdone.
  - injection Hdone as <-. reflexivity.
  - cbn [handle_records app] in *.
    destruct (process_sqs_record fuel env cfg record w) as [[[[]|exc] w0]|];
      try discriminate.
    exact (IH w0 w1 Hdone).
Qed.

(** X21: the first message that fails stops [lambda_handler]: when the
    handler gets through the messages before it and [process_sqs_record]
    raises on that message, the handler raises the same exception, and it
    ends in the world in which that message failed: no later message of the
    event is looked at. *)
Theorem lambda_handler_stops_at_first_failure :
  forall (fuel : nat) (env : Env) (cfg : Config)
         (done : list SqsRecord) (failing : SqsRecord) (later : list SqsRecord)
         (w w1 w2 : World) (res : HandlerResult) (exc : exception),
    lambda_handler fuel env cfg done w = Some (Ok res, w1) ->
    process_sqs_record fuel env cfg failing w1 = Some (Raise exc, w2) ->
    lambda_handler fuel env cfg (done ++ failing :: later) w = Some (Raise exc, w2).
Proof.
  intros fuel env cfg done failing later w w1 w2 res exc Hdone Hfail.
  unfold lambda_handler in *.
  destruct (handle_records fuel env cfg done w) as [[[[]|exc0] w0]|] eqn:Eloop;
    try discriminate.
  injection Hdone as _ ->.
  rewrite (handle_records_app fuel env cfg done (failing :: later) w w1 Eloop).
  cbn [handle_records]. rewrite Hfail. reflexivity.
Qed.

Lemma lambda_handler_stops_at_first_failure_witness :
  lambda_handler 100 demo_env_pass demo_config
    (take 1 demo_event
     ++ {| sqs_message_id := Some "m2";
           sqs_body := inr [inl (KeyError "'s3'"); inr demo_record] |} :: demo_event)
    empty_world
  = Some (Raise (KeyError "'s3'"), demo_pass_world).
Proof.
  apply (lambda_handler_stops_at_first_failure
           100 demo_env_pass demo_config (take 1 demo_event)
           {| sqs_message_id := Some "m2";
              sqs_body := inr [inl (KeyError "'s3'"); inr demo_record] |}
           demo_event empty_world demo_pass_world demo_pass_world
           {| hr_status := "ok"; hr_records := 1 |} (KeyError "'s3'")).
  - vm_compute. reflexivity.
  - reflexivity.
Defined.

(** A pass settles: from some fuel on, its result is defined and the same. *)
Lemma process_s3_event_settles (env : Env) (cfg : Config) (s3_record : S3Record) (w : World) :
  exists (fuel0 : nat) (r : result unit) (w' : World),
    forall fuel, (fuel0 <= fuel)%nat ->
      process_s3_event fuel env cfg s3_record w = Some (r, w').
Proof.
  unfold process_s3_event. cbv zeta.
  destruct (fetch_markdown env _ _ _ w) as [[text|e] w1].
  - destruct (handler_chunking_total (markdown_to_text text)) as (chunks & Hchunks & _).
    exists (S (String.length (markdown_to_text text))).
    eexists _, _. intros fuel Hfuel.
    rewrite Hchunks by lia. f_equal. apply surjective_pairing.
  - exists 0%nat, (Raise e), w1. reflexivity.
Qed.

Lemma process_s3_records_settle (env : Env) (cfg : Config)
      (s3_records : list (exception + S3Record)) :
  forall w : World,
    exists (fuel0 : nat) (r : result unit) (w' : World),
      forall fuel, (fuel0 <= fuel)%nat ->
        process_s3_records fuel env cfg s3_records w = Some (r, w').
Proof.
  induction s3_records as [|s3_record rest IH]; intros w.
  - exists 0%nat, (Ok tt), w. reflexivity.
  - destruct s3_record as [exc|fields].
    + exists 0%nat, (Raise exc), w. reflexivity.
    + destruct (process_s3_event_settles env cfg fields w) as (f1 & r1 & w1 & H1).
      destruct r1 as [[]|exc].
      * destruct (IH w1) as (f2 & r2 & w2 & H2).
        exists (Nat.max f1 f2), r2, w2. intros fuel Hfuel.
        cbn [process_s3_records process_s3_record]. rewrite H1 by lia. apply H2. lia.
      * exists f1, (Raise exc), w1. intros fuel Hfuel.
        cbn [process_s3_records process_s3_record]. now rewrite H1.
Qed.

Lemma handle_records_settle (env : Env) (cfg : Config) (records : list SqsRecord) :
  forall w : World,
    exists (fuel0 : nat) (r : result unit) (w' : World),
      forall fuel, (fuel0 <= fuel)%nat ->
        handle_records fuel env cfg records w = Some (r, w').
Proof.
  induction records as [|record rest IH]; intros w.
  - exists 0%nat, (Ok tt), w. reflexivity.
  - assert (Hmsg : exists f1 r1 w1, forall fuel, (f1 <= fuel)%nat ->
                     process_sqs_record fuel env cfg record w = Some (r1, w1)).
    { unfold process_sqs_record. destruct (sqs_body record) as [exc|s3_records].
      - exists 0%nat, (Raise exc), w. reflexivity.
      - apply process_s3_records_settle. }
    destruct Hmsg as (f1 & r1 & w1 & H1). destruct r1 as [[]|exc].
    + destruct (IH w1) as (f2 & r2 & w2 & H2).
      exists (Nat.max f1 f2), r2, w2. intros fuel Hfuel.
      cbn [handle_records]. rewrite H1 by lia. apply H2. lia.
    + exists f1, (Raise exc), w1. intros fuel Hfuel.
      cbn [handle_records]. now rewrite H1.
Qed.

(** X22: [lambda_handler] always ends: for every event, whatever the
    collaborators answer, the only loop that could run on, the chunker,
    ends on every document, so from some amount of fuel on the handler
    gives a result, and that result and the world it leaves do not depend
    on the fuel. *)
Theorem lambda_handler_always_ends :
  forall (env : Env) (cfg : Config) (records : list SqsRecord) (w : World),
    exists (fuel0 : nat) (r : result HandlerResult) (w' : World),
      forall fuel, (fuel0 <= fuel)%nat ->
        lambda_handler fuel env cfg records w = Some (r, w').
Proof.
  intros env cfg records w.
  destruct (handle_records_settle env cfg records w) as (fuel0 & r & w' & Hloop).
  exists fuel0.
  exists (match r with
          | Ok _ => Ok {| hr_status := "ok"; hr_records := Z.of_nat (List.length records) |}
          | Raise exc => Raise exc
          end), w'.
  intros fuel Hfuel. unfold lambda_handler. rewrite (Hloop fuel Hfuel).
  destruct r; reflexivity.
Qed.
